(** * WebSocket framing over a custom scheme (prototype 06)

    A shallow embedding of [prototypes/06-websocket-scheme/main.cpp]:
    the frame codec ([WsFrame::encode], [WsFrame::decode]), the frame
    queue ([FrameQueue]), the binary-message handler and the two modes of
    [websocket_server_thread], with the properties of the specification
    stated over them. *)

From Stdlib Require Import ZArith List Bool Lia String.
From Stdlib Require Import Strings.Byte DecimalString.
From coqutil Require Import Byte Z.bitblast.
Import ListNotations.
Local Open Scope Z_scope.

(** ** Machine integers *)

(** [std::uint8_t] is [byte]; [static_cast<std::uint8_t>(z)] is
    [byte.of_Z z] and the integral promotion of a byte is
    [byte.unsigned].  [std::size_t] and [std::uint64_t] are 64 bits wide:
    values are kept in [Z] and every operation that can leave the range is
    wrapped here. *)

Definition wrap64 (z : Z) : Z := z mod 2 ^ 64.

(** ** The monad of [decode]

    [std::optional] with two more outcomes, for the runs that return
    neither [std::nullopt] nor a value: an exception that leaves the call,
    and a read past [data + size], which the C++ source leaves
    undefined. *)

Inductive result (A : Type) : Type :=
| Ok (a : A)        (* a value *)
| Nullopt           (* [return std::nullopt] *)
| Throw             (* [std::length_error] out of [resize] *)
| Fault.            (* a read of [data[i]] with [size <= i] *)

Arguments Ok {A} a.
Arguments Nullopt {A}.
Arguments Throw {A}.
Arguments Fault {A}.

Definition bind {A B : Type} (m : result A) (k : A -> result B) : result B :=
  match m with
  | Ok a => k a
  | Nullopt => Nullopt
  | Throw => Throw
  | Fault => Fault
  end.

Notation "x <- m ;; k" := (bind m (fun x => k))
  (at level 61, m at next level, right associativity).
Notation "' p <- m ;; k" := (bind m (fun x => let p := x in k))
  (at level 61, p pattern, m at next level, right associativity).

(** [data[i]] *)
Definition read (data : list byte) (i : Z) : result Z :=
  match nth_error data (Z.to_nat i) with
  | Some b => Ok (byte.unsigned b)
  | None => Fault
  end.

(** ** Frames *)

(** [enum class WsOpcode : std::uint8_t]: a scoped enumeration with a fixed
    underlying type holds every value of that type, so an opcode is a byte
    and the enumerators are six of its values. *)
Definition WsOpcode : Type := byte.

Definition CONTINUATION : WsOpcode := byte.of_Z 0x0.
Definition TEXT : WsOpcode := byte.of_Z 0x1.
Definition BINARY : WsOpcode := byte.of_Z 0x2.
Definition CLOSE : WsOpcode := byte.of_Z 0x8.
Definition PING : WsOpcode := byte.of_Z 0x9.
Definition PONG : WsOpcode := byte.of_Z 0xA.

Record WsFrame : Type := mkFrame {
  fin : bool;
  opcode : WsOpcode;
  payload : list byte
}.

(** [payload.size()] *)
Definition size (l : list byte) : Z := Z.of_nat (List.length l).

(** ** [WsFrame::encode] *)

Definition encode (f : WsFrame) : list byte :=
  let byte0 :=
    byte.of_Z (Z.lor (if fin f then 0x80 else 0x00) (byte.unsigned (opcode f))) in
  let n := size (payload f) in
  let len :=
    if n <=? 125 then
      [byte.of_Z n]
    else if n <=? 65535 then
      [byte.of_Z 126;
       byte.of_Z (Z.land (Z.shiftr n 8) 0xFF);
       byte.of_Z (Z.land n 0xFF)]
    else
      byte.of_Z 127 ::
      map (fun i => byte.of_Z (Z.land (Z.shiftr n (i * 8)) 0xFF))
          [7; 6; 5; 4; 3; 2; 1; 0]
  in
  byte0 :: len ++ payload f.

(** ** [WsFrame::decode] *)

(** What [decode] knows when it reaches the comment [// Payload]. *)
Record header : Type := mkHeader {
  h_fin : bool;
  h_opcode : WsOpcode;
  h_mask : list Z;      (* [mask[4]] *)
  h_length : Z;         (* [length], a [std::uint64_t] *)
  h_offset : Z          (* [offset], a [std::size_t] *)
}.

(** The loop [for (int i = 0; i < 8; i++) length = (length << 8) | data[offset + i]]. *)
Fixpoint read_length64 (data : list byte) (offset : Z) (idx : list Z) (length : Z)
  : result Z :=
  match idx with
  | [] => Ok length
  | i :: idx' =>
      d <- read data (offset + i) ;;
      read_length64 data offset idx' (Z.lor (wrap64 (Z.shiftl length 8)) d)
  end.

(** Lines 85 to 129: the two fixed bytes, the extended length and the
    masking key. *)
Definition parse_header (data : list byte) : result header :=
  let sz := size data in
  if sz <? 2 then Nullopt else
  d0 <- read data 0 ;;
  d1 <- read data 1 ;;
  let fin := negb (Z.land d0 0x80 =? 0) in
  let opcode := byte.of_Z (Z.land d0 0x0F) in
  let masked := negb (Z.land d1 0x80 =? 0) in
  let length := Z.land d1 0x7F in
  let offset := 2 in
  '(length, offset) <-
    (if length =? 126 then
       if sz <? offset + 2 then Nullopt else
       hi <- read data offset ;;
       lo <- read data (offset + 1) ;;
       Ok (Z.lor (Z.shiftl hi 8) lo, offset + 2)
     else if length =? 127 then
       if sz <? offset + 8 then Nullopt else
       length <- read_length64 data offset [0; 1; 2; 3; 4; 5; 6; 7] 0 ;;
       Ok (length, offset + 8)
     else Ok (length, offset)) ;;
  '(mask, offset) <-
    (if masked then
       if sz <? offset + 4 then Nullopt else
       m0 <- read data offset ;;
       m1 <- read data (offset + 1) ;;
       m2 <- read data (offset + 2) ;;
       m3 <- read data (offset + 3) ;;
       Ok ([m0; m1; m2; m3], offset + 4)
     else Ok ([0; 0; 0; 0], offset)) ;;
  Ok (mkHeader fin opcode mask length offset).

(** The loop [for (i = 0; i < length; i++) payload[i] = data[offset + i] ^ mask[i % 4]],
    with [rest] the bytes from [data + offset + i] to [data + size]: it
    stops when [i] reaches [length], and reads past the buffer when the
    buffer ends first. *)
Fixpoint copy_payload (mask : list Z) (rest : list byte) (i length : Z)
  : result (list byte) :=
  if length <=? i then Ok [] else
  match rest with
  | [] => Fault
  | b :: rest' =>
      p <- copy_payload mask rest' (i + 1) length ;;
      Ok (byte.of_Z (Z.lxor (byte.unsigned b) (nth (Z.to_nat (i mod 4)) mask 0)) :: p)
  end.

(** [std::vector<std::uint8_t>::max_size()]: [PTRDIFF_MAX], which is
    [2 ^ 63 - 1] on a 64-bit target.  No buffer of more bytes exists
    there; a list of [held] bytes that is longer stands for a buffer of a
    target whose limit is no less than [held]. *)
Definition max_size (held : Z) : Z := Z.max (2 ^ 63 - 1) held.

(** [frame.payload.resize(length)] on the empty payload of a new frame,
    while the caller holds a buffer of [held] bytes: [std::length_error]
    when [length] exceeds [max_size()].  Below the limit the allocation is
    taken to succeed; the new elements are zeros, and the loop that
    follows writes every one of them. *)
Definition resize (held length : Z) : result unit :=
  if max_size held <? length then Throw else Ok tt.

(** [decode(data.data(), data.size())]: the header, the test of line 132,
    the resize of line 135 and the loop of lines 136 to 139. *)
Definition decode (data : list byte) : result (WsFrame * Z) :=
  h <- parse_header data ;;
  if size data <? wrap64 (h_offset h + h_length h) then Nullopt else
  'tt <- resize (size data) (h_length h) ;;
  p <- copy_payload (h_mask h) (skipn (Z.to_nat (h_offset h)) data) 0 (h_length h) ;;
  Ok (mkFrame (h_fin h) (h_opcode h) p, wrap64 (h_offset h + h_length h)).

Definition bytes_of (l : list Z) : list byte := map byte.of_Z l.

(** A buffer of ten bytes: FIN and TEXT, the marker 127, and the 64-bit
    length [2 ^ 64 - 1]. *)
Definition hostile_length : list byte :=
  bytes_of [0x81; 0x7F; 0xFF; 0xFF; 0xFF; 0xFF; 0xFF; 0xFF; 0xFF; 0xFF].

(** * The frame queue *)

(** [class FrameQueue]: the deque and the closed flag.  The mutex and the
    condition variable order the calls; a state of the queue is what a
    thread sees while it holds the lock. *)
Record FrameQueue : Type := mkQueue {
  m_queue : list WsFrame;
  m_closed : bool
}.

(** The default member initialisers: no frame, [m_closed{false}]. *)
Definition new_queue : FrameQueue := mkQueue [] false.

Definition push (q : FrameQueue) (frame : WsFrame) : FrameQueue :=
  mkQueue (m_queue q ++ [frame]) (m_closed q).

Definition close (q : FrameQueue) : FrameQueue :=
  mkQueue (m_queue q) true.

Definition reset (q : FrameQueue) : FrameQueue :=
  mkQueue [] false.

(** [m_queue.empty()] *)
Definition empty (l : list WsFrame) : bool :=
  match l with [] => true | _ :: _ => false end.

(** [wait_pop(timeout)], on the state in which the wait ends: either the
    predicate [!m_queue.empty() || m_closed] holds by then, or the timeout
    has passed with the predicate still false. *)
Definition wait_pop (q : FrameQueue) : option WsFrame * FrameQueue :=
  if negb (negb (empty (m_queue q)) || m_closed q) then (None, q)
  else if empty (m_queue q) then (None, q)
  else match m_queue q with
       | frame :: rest => (Some frame, mkQueue rest (m_closed q))
       | [] => (None, q)
       end.

(** Calls on a queue, in the order in which they take the lock. *)
Inductive queue_op : Type :=
| OpPush (frame : WsFrame)
| OpClose
| OpWaitPop.

(** Runs the calls; returns what the [wait_pop] calls returned, in order. *)
Fixpoint run_ops (q : FrameQueue) (ops : list queue_op)
  : list (option WsFrame) * FrameQueue :=
  match ops with
  | [] => ([], q)
  | OpPush frame :: ops' => run_ops (push q frame) ops'
  | OpClose :: ops' => run_ops (close q) ops'
  | OpWaitPop :: ops' =>
      let '(r, q') := wait_pop q in
      let '(rs, q'') := run_ops q' ops' in
      (r :: rs, q'')
  end.

(** The frames pushed by a list of calls, and the frames among results. *)
Definition pushed (ops : list queue_op) : list WsFrame :=
  flat_map (fun o => match o with OpPush f => [f] | _ => [] end) ops.

Definition popped (rs : list (option WsFrame)) : list WsFrame :=
  flat_map (fun r => match r with Some f => [f] | None => [] end) rs.

Definition push_all (q : FrameQueue) (frames : list WsFrame) : FrameQueue :=
  fold_left push frames q.

(** [n] calls of [wait_pop] in a row. *)
Definition pop_n (n : nat) (q : FrameQueue) : list (option WsFrame) * FrameQueue :=
  run_ops q (repeat OpWaitPop n).

(** * The binary-message handler *)

(** The lambda registered for [saucer::webview::event::binary_message]:
    one call of [decode] on the message, one [push] when it returns a
    frame.  [None] stands for a run in which [decode] did not return: the
    exception of [resize] leaves the lambda, which catches nothing. *)
Definition binary_message (g_from_client : FrameQueue) (data : list byte)
  : option FrameQueue :=
  match decode data with
  | Ok (frame, _) => Some (push g_from_client frame)
  | Nullopt => Some g_from_client
  | Throw => None
  | Fault => None
  end.

(** The inbound entry point in the words of the specification: decode
    frames from the buffer one after the other, each time past the bytes
    consumed, pushing each, until [decode] reports insufficient data. *)
Fixpoint on_inbound_spec (fuel : nat) (q : FrameQueue) (data : list byte)
  : option FrameQueue :=
  match fuel with
  | O => Some q
  | S fuel' =>
      match decode data with
      | Ok (frame, consumed) =>
          on_inbound_spec fuel' (push q frame) (skipn (Z.to_nat consumed) data)
      | Nullopt => Some q
      | Throw => None
      | Fault => None
      end
  end.

(** * The session thread *)

(** What [websocket_server_thread] does to the outside, in order: the calls
    on the stream writer, the call on the application, and what each
    [wait_pop] returned to it. *)
Inductive event : Type :=
| Started                           (* [writer.start(...)] *)
| Sent (bytes : list byte)          (* [writer.write(...)] *)
| Popped (r : option WsFrame)       (* [g_from_client.wait_pop(...)] returned [r] *)
| Finished                          (* [writer.finish()] *)
| Quit.                             (* [g_app->quit()] *)

(** The globals of the program, and the events so far. *)
Record session : Type := mkSession {
  g_from_client : FrameQueue;
  g_running : bool;
  g_connected : bool;
  g_test_mode : bool;
  g_test_result : Z;
  g_pings_sent : Z;
  g_pongs_received : Z;
  g_app : bool;                     (* [g_app != nullptr] *)
  trace : list event
}.

Definition set_from_client (q : FrameQueue) (s : session) : session :=
  mkSession q (g_running s) (g_connected s) (g_test_mode s) (g_test_result s)
    (g_pings_sent s) (g_pongs_received s) (g_app s) (trace s).

Definition set_running (b : bool) (s : session) : session :=
  mkSession (g_from_client s) b (g_connected s) (g_test_mode s) (g_test_result s)
    (g_pings_sent s) (g_pongs_received s) (g_app s) (trace s).

Definition set_connected (b : bool) (s : session) : session :=
  mkSession (g_from_client s) (g_running s) b (g_test_mode s) (g_test_result s)
    (g_pings_sent s) (g_pongs_received s) (g_app s) (trace s).

Definition set_test_result (z : Z) (s : session) : session :=
  mkSession (g_from_client s) (g_running s) (g_connected s) (g_test_mode s) z
    (g_pings_sent s) (g_pongs_received s) (g_app s) (trace s).

Definition set_pings_sent (z : Z) (s : session) : session :=
  mkSession (g_from_client s) (g_running s) (g_connected s) (g_test_mode s)
    (g_test_result s) z (g_pongs_received s) (g_app s) (trace s).

Definition set_pongs_received (z : Z) (s : session) : session :=
  mkSession (g_from_client s) (g_running s) (g_connected s) (g_test_mode s)
    (g_test_result s) (g_pings_sent s) z (g_app s) (trace s).

Definition emit (e : event) (s : session) : session :=
  mkSession (g_from_client s) (g_running s) (g_connected s) (g_test_mode s)
    (g_test_result s) (g_pings_sent s) (g_pongs_received s) (g_app s)
    (trace s ++ [e]).

(** [x++] on a [std::atomic<int>]: the sum wraps in two's complement. *)
Definition incr_int (z : Z) : Z := (z + 1 + 2 ^ 31) mod 2 ^ 32 - 2 ^ 31.

(** [g_from_client.wait_pop(...)] called by the session thread.  The
    queue is shared with the binary-message handler: [arrivals] are the
    frames the handler pushes before the wait ends. *)
Definition session_wait_pop (arrivals : list WsFrame) (s : session)
  : option WsFrame * session :=
  let '(r, q) := wait_pop (push_all (g_from_client s) arrivals) in
  (r, emit (Popped r) (set_from_client q s)).

Definition PING_COUNT : Z := 3.

(** [std::format("ping-{}", i)] *)
Definition ping_data (i : Z) : string :=
  ("ping-" ++ NilZero.string_of_int (Z.to_int i))%string.

Definition ping_frame (i : Z) : WsFrame :=
  mkFrame true PING (list_byte_of_string (ping_data i)).

(** [WsFrame close_frame{.opcode = WsOpcode::CLOSE, .payload = {0x03, 0xE8}}] *)
Definition close_frame : WsFrame :=
  mkFrame true CLOSE (bytes_of [0x03; 0xE8]).

(** The body of the [for] loop of the test mode at index [i]; the boolean
    is [false] when the body leaves by [break]. *)
Definition test_round (i : Z) (arrivals : list WsFrame) (s : session)
  : session * bool :=
  let s := emit (Sent (encode (ping_frame i))) s in
  let s := set_pings_sent (incr_int (g_pings_sent s)) s in
  let '(response, s) := session_wait_pop arrivals s in
  match response with
  | None => (set_test_result 1 s, false)
  | Some r =>
      if negb (Byte.eqb (opcode r) PONG) then (set_test_result 1 s, false)
      else
        let pong_data := string_of_list_byte (payload r) in
        if negb (String.eqb pong_data (ping_data i)) then
          (set_test_result 1 s, false)
        else
          let s := set_pongs_received (incr_int (g_pongs_received s)) s in
          let s := if i =? PING_COUNT - 1 then set_test_result 0 s else s in
          (s, true)
  end.

(** [for (int i = 0; i < PING_COUNT && g_running && writer.valid(); i++)]:
    [indices] are the values of [i] below [PING_COUNT] still to come, and
    [env] gives, for each test of the loop at which the writer is still
    valid, the frames that arrive during that round; at the end of [env]
    the writer is no longer valid. *)
Fixpoint test_loop (indices : list Z) (env : list (list WsFrame)) (s : session)
  : session :=
  match indices with
  | [] => s
  | i :: indices' =>
      if negb (g_running s) then s else
      match env with
      | [] => s
      | arrivals :: env' =>
          let '(s', continue) := test_round i arrivals s in
          if continue then test_loop indices' env' s' else s'
      end
  end.

(** The body of the [while] loop of the interactive mode. *)
Definition interactive_round (arrivals : list WsFrame) (s : session)
  : session * bool :=
  let '(frame, s) := session_wait_pop arrivals s in
  match frame with
  | Some f =>
      if Byte.eqb (opcode f) TEXT || Byte.eqb (opcode f) BINARY then
        (emit (Sent (encode f)) s, true)
      else if Byte.eqb (opcode f) PONG then
        (set_pongs_received (incr_int (g_pongs_received s)) s, true)
      else if Byte.eqb (opcode f) CLOSE then (s, false)
      else (s, true)
  | None => (s, true)
  end.

(** [while (g_running && writer.valid())], with [env] as in [test_loop]. *)
Fixpoint interactive_loop (env : list (list WsFrame)) (s : session) : session :=
  if negb (g_running s) then s else
  match env with
  | [] => s
  | arrivals :: env' =>
      let '(s', continue) := interactive_round arrivals s in
      if continue then interactive_loop env' s' else s'
  end.

(** [websocket_server_thread(writer)].  The sleep of 100 ms before
    [g_running = false] has no counterpart here. *)
Definition websocket_server_thread (env : list (list WsFrame)) (s : session)
  : session :=
  let s := emit Started s in
  let s := set_connected true s in
  if g_test_mode s then
    let s := test_loop [0; 1; 2] env s in
    let s := emit (Sent (encode close_frame)) s in
    let s := set_running false s in
    let s := emit Finished s in
    if g_app s then emit Quit s else s
  else
    let s := interactive_loop env s in
    let s := emit (Sent (encode close_frame)) s in
    let s := emit Finished s in
    set_connected false s.

(** The globals as their initialisers leave them, in test mode or not. *)
Definition initial_session (test_mode : bool) : session :=
  mkSession new_queue false false test_mode 1 0 0 true [].

(** The handler of [wsock://localhost/connect], up to the start of the
    thread: it raises [g_running], resets the queue and the counters. *)
Definition connect (s : session) : session :=
  let s := set_running true s in
  let s := set_from_client (reset (g_from_client s)) s in
  let s := set_pings_sent 0 s in
  set_pongs_received 0 s.

(** ** Reading a trace *)

(** The answer that lets round [i] of the test mode go on: a PONG frame
    whose payload is the tag of the PING just sent. *)
Definition good_pong (i : Z) (r : option WsFrame) : Prop :=
  exists f, r = Some f /\ opcode f = PONG /\
            payload f = list_byte_of_string (ping_data i).

(** The events of rounds [i], [i + 1], ... answered by [rs]. *)
Fixpoint script_events (i : Z) (rs : list (option WsFrame)) : list event :=
  match rs with
  | [] => []
  | r :: rs' =>
      Sent (encode (ping_frame i)) :: Popped r :: script_events (i + 1) rs'
  end.

Definition is_data (f : WsFrame) : bool :=
  Byte.eqb (opcode f) TEXT || Byte.eqb (opcode f) BINARY.

(** The events of the interactive loop for the answers [rs] of its
    [wait_pop] calls: a TEXT or BINARY frame is sent back encoded, nothing
    else is sent. *)
Definition echo_events (rs : list (option WsFrame)) : list event :=
  flat_map (fun r => Popped r ::
                     match r with
                     | Some f => if is_data f then [Sent (encode f)] else []
                     | None => []
                     end) rs.

(** The number of PONG frames among the answers. *)
Definition pongs (rs : list (option WsFrame)) : nat :=
  List.length (filter (fun f => Byte.eqb (opcode f) PONG) (popped rs)).

(** The opcode [decode] reads from a buffer: the low four bits of byte 0. *)
Definition wire_opcode (bytes : list byte) : option WsOpcode :=
  match bytes with
  | b :: _ => Some (byte.of_Z (Z.land (byte.unsigned b) 0x0F))
  | [] => None
  end.

Definition is_close_sent (e : event) : bool :=
  match e with
  | Sent bytes =>
      match wire_opcode bytes with
      | Some op => Byte.eqb op CLOSE
      | None => false
      end
  | _ => false
  end.

(** How many of the events send a CLOSE frame. *)
Definition closes_sent (evs : list event) : nat :=
  List.length (filter is_close_sent evs).

(** Fields of the globals that a loop body leaves alone. *)
Definition same_flags (s s' : session) : Prop :=
  g_running s' = g_running s /\ g_connected s' = g_connected s /\
  g_test_mode s' = g_test_mode s /\ g_app s' = g_app s.

(** * The codec of the page

    The script of [html_template]: [encodeFrame] and [decodeFrame].  Its
    numbers are JavaScript numbers; the ones that occur here are integers,
    kept in [Z].  A bitwise operator first takes its operands to 32-bit
    signed integers, a shift takes its count modulo 32, and a store into a
    [Uint8Array] keeps the low eight bits. *)

(** [ToInt32] *)
Definition to_int32 (z : Z) : Z := (z + 2 ^ 31) mod 2 ^ 32 - 2 ^ 31.

(** [a | b], [a & b], [a ^ b], [a >> n], [a << n] *)
Definition js_or (a b : Z) : Z := Z.lor (to_int32 a) (to_int32 b).
Definition js_and (a b : Z) : Z := Z.land (to_int32 a) (to_int32 b).
Definition js_xor (a b : Z) : Z := Z.lxor (to_int32 a) (to_int32 b).
Definition js_shr (a n : Z) : Z := Z.shiftr (to_int32 a) (Z.land n 31).
Definition js_shl (a n : Z) : Z :=
  to_int32 (Z.shiftl (to_int32 a) (Z.land n 31)).

(** The four bytes that [crypto.getRandomValues(mask)] leaves in [mask]. *)
Record Mask : Type := mkMask { k0 : byte; k1 : byte; k2 : byte; k3 : byte }.

Definition mask_bytes (m : Mask) : list byte := [k0 m; k1 m; k2 m; k3 m].

(** The loop [for (i = 0; i < len; i++) frame[offset + i] = payloadBytes[i] ^ mask[i % 4]],
    from index [i] on. *)
Fixpoint mask_payload (m : Mask) (i : Z) (payloadBytes : list byte) : list byte :=
  match payloadBytes with
  | [] => []
  | b :: rest =>
      byte.of_Z (js_xor (byte.unsigned b)
                   (nth (Z.to_nat (i mod 4)) (map byte.unsigned (mask_bytes m)) 0))
      :: mask_payload m (i + 1) rest
  end.

(** [encodeFrame(opcode, payload)] on a payload that is a [Uint8Array],
    with [m] the masking key drawn in the call.  The array [frame] is
    allocated with [headerLen + len] cells and each cell is written once,
    from index 0 on: the list is the array after the last write. *)
Definition encodeFrame (opcode : Z) (payloadBytes : list byte) (m : Mask)
  : list byte :=
  let len := size payloadBytes in
  let byte0 := byte.of_Z (js_or 0x80 opcode) in
  let length_field :=
    if len <=? 125 then
      [byte.of_Z (js_or 0x80 len)]
    else if len <=? 65535 then
      [byte.of_Z (js_or 0x80 126);
       byte.of_Z (js_and (js_shr len 8) 0xFF);
       byte.of_Z (js_and len 0xFF)]
    else
      byte.of_Z (js_or 0x80 127) ::
      map (fun i => byte.of_Z (js_and (js_shr len (i * 8)) 0xFF))
          [7; 6; 5; 4; 3; 2; 1; 0]
  in
  byte0 :: length_field ++ mask_bytes m ++ mask_payload m 0 payloadBytes.

(** [data.slice(start, end)] of a typed array: a negative index counts
    from the end, and both ends are clamped to the array. *)
Definition js_slice (data : list byte) (start stop : Z) : list byte :=
  let len := size data in
  let k := if start <? 0 then Z.max (len + start) 0 else Z.min start len in
  let final := if stop <? 0 then Z.max (len + stop) 0 else Z.min stop len in
  firstn (Z.to_nat (Z.max (final - k) 0)) (skipn (Z.to_nat k) data).

(** The object [decodeFrame] returns. *)
Record js_frame : Type := mkJsFrame {
  js_fin : bool;
  js_opcode : Z;
  js_payload : list byte;
  totalLength : Z
}.

(** [data[i]] for an index inside the array. *)
Definition js_get (data : list byte) (i : Z) : Z :=
  byte.unsigned (nth (Z.to_nat i) data Byte.x00).

(** The loop [for (i = 0; i < 8; i++) len = (len << 8) | data[2 + i]]. *)
Fixpoint js_length64 (data : list byte) (idx : list Z) (len : Z) : Z :=
  match idx with
  | [] => len
  | i :: idx' => js_length64 data idx' (js_or (js_shl len 8) (js_get data (2 + i)))
  end.

(** [decodeFrame(data)]; [None] is [null]. *)
Definition decodeFrame (data : list byte) : option js_frame :=
  if size data <? 2 then None else
  let fin := negb (js_and (js_get data 0) 0x80 =? 0) in
  let opcode := js_and (js_get data 0) 0x0F in
  let masked := negb (js_and (js_get data 1) 0x80 =? 0) in
  let len := js_and (js_get data 1) 0x7F in
  let offset := 2 in
  let len_offset :=
    if len =? 126 then
      if size data <? 4 then None
      else Some (js_or (js_shl (js_get data 2) 8) (js_get data 3), 4)
    else if len =? 127 then
      if size data <? 10 then None
      else Some (js_length64 data [0; 1; 2; 3; 4; 5; 6; 7] 0, 10)
    else Some (len, offset) in
  match len_offset with
  | None => None
  | Some (len, offset) =>
      let offset := if masked then offset + 4 else offset in
      if size data <? offset + len then None
      else Some (mkJsFrame fin opcode (js_slice data offset (offset + len))
                   (offset + len))
  end.

(** * The frame loop of the page

    The part of the script that reads the stream: the globals [buffer],
    [connected] and [stats], [sendFrame], [handleFrame], and the loop of
    [connect] that appends each chunk to [buffer] and decodes frames from
    its front.  [stats.sent] is left out: only [sendMessage] changes it. *)

(** [const OPCODE = { TEXT: 0x1, BINARY: 0x2, CLOSE: 0x8, PING: 0x9, PONG: 0xA }] *)
Definition OPCODE_TEXT : Z := 0x1.
Definition OPCODE_BINARY : Z := 0x2.
Definition OPCODE_CLOSE : Z := 0x8.
Definition OPCODE_PING : Z := 0x9.
Definition OPCODE_PONG : Z := 0xA.

Record page : Type := mkPage {
  buffer : list byte;
  connected : bool;
  stats_received : Z;
  stats_pings : Z;
  stats_pongs : Z;
  keys_drawn : nat          (* calls of [crypto.getRandomValues] so far *)
}.

Definition set_buffer (b : list byte) (pg : page) : page :=
  mkPage b (connected pg) (stats_received pg) (stats_pings pg) (stats_pongs pg)
    (keys_drawn pg).

(** [sendFrame(opcode, payload)]: the frame is encoded with the next
    masking key, [keys] giving the key of each draw, and handed to
    [sendBinary]; the message is returned beside the page. *)
Definition sendFrame (keys : nat -> Mask) (opcode : Z) (payloadBytes : list byte)
    (pg : page) : page * list byte :=
  (mkPage (buffer pg) (connected pg) (stats_received pg) (stats_pings pg)
     (stats_pongs pg) (S (keys_drawn pg)),
   encodeFrame opcode payloadBytes (keys (keys_drawn pg))).

(** [handleFrame(frame)]: the page after the call, the messages sent, and
    whether the call returned.  In the CLOSE case [disconnect()] lowers
    [connected], sends its CLOSE frame and then reads [.catch] of what
    [sendFrame] returned, which is [undefined]: the call throws. *)
Definition handleFrame (keys : nat -> Mask) (frame : js_frame) (pg : page)
  : page * list (list byte) * bool :=
  let op := js_opcode frame in
  if (op =? OPCODE_TEXT) || (op =? OPCODE_BINARY) then
    (mkPage (buffer pg) (connected pg) (stats_received pg + 1) (stats_pings pg)
       (stats_pongs pg) (keys_drawn pg), [], true)
  else if op =? OPCODE_PING then
    let pg := mkPage (buffer pg) (connected pg) (stats_received pg)
                (stats_pings pg + 1) (stats_pongs pg) (keys_drawn pg) in
    let '(pg, msg) := sendFrame keys OPCODE_PONG (js_payload frame) pg in
    (mkPage (buffer pg) (connected pg) (stats_received pg) (stats_pings pg)
       (stats_pongs pg + 1) (keys_drawn pg), [msg], true)
  else if op =? OPCODE_PONG then (pg, [], true)
  else if op =? OPCODE_CLOSE then
    let pg := mkPage (buffer pg) false (stats_received pg) (stats_pings pg)
                (stats_pongs pg) (keys_drawn pg) in
    let '(pg, msg) := sendFrame keys OPCODE_CLOSE (bytes_of [0x03; 0xE8]) pg in
    (pg, [msg], false)
  else (pg, [], true).

(** The loop [while (true) { frame = decodeFrame(buffer); if (!frame) break;
    handleFrame(frame); buffer = buffer.slice(frame.totalLength); }].
    A turn that does not shorten [buffer] is followed by the same turn for
    ever, so the loop either ends within [buffer.length + 1] turns or does
    not end: [None] is the run that does not end.  The boolean is [false]
    when [handleFrame] threw. *)
Fixpoint process_frames (fuel : nat) (keys : nat -> Mask) (pg : page)
  : option (page * list (list byte) * bool) :=
  match fuel with
  | O => None
  | S fuel' =>
      match decodeFrame (buffer pg) with
      | None => Some (pg, [], true)
      | Some frame =>
          let '(pg1, out1, returned) := handleFrame keys frame pg in
          if returned then
            let pg2 := set_buffer
                         (js_slice (buffer pg1) (totalLength frame) (size (buffer pg1)))
                         pg1 in
            match process_frames fuel' keys pg2 with
            | Some (pg3, out2, r) => Some (pg3, out1 ++ out2, r)
            | None => None
            end
          else Some (pg1, out1, false)
      end
  end.

(** One turn of the loop of [connect] for a chunk [value] that
    [reader.read()] returned: the chunk is appended to [buffer] and the
    frames are handled.  A throw is caught at the end of [connect], which
    lowers [connected]. *)
Definition on_chunk (keys : nat -> Mask) (value : list byte) (pg : page)
  : option (page * list (list byte)) :=
  let pg := set_buffer (buffer pg ++ value) pg in
  match process_frames (S (List.length (buffer pg))) keys pg with
  | Some (pg', out, true) => Some (pg', out)
  | Some (pg', out, false) =>
      Some (mkPage (buffer pg') false (stats_received pg') (stats_pings pg')
              (stats_pongs pg') (keys_drawn pg'), out)
  | None => None
  end.

(** The chunks of a run, one after the other, while the page is connected;
    the messages sent, in order. *)
Fixpoint on_chunks (keys : nat -> Mask) (chunks : list (list byte)) (pg : page)
  : option (page * list (list byte)) :=
  match chunks with
  | [] => Some (pg, [])
  | value :: chunks' =>
      if negb (connected pg) then Some (pg, []) else
      match on_chunk keys value pg with
      | Some (pg', out) =>
          match on_chunks keys chunks' pg' with
          | Some (pg'', out') => Some (pg'', out ++ out')
          | None => None
          end
      | None => None
      end
  end.

(** The page as [connect] leaves it before the first read. *)
Definition page_connected : page := mkPage [] true 0 0 0 0.

(** The frames that the binary-message handler pushes for a list of
    messages. *)
Definition arrivals_of (msgs : list (list byte)) : list WsFrame :=
  flat_map (fun data => match decode data with
                        | Ok (frame, _) => [frame]
                        | _ => []
                        end) msgs.

(** An encoded frame as [decodeFrame] returns it. *)
Definition js_frame_of (f : WsFrame) : js_frame :=
  mkJsFrame (fin f) (byte.unsigned (opcode f)) (payload f) (size (encode f)).

(** [handleFrame] called on each of the frames in turn. *)
Fixpoint page_handles (keys : nat -> Mask) (fs : list WsFrame) (pg : page)
  : page * list (list byte) :=
  match fs with
  | [] => (pg, [])
  | f :: fs' =>
      let '(pg1, out1, _) := handleFrame keys (js_frame_of f) pg in
      let '(pg2, out2) := page_handles keys fs' pg1 in
      (pg2, out1 ++ out2)
  end.

(** The frames the page can take from the stream without leaving its
    loop: an opcode of four bits other than CLOSE, a payload below
    [2 ^ 31] bytes. *)
Definition stream_frame (f : WsFrame) : Prop :=
  byte.unsigned (opcode f) < 16 /\ size (payload f) < 2 ^ 31 /\ opcode f <> CLOSE.

(** The frames that reach the queue in each round when the page is the
    peer: the bytes of each write are read by the page as one chunk, and
    the messages it sends in return are decoded by the binary-message
    handler before the wait of that round ends. *)
Fixpoint page_replies (keys : nat -> Mask) (writes : list (list byte)) (pg : page)
  : list (list WsFrame) :=
  match writes with
  | [] => []
  | value :: writes' =>
      match on_chunk keys value pg with
      | Some (pg', out) => arrivals_of out :: page_replies keys writes' pg'
      | None => []
      end
  end.

(** The answers of [wait_pop] among the events, and the frames among
    them: what the thread has taken from the queue. *)
Definition answers_of (evs : list event) : list (option WsFrame) :=
  flat_map (fun e => match e with Popped r => [r] | _ => [] end) evs.

Definition consumed (s : session) : list WsFrame := popped (answers_of (trace s)).

(** The frames taken so far followed by the frames still pending. *)
Definition seen (s : session) : list WsFrame :=
  consumed s ++ m_queue (g_from_client s).

(** * Properties of the codec *)

(** ** Bit-level facts *)

Lemma land_0x7F n : 0 <= n < 128 -> Z.land n 0x7F = n.
Proof.
  intros H. change 0x7F with (Z.ones 7).
  rewrite Z.land_ones by lia. apply Z.mod_small; lia.
Qed.

Lemma land_0x80 n : 0 <= n < 128 -> Z.land n 0x80 = 0.
Proof.
  intros H. rewrite <- (land_0x7F n H).
  change 0x7F with (Z.ones 7). change 0x80 with (Z.shiftl (Z.ones 1) 7).
  Z.bitblast.
Qed.

Lemma land_0xFF n : Z.land n 0xFF = n mod 256.
Proof. change 0xFF with (Z.ones 8). rewrite Z.land_ones by lia. reflexivity. Qed.

Lemma lor_shiftl_8 a b : 0 <= b < 256 -> Z.lor (Z.shiftl a 8) b = a * 256 + b.
Proof.
  intros H. rewrite Z.or_to_plus.
  - rewrite Z.shiftl_mul_pow2 by lia. reflexivity.
  - rewrite <- (Z.mod_small b (2 ^ 8)) by lia. rewrite <- Z.land_ones by lia.
    Z.bitblast. rewrite (Z.testbit_neg_r a l) by lia. reflexivity.
Qed.

Lemma be16 n : 0 <= n < 65536 ->
  Z.lor (Z.shiftl (Z.land (Z.shiftr n 8) 0xFF) 8) (Z.land n 0xFF) = n.
Proof.
  intros H. rewrite lor_shiftl_8 by (rewrite land_0xFF; apply Z.mod_pos_bound; lia).
  rewrite !land_0xFF, Z.shiftr_div_pow2 by lia. change (2 ^ 8) with 256.
  rewrite (Z.mod_small (n / 256)).
  - pose proof (Z_div_mod_eq_full n 256). lia.
  - split; [apply Z.div_pos; lia | apply Z.div_lt_upper_bound; lia].
Qed.

Lemma be64_step n j : 0 <= n < 2 ^ 64 -> 0 <= j ->
  Z.lor (wrap64 (Z.shiftl (Z.shiftr n (j + 8)) 8)) (Z.land (Z.shiftr n j) 0xFF)
  = Z.shiftr n j.
Proof.
  intros Hn Hj.
  assert (Hq : Z.shiftr n (j + 8) = Z.shiftr n j / 256).
  { rewrite <- Z.shiftr_shiftr by lia.
    rewrite (Z.shiftr_div_pow2 _ 8) by lia. reflexivity. }
  assert (Hr : 0 <= Z.shiftr n j <= n).
  { rewrite Z.shiftr_div_pow2 by lia. split.
    - apply Z.div_pos; lia.
    - apply Z.div_le_upper_bound; nia. }
  pose proof (Z_div_mod_eq_full (Z.shiftr n j) 256) as Hdm.
  pose proof (Z.mod_pos_bound (Z.shiftr n j) 256 eq_refl) as Hm.
  rewrite Hq, land_0xFF.
  rewrite Z.shiftl_mul_pow2 by lia. change (2 ^ 8) with 256.
  unfold wrap64. rewrite Z.mod_small by lia.
  rewrite <- (Z.shiftl_mul_pow2 _ 8) by lia.
  rewrite lor_shiftl_8 by lia. lia.
Qed.

(** A byte read back as an integer and cast again is the same byte. *)
Lemma unsigned_of_Z_small z : 0 <= z < 256 -> byte.unsigned (byte.of_Z z) = z.
Proof.
  intros H. rewrite byte.unsigned_of_Z. unfold byte.wrap.
  apply Z.mod_small. lia.
Qed.

Lemma unsigned_of_Z_land z :
  byte.unsigned (byte.of_Z (Z.land z 0xFF)) = Z.land z 0xFF.
Proof.
  apply unsigned_of_Z_small. rewrite land_0xFF. apply Z.mod_pos_bound. lia.
Qed.

(** Byte 0 of an encoded frame gives back the [fin] flag and, for an
    opcode of four bits, the opcode. *)
Lemma byte0_fin (b : bool) (op : WsOpcode) :
  byte.unsigned op < 16 ->
  negb (Z.land (byte.unsigned (byte.of_Z
          (Z.lor (if b then 0x80 else 0x00) (byte.unsigned op)))) 0x80 =? 0) = b.
Proof.
  destruct op; intros H; try (exfalso; vm_compute in H; discriminate H);
    destruct b; reflexivity.
Qed.

Lemma byte0_opcode (b : bool) (op : WsOpcode) :
  byte.unsigned op < 16 ->
  byte.of_Z (Z.land (byte.unsigned (byte.of_Z
          (Z.lor (if b then 0x80 else 0x00) (byte.unsigned op)))) 0x0F) = op.
Proof.
  destruct op; intros H; try (exfalso; vm_compute in H; discriminate H);
    destruct b; reflexivity.
Qed.

(** The zero mask leaves a byte as it is. *)
Lemma unmask_zero (b : byte) (i : Z) :
  byte.of_Z (Z.lxor (byte.unsigned b) (nth (Z.to_nat (i mod 4)) [0; 0; 0; 0] 0)) = b.
Proof.
  assert (E : nth (Z.to_nat (i mod 4)) [0; 0; 0; 0] 0 = 0).
  { generalize (Z.to_nat (i mod 4)). intros n.
    do 5 (destruct n as [|n]; [reflexivity|]). reflexivity. }
  rewrite E, Z.lxor_0_r. apply byte.of_Z_unsigned.
Qed.

(** ** Sizes and reads *)

Lemma size_nonneg l : 0 <= size l.
Proof. unfold size. lia. Qed.

Lemma size_app l r : size (l ++ r) = size l + size r.
Proof. unfold size. rewrite length_app. lia. Qed.

Lemma size_cons b l : size (b :: l) = 1 + size l.
Proof. unfold size. simpl List.length. lia. Qed.

Lemma read_Ok_app d r i v : read d i = Ok v -> read (d ++ r) i = Ok v.
Proof.
  unfold read. destruct (nth_error d (Z.to_nat i)) eqn:E; [|discriminate].
  intros H. rewrite nth_error_app1 by (apply nth_error_Some; congruence).
  rewrite E. exact H.
Qed.

Lemma read_Ok_prefix p s i v :
  read (p ++ s) i = Ok v -> 0 <= i < size p -> read p i = Ok v.
Proof.
  unfold read, size. intros H Hi.
  rewrite nth_error_app1 in H by lia. exact H.
Qed.

Lemma read_Ok_lt d i v : read d i = Ok v -> 0 <= i -> i < size d.
Proof.
  unfold read, size. intros H Hi.
  destruct (nth_error d (Z.to_nat i)) eqn:E; [|discriminate].
  assert (Z.to_nat i < List.length d)%nat by (apply nth_error_Some; congruence).
  lia.
Qed.

Lemma read_range d i v : read d i = Ok v -> 0 <= v < 256.
Proof.
  unfold read. destruct (nth_error d (Z.to_nat i)); [|discriminate].
  intros H. injection H as <-. apply byte.unsigned_range.
Qed.

(** ** The payload loop *)

Lemma copy_payload_zero_mask p r i :
  copy_payload [0; 0; 0; 0] (p ++ r) i (i + size p) = Ok p.
Proof.
  revert i. induction p as [|b p IH]; intros i.
  - replace (i + size []) with i by (unfold size; simpl; lia).
    destruct r; simpl; rewrite Z.leb_refl; reflexivity.
  - simpl app. cbn [copy_payload].
    pose proof (size_nonneg p) as Hp. rewrite size_cons.
    destruct (i + (1 + size p) <=? i) eqn:E; [apply Z.leb_le in E; lia|].
    replace (i + (1 + size p)) with ((i + 1) + size p) by lia.
    rewrite IH. cbn [bind]. rewrite unmask_zero. reflexivity.
Qed.

Lemma copy_payload_zero_all p : copy_payload [0; 0; 0; 0] p 0 (size p) = Ok p.
Proof.
  pose proof (copy_payload_zero_mask p [] 0) as H.
  rewrite app_nil_r in H. exact H.
Qed.

Lemma copy_payload_app m rest r i n p :
  copy_payload m rest i n = Ok p -> copy_payload m (rest ++ r) i n = Ok p.
Proof.
  revert i p. induction rest as [|b rest IH]; intros i p H.
  - cbn [copy_payload] in H. destruct (n <=? i) eqn:E; [|discriminate].
    simpl app. destruct r; cbn [copy_payload]; rewrite E; exact H.
  - simpl app. cbn [copy_payload] in *. destruct (n <=? i); [exact H|].
    destruct (copy_payload m rest (i + 1) n) eqn:E; try discriminate.
    rewrite (IH _ _ E). exact H.
Qed.

(** A copy that succeeds found all its bytes in the buffer. *)
Lemma copy_payload_Ok_size m rest i n p :
  copy_payload m rest i n = Ok p -> i <= n -> size p = n - i /\ n - i <= size rest.
Proof.
  revert i p. induction rest as [|b rest IH]; intros i p H Hi.
  - cbn [copy_payload] in H. destruct (n <=? i) eqn:E; [|discriminate].
    apply Z.leb_le in E. injection H as <-. unfold size; simpl. lia.
  - cbn [copy_payload] in H. destruct (n <=? i) eqn:E.
    + apply Z.leb_le in E. injection H as <-.
      pose proof (size_nonneg (b :: rest)). unfold size at 1; simpl. lia.
    + apply Z.leb_gt in E.
      destruct (copy_payload m rest (i + 1) n) eqn:E'; try discriminate.
      cbn [bind] in H. injection H as <-.
      destruct (IH _ _ E') as [H1 H2]; [lia|].
      rewrite !size_cons. lia.
Qed.

(** ** Round trip *)

Lemma wrap64_small z : 0 <= z < 2 ^ 64 -> wrap64 z = z.
Proof. intros H. unfold wrap64. apply Z.mod_small. exact H. Qed.

(** Reads at a literal index of a buffer whose first cells are known. *)
Ltac read_cons :=
  repeat match goal with
  | |- context [read ?d ?i] =>
      let n := eval vm_compute in (Z.to_nat i) in
      let e := eval cbn [nth_error] in (nth_error d n) in
      match e with
      | Some ?b => change (read d i) with (Ok (byte.unsigned b))
      end
  end.

Ltac guard_false :=
  match goal with
  | |- context [if ?a <? ?b then _ else _] =>
      let G := fresh "G" in
      destruct (a <? b) eqn:G; [apply Z.ltb_lt in G; lia | clear G]
  end.

(** The eight length bytes [encode] writes are read back as the length. *)
Lemma read_length64_encode n b0 b1 rest : 0 <= n < 2 ^ 64 ->
  read_length64
    (b0 :: b1 :: map (fun i => byte.of_Z (Z.land (Z.shiftr n (i * 8)) 0xFF))
                     [7; 6; 5; 4; 3; 2; 1; 0] ++ rest)
    2 [0; 1; 2; 3; 4; 5; 6; 7] 0 = Ok n.
Proof.
  intros Hn. cbn [map app read_length64]. read_cons. cbn [bind].
  rewrite !unsigned_of_Z_land.
  assert (H64 : Z.shiftr n (56 + 8) = 0).
  { apply Z.shiftr_eq_0; [lia|].
    destruct (Z.eq_dec n 0) as [->|]; [reflexivity|].
    apply Z.log2_lt_pow2; lia. }
  rewrite <- H64 at 1.
  change (7 * 8) with 56. rewrite be64_step by lia.
  change 56 with (48 + 8) at 1. change (6 * 8) with 48. rewrite be64_step by lia.
  change 48 with (40 + 8) at 1. change (5 * 8) with 40. rewrite be64_step by lia.
  change 40 with (32 + 8) at 1. change (4 * 8) with 32. rewrite be64_step by lia.
  change 32 with (24 + 8) at 1. change (3 * 8) with 24. rewrite be64_step by lia.
  change 24 with (16 + 8) at 1. change (2 * 8) with 16. rewrite be64_step by lia.
  change 16 with (8 + 8) at 1. change (1 * 8) with 8. rewrite be64_step by lia.
  change 8 with (0 + 8) at 1. change (0 * 8) with 0. rewrite be64_step by lia.
  rewrite Z.shiftr_0_r. reflexivity.
Qed.

(** A payload no longer than the buffer held is within [max_size]. *)
Lemma resize_Ok held n : n <= held -> resize held n = Ok tt.
Proof.
  intros H. unfold resize, max_size.
  destruct (Z.max (2 ^ 63 - 1) held <? n) eqn:E; [|reflexivity].
  apply Z.ltb_lt in E. lia.
Qed.

Lemma decode_encode_ok (f : WsFrame) :
  byte.unsigned (opcode f) < 16 ->
  size (encode f) < 2 ^ 64 ->
  decode (encode f) = Ok (f, size (encode f)).
Proof.
  intros Hop Hsz. destruct f as [b op p]. cbn [fin opcode payload] in *.
  pose proof (size_nonneg p) as Hp.
  unfold encode in *. cbn [fin opcode payload] in *.
  set (byte0 := byte.of_Z (Z.lor (if b then 0x80 else 0x00) (byte.unsigned op))) in *.
  destruct (size p <=? 125) eqn:E1; [|destruct (size p <=? 65535) eqn:E2].
  - (* 7-bit length *)
    apply Z.leb_le in E1.
    cbn [app] in *. rewrite !size_cons in Hsz.
    unfold decode, parse_header. rewrite !size_cons.
    guard_false. read_cons. cbn [bind].
    rewrite unsigned_of_Z_small by lia.
    rewrite land_0x80, land_0x7F by lia.
    destruct (size p =? 126) eqn:G1; [apply Z.eqb_eq in G1; lia|].
    destruct (size p =? 127) eqn:G2; [apply Z.eqb_eq in G2; lia|].
    cbn [bind negb Z.eqb h_offset h_length h_mask h_fin h_opcode].
    rewrite wrap64_small by lia. guard_false.
    rewrite resize_Ok by lia. cbn [bind].
    change (Z.to_nat 2) with 2%nat. cbn [skipn].
    rewrite copy_payload_zero_all. cbn [bind].
    subst byte0. rewrite byte0_fin, byte0_opcode by assumption.
    do 2 f_equal; lia.
  - (* 16-bit length *)
    apply Z.leb_gt in E1. apply Z.leb_le in E2.
    cbn [app] in *. rewrite !size_cons in Hsz.
    unfold decode, parse_header. rewrite !size_cons.
    guard_false. read_cons. cbn [bind].
    rewrite (unsigned_of_Z_small 126) by lia.
    change (Z.land 126 0x7F =? 126) with true.
    change (Z.land 126 0x80 =? 0) with true.
    cbv iota. guard_false. cbn [bind].
    rewrite !unsigned_of_Z_land, be16 by lia.
    cbn [bind negb h_offset h_length h_mask h_fin h_opcode].
    rewrite wrap64_small by lia. guard_false.
    rewrite resize_Ok by lia. cbn [bind].
    change (Z.to_nat (2 + 2)) with 4%nat. cbn [skipn].
    rewrite copy_payload_zero_all. cbn [bind].
    subst byte0. rewrite byte0_fin, byte0_opcode by assumption.
    do 2 f_equal; lia.
  - (* 64-bit length *)
    apply Z.leb_gt in E1. apply Z.leb_gt in E2.
    cbn [app map] in *. rewrite !size_cons in Hsz.
    unfold decode, parse_header. rewrite !size_cons.
    guard_false. read_cons. cbn [bind].
    rewrite (unsigned_of_Z_small 127) by lia.
    change (Z.land 127 0x7F =? 126) with false.
    change (Z.land 127 0x7F =? 127) with true.
    change (Z.land 127 0x80 =? 0) with true.
    cbv iota. guard_false.
    assert (Hn : 0 <= size p < 2 ^ 64) by lia.
    pose proof (read_length64_encode _ byte0 (byte.of_Z 127) p Hn) as HL.
    cbn [map app] in HL. rewrite HL. clear HL.
    cbn [bind negb h_offset h_length h_mask h_fin h_opcode].
    rewrite wrap64_small by lia. guard_false.
    rewrite resize_Ok by lia. cbn [bind].
    change (Z.to_nat (2 + 8)) with 10%nat. cbn [skipn].
    rewrite copy_payload_zero_all. cbn [bind].
    subst byte0. rewrite byte0_fin, byte0_opcode by assumption.
    do 2 f_equal; lia.
Qed.

(** ** Buffers that extend or cut a frame *)

Lemma read_length64_app d r off idx acc v :
  read_length64 d off idx acc = Ok v -> read_length64 (d ++ r) off idx acc = Ok v.
Proof.
  revert acc. induction idx as [|i idx IH]; intros acc H; cbn [read_length64] in *.
  - exact H.
  - destruct (read d (off + i)) eqn:R; try discriminate H.
    rewrite (read_Ok_app _ r _ _ R). cbn [bind] in *. apply IH. exact H.
Qed.

Lemma read_length64_prefix p s off idx acc v :
  read_length64 (p ++ s) off idx acc = Ok v ->
  Forall (fun i => 0 <= off + i < size p) idx ->
  read_length64 p off idx acc = Ok v.
Proof.
  revert acc. induction idx as [|i idx IH]; intros acc H Hi; cbn [read_length64] in *.
  - exact H.
  - inversion Hi as [|? ? Hi1 Hi2]; subst.
    destruct (read (p ++ s) (off + i)) eqn:R; try discriminate H.
    rewrite (read_Ok_prefix _ _ _ _ R Hi1). cbn [bind] in *. apply IH; assumption.
Qed.

(** Steps through a successful run of [parse_header] in hypothesis [H]:
    every test on the way was passed and every read returned a byte. *)
Ltac header_path H :=
  repeat first
    [ match type of H with
      | context [if ?a <? ?b then _ else _] =>
          let G := fresh "G" in
          destruct (a <? b) eqn:G;
          [discriminate H | apply Z.ltb_ge in G]
      end
    | match type of H with
      | context [read ?d ?i] =>
          let R := fresh "R" in
          destruct (read d i) eqn:R; [ | discriminate H | discriminate H | discriminate H ];
          cbn [bind] in H
      end
    | match type of H with
      | context [read_length64 ?d ?o ?l ?a] =>
          let R := fresh "R" in
          destruct (read_length64 d o l a) eqn:R; [ | discriminate H | discriminate H | discriminate H ];
          cbn [bind] in H
      end
    | match type of H with
      | context [if ?c then _ else _] =>
          let C := fresh "C" in
          destruct c eqn:C; cbn [bind negb] in H
      end ].

Ltac header_replay ext extl :=
  repeat match goal with
  | R : read _ _ = Ok _ |- _ => rewrite (ext _ _ R) by lia
  | R : read_length64 _ _ _ _ = Ok _ |- _ => rewrite (extl _ _ _ _ R) by (repeat constructor; lia)
  | C : ?c = true |- context [?c] => rewrite C
  | C : ?c = false |- context [?c] => rewrite C
  | |- _ => progress cbn [bind negb]
  | |- _ => guard_false
  end.

Lemma parse_header_app d r h :
  parse_header d = Ok h -> parse_header (d ++ r) = Ok h.
Proof.
  unfold parse_header. rewrite size_app. pose proof (size_nonneg r) as Hr.
  intros H. header_path H;
    header_replay (read_Ok_app d r) (read_length64_app d r); exact H.
Qed.

(** The header's offset lies within the buffer it was parsed from. *)
Lemma parse_header_offset d h :
  parse_header d = Ok h -> 2 <= h_offset h <= size d.
Proof.
  unfold parse_header. intros H.
  header_path H; injection H as <-; cbn [h_offset]; lia.
Qed.

(** A prefix that still holds the whole header parses to the same header. *)
Lemma parse_header_prefix_ge p s h :
  parse_header (p ++ s) = Ok h -> h_offset h <= size p ->
  parse_header p = Ok h.
Proof.
  unfold parse_header. rewrite size_app. pose proof (size_nonneg s) as Hs.
  intros H. header_path H; intros Ho;
    pose proof H as H'; injection H' as <-; cbn [h_offset] in Ho;
    header_replay (read_Ok_prefix p s) (read_length64_prefix p s);
    exact H.
Qed.

(** A prefix that stops inside the header is answered [std::nullopt]: the
    test that guards the first missing byte returns, and no read is out of
    bounds. *)
Lemma parse_header_prefix_lt p s h :
  parse_header (p ++ s) = Ok h -> size p < h_offset h ->
  parse_header p = Nullopt.
Proof.
  unfold parse_header. rewrite size_app.
  pose proof (size_nonneg s) as Hs. pose proof (size_nonneg p) as Hp.
  intros H. header_path H; intros Ho;
    injection H as <-; cbn [h_offset] in Ho;
    repeat match goal with
    | R : read _ _ = Ok _ |- _ => rewrite (read_Ok_prefix p s _ _ R) by lia
    | R : read_length64 _ _ _ _ = Ok _ |- _ =>
        rewrite (read_length64_prefix p s _ _ _ _ R) by (repeat constructor; lia)
    | C : ?c = true |- context [?c] => rewrite C
    | C : ?c = false |- context [?c] => rewrite C
    | |- _ => progress cbn [bind negb]
    | |- context [if ?a <? ?b then _ else _] =>
        let G := fresh "G" in
        destruct (a <? b) eqn:G; [ | apply Z.ltb_ge in G]
    end;
    first [reflexivity | exfalso; lia].
Qed.

Lemma skipn_app_l {A} (n : nat) (l r : list A) :
  (n <= List.length l)%nat -> skipn n (l ++ r) = skipn n l ++ r.
Proof.
  intros H. rewrite skipn_app.
  replace (n - List.length l)%nat with 0%nat by lia. reflexivity.
Qed.

Lemma size_skipn_le k (d : list byte) : size (skipn k d) <= size d.
Proof. unfold size. rewrite length_skipn. lia. Qed.

Lemma copy_payload_Ok_le m rest n p :
  copy_payload m rest 0 n = Ok p -> n <= size rest.
Proof.
  intros H. pose proof (size_nonneg rest) as Hr.
  destruct (Z_le_gt_dec 0 n) as [Hn|Hn]; [|lia].
  destruct (copy_payload_Ok_size _ _ _ _ _ H Hn) as [_ Hl]. lia.
Qed.

(** The stages of a call of [decode] that returns a frame. *)
Lemma decode_Ok_steps d f n :
  decode d = Ok (f, n) ->
  exists h p,
    parse_header d = Ok h /\
    (size d <? wrap64 (h_offset h + h_length h)) = false /\
    resize (size d) (h_length h) = Ok tt /\
    copy_payload (h_mask h) (skipn (Z.to_nat (h_offset h)) d) 0 (h_length h) = Ok p /\
    f = mkFrame (h_fin h) (h_opcode h) p /\
    n = wrap64 (h_offset h + h_length h).
Proof.
  unfold decode. intros H.
  destruct (parse_header d) as [h| | |] eqn:Hh; try discriminate H.
  cbn [bind] in H.
  destruct (size d <? wrap64 (h_offset h + h_length h)) eqn:G; [discriminate H|].
  destruct (resize (size d) (h_length h)) as [[]| | |] eqn:Hz; try discriminate H.
  cbn [bind] in H.
  destruct (copy_payload (h_mask h) (skipn (Z.to_nat (h_offset h)) d) 0 (h_length h))
    as [p| | |] eqn:Hc; try discriminate H.
  cbn [bind] in H. injection H as <- <-.
  exists h, p. repeat split; assumption.
Qed.

(** The stages put together; the resize is within the limit because the
    copy found all its bytes in the buffer. *)
Lemma decode_steps_Ok d h p :
  parse_header d = Ok h ->
  (size d <? wrap64 (h_offset h + h_length h)) = false ->
  copy_payload (h_mask h) (skipn (Z.to_nat (h_offset h)) d) 0 (h_length h) = Ok p ->
  decode d = Ok (mkFrame (h_fin h) (h_opcode h) p, wrap64 (h_offset h + h_length h)).
Proof.
  intros Hh G Hc. unfold decode. rewrite Hh. cbn [bind]. rewrite G.
  rewrite resize_Ok.
  - cbn [bind]. rewrite Hc. reflexivity.
  - pose proof (copy_payload_Ok_le _ _ _ _ Hc).
    pose proof (size_skipn_le (Z.to_nat (h_offset h)) d). lia.
Qed.

(** Bytes after a frame do not change how the frame is decoded. *)
Lemma decode_app d r f n :
  decode d = Ok (f, n) -> decode (d ++ r) = Ok (f, n).
Proof.
  intros H.
  destruct (decode_Ok_steps d f n H) as (h & p & Hh & G & _ & Hc & -> & ->).
  pose proof (parse_header_offset _ _ Hh) as Ho.
  pose proof (size_nonneg r) as Hr.
  apply Z.ltb_ge in G.
  apply decode_steps_Ok.
  - exact (parse_header_app _ r _ Hh).
  - apply Z.ltb_ge. rewrite size_app. lia.
  - rewrite skipn_app_l by (unfold size in Ho; lia).
    exact (copy_payload_app _ _ r _ _ _ Hc).
Qed.

(** A buffer that is one whole frame, cut anywhere before its end, is
    answered [std::nullopt]. *)
Lemma decode_strict_prefix p s f :
  decode (p ++ s) = Ok (f, size (p ++ s)) -> s <> [] ->
  decode p = Nullopt.
Proof.
  intros H Hs.
  destruct (decode_Ok_steps _ _ _ H) as (h & q & Hh & _ & _ & _ & _ & Hn).
  assert (Hlt : size p < size (p ++ s)).
  { rewrite size_app. destruct s; [contradiction|]. rewrite size_cons.
    pose proof (size_nonneg s). lia. }
  unfold decode.
  destruct (Z_lt_le_dec (size p) (h_offset h)) as [Ho|Ho].
  - rewrite (parse_header_prefix_lt _ _ _ Hh Ho). reflexivity.
  - rewrite (parse_header_prefix_ge _ _ _ Hh Ho). cbn [bind].
    rewrite <- Hn. apply Z.ltb_lt in Hlt. rewrite Hlt. reflexivity.
Qed.

(** When [offset + length] does not leave 64 bits, the test of line 132
    does what its comment says: a declared length larger than what is left
    of the buffer is answered [std::nullopt] before the payload stage. *)
Lemma decode_insufficient_nowrap d h :
  parse_header d = Ok h ->
  0 <= h_offset h + h_length h < 2 ^ 64 ->
  size d - h_offset h < h_length h ->
  decode d = Nullopt.
Proof.
  intros Hh Hw Hl. unfold decode. rewrite Hh. cbn [bind].
  rewrite wrap64_small by exact Hw.
  destruct (size d <? h_offset h + h_length h) eqn:G; [reflexivity|].
  apply Z.ltb_ge in G. lia.
Qed.

(** The three encodings of the length: a header of 2, 4 or 10 bytes. *)
Lemma encode_size f :
  size (encode f)
  = size (payload f)
    + (if size (payload f) <=? 125 then 2
       else if size (payload f) <=? 65535 then 4 else 10).
Proof.
  unfold encode.
  destruct (size (payload f) <=? 125); [|destruct (size (payload f) <=? 65535)];
    cbn [app map]; rewrite !size_cons; lia.
Qed.

(** A masked frame as the page sends it: the payload is unmasked with the
    key that follows the length. *)
Example decode_masked_hello :
  decode (bytes_of [0x81; 0x85; 0x37; 0xFA; 0x21; 0x3D;
                    0x7F; 0x9F; 0x4D; 0x51; 0x58])
  = Ok (mkFrame true TEXT (list_byte_of_string "Hello"), 11).
Proof. vm_compute. reflexivity. Qed.

(** ** The claims on the codec *)

(** C1.  Round trip: for every frame whose opcode fits in four bits and
    whose encoding fits in a [std::size_t], decoding the bytes produced by
    [encode] succeeds with a frame that has the original [fin] flag, the
    original opcode and the original payload, and the number of consumed
    bytes is the length of the encoded buffer. *)
Theorem decode_encode_round_trip (f : WsFrame) :
  byte.unsigned (opcode f) < 16 ->
  size (encode f) < 2 ^ 64 ->
  exists g consumed,
    decode (encode f) = Ok (g, consumed) /\
    fin g = fin f /\ opcode g = opcode f /\ payload g = payload f /\
    consumed = size (encode f).
Proof.
  intros Hop Hsz. exists f, (size (encode f)).
  rewrite (decode_encode_ok f Hop Hsz). repeat split.
Qed.

Lemma decode_encode_round_trip_witness :
  let f := mkFrame false (byte.of_Z 0xB) (bytes_of [0x68; 0x65; 0x6C; 0x6C; 0x6F]) in
  byte.unsigned (opcode f) < 16 /\ size (encode f) < 2 ^ 64 /\
  exists g consumed,
    decode (encode f) = Ok (g, consumed) /\
    fin g = fin f /\ opcode g = opcode f /\ payload g = payload f /\
    consumed = size (encode f).
Proof.
  intros f.
  assert (H1 : byte.unsigned (opcode f) < 16) by (vm_compute; reflexivity).
  assert (H2 : size (encode f) < 2 ^ 64) by (vm_compute; reflexivity).
  exact (conj H1 (conj H2 (decode_encode_round_trip f H1 H2))).
Defined.

(** C4.  Partial delivery: every strict prefix of an encoded frame is
    answered [std::nullopt], the insufficient-data result; it is neither an
    error nor a frame with a shortened payload.  The same holds for every
    buffer that [decode] takes as one whole frame, a masked one included. *)
Theorem decode_partial_delivery :
  (forall (f : WsFrame) (k : nat),
     byte.unsigned (opcode f) < 16 ->
     size (encode f) < 2 ^ 64 ->
     (k < List.length (encode f))%nat ->
     decode (firstn k (encode f)) = Nullopt) /\
  (forall (full : list byte) (g : WsFrame) (k : nat),
     decode full = Ok (g, size full) ->
     (k < List.length full)%nat ->
     decode (firstn k full) = Nullopt).
Proof.
  assert (G : forall (full : list byte) (g : WsFrame) (k : nat),
            decode full = Ok (g, size full) ->
            (k < List.length full)%nat ->
            decode (firstn k full) = Nullopt).
  { intros full g k Hd Hk.
    apply (decode_strict_prefix _ (skipn k full) g).
    - rewrite firstn_skipn. exact Hd.
    - intros E. apply (f_equal (@List.length byte)) in E.
      rewrite length_skipn in E. cbn [List.length] in E. lia. }
  split; [|exact G].
  intros f k Hop Hsz Hk. apply (G _ f); [|exact Hk].
  apply decode_encode_ok; assumption.
Qed.

Lemma decode_partial_delivery_witness :
  let f := mkFrame true TEXT (bytes_of [0x68; 0x65; 0x6C; 0x6C; 0x6F]) in
  byte.unsigned (opcode f) < 16 /\ size (encode f) < 2 ^ 64 /\
  (6 < List.length (encode f))%nat /\
  decode (firstn 6 (encode f)) = Nullopt.
Proof.
  intros f.
  assert (H1 : byte.unsigned (opcode f) < 16) by (vm_compute; reflexivity).
  assert (H2 : size (encode f) < 2 ^ 64) by (vm_compute; reflexivity).
  assert (H3 : (6 < List.length (encode f))%nat) by (vm_compute; lia).
  exact (conj H1 (conj H2 (conj H3
           (proj1 decode_partial_delivery f 6%nat H1 H2 H3)))).
Defined.

(** C8.  Multi-frame packing: decoding the concatenation of two encoded
    frames gives the first frame and a consumed count; decoding what is
    left after that many bytes gives the second frame; the two counts add
    up to the length of the concatenation.  The same holds for every two
    buffers that [decode] takes as one whole frame each. *)
Theorem decode_two_frames :
  (forall f1 f2 : WsFrame,
     byte.unsigned (opcode f1) < 16 ->
     byte.unsigned (opcode f2) < 16 ->
     size (encode f1 ++ encode f2) < 2 ^ 64 ->
     exists n1 n2,
       decode (encode f1 ++ encode f2) = Ok (f1, n1) /\
       decode (skipn (Z.to_nat n1) (encode f1 ++ encode f2)) = Ok (f2, n2) /\
       n1 + n2 = size (encode f1 ++ encode f2)) /\
  (forall (d1 d2 : list byte) (g1 g2 : WsFrame),
     decode d1 = Ok (g1, size d1) ->
     decode d2 = Ok (g2, size d2) ->
     exists n1 n2,
       decode (d1 ++ d2) = Ok (g1, n1) /\
       decode (skipn (Z.to_nat n1) (d1 ++ d2)) = Ok (g2, n2) /\
       n1 + n2 = size (d1 ++ d2)).
Proof.
  assert (G : forall (d1 d2 : list byte) (g1 g2 : WsFrame),
            decode d1 = Ok (g1, size d1) ->
            decode d2 = Ok (g2, size d2) ->
            exists n1 n2,
              decode (d1 ++ d2) = Ok (g1, n1) /\
              decode (skipn (Z.to_nat n1) (d1 ++ d2)) = Ok (g2, n2) /\
              n1 + n2 = size (d1 ++ d2)).
  { intros d1 d2 g1 g2 H1 H2. exists (size d1), (size d2). split; [|split].
    - apply decode_app. exact H1.
    - unfold size at 1. rewrite Nat2Z.id.
      rewrite skipn_app_l by lia. rewrite skipn_all. cbn [app]. exact H2.
    - rewrite size_app. reflexivity. }
  split; [|exact G].
  intros f1 f2 H1 H2 Hsz. rewrite size_app in Hsz.
  pose proof (size_nonneg (encode f1)). pose proof (size_nonneg (encode f2)).
  apply G; apply decode_encode_ok; first [assumption | lia].
Qed.

Lemma decode_two_frames_witness :
  let f1 := mkFrame true PONG (bytes_of [0x70; 0x69; 0x6E; 0x67; 0x2D; 0x30]) in
  let f2 := mkFrame true TEXT (bytes_of [0x68; 0x69]) in
  byte.unsigned (opcode f1) < 16 /\ byte.unsigned (opcode f2) < 16 /\
  size (encode f1 ++ encode f2) < 2 ^ 64 /\
  exists n1 n2,
    decode (encode f1 ++ encode f2) = Ok (f1, n1) /\
    decode (skipn (Z.to_nat n1) (encode f1 ++ encode f2)) = Ok (f2, n2) /\
    n1 + n2 = size (encode f1 ++ encode f2).
Proof.
  intros f1 f2.
  assert (H1 : byte.unsigned (opcode f1) < 16) by (vm_compute; reflexivity).
  assert (H2 : byte.unsigned (opcode f2) < 16) by (vm_compute; reflexivity).
  assert (H3 : size (encode f1 ++ encode f2) < 2 ^ 64) by (vm_compute; reflexivity).
  exact (conj H1 (conj H2 (conj H3 (proj1 decode_two_frames f1 f2 H1 H2 H3)))).
Defined.

(** C2.  A buffer of ten bytes whose header declares a payload of
    [2 ^ 64 - 1] bytes: nothing is left after the header, yet
    [offset + length] wraps to 9, the test [size < offset + length] does
    not return, and [decode] goes on to the payload stage, where it asks
    [resize] for the declared length: the call ends in
    [std::length_error], not in [std::nullopt]. *)
Theorem decode_hostile_length :
  parse_header hostile_length
    = Ok (mkHeader true TEXT [0; 0; 0; 0] (2 ^ 64 - 1) 10) /\
  size hostile_length - 10 < 2 ^ 64 - 1 /\
  wrap64 (10 + (2 ^ 64 - 1)) = 9 /\
  (size hostile_length <? wrap64 (10 + (2 ^ 64 - 1))) = false /\
  resize (size hostile_length) (2 ^ 64 - 1) = Throw /\
  decode hostile_length = Throw /\
  decode hostile_length <> Nullopt.
Proof.
  assert (Hd : decode hostile_length = Throw) by (vm_compute; reflexivity).
  split; [vm_compute; reflexivity|].
  split; [vm_compute; reflexivity|].
  split; [vm_compute; reflexivity|].
  split; [vm_compute; reflexivity|].
  split; [vm_compute; reflexivity|].
  split; [exact Hd|]. rewrite Hd. discriminate.
Qed.

(** * Properties of the frame queue *)

Lemma wait_pop_cons f l c :
  wait_pop (mkQueue (f :: l) c) = (Some f, mkQueue l c).
Proof. reflexivity. Qed.

Lemma wait_pop_nil c : wait_pop (mkQueue [] c) = (None, mkQueue [] c).
Proof. destruct c; reflexivity. Qed.

(** A call of [wait_pop] takes the front frame, or nothing from an empty
    queue; it never takes more than one. *)
Lemma wait_pop_at_most_one q :
  match wait_pop q with
  | (Some f, q') => m_queue q = f :: m_queue q' /\ m_closed q' = m_closed q
  | (None, q') => q' = q /\ m_queue q = []
  end.
Proof.
  destruct q as [[|f l] c].
  - rewrite wait_pop_nil. split; reflexivity.
  - rewrite wait_pop_cons. split; reflexivity.
Qed.

Lemma push_all_queue q fs :
  push_all q fs = mkQueue (m_queue q ++ fs) (m_closed q).
Proof.
  unfold push_all. revert q. induction fs as [|f fs IH]; intros q; cbn [fold_left].
  - rewrite app_nil_r. destruct q; reflexivity.
  - rewrite IH. unfold push; cbn [m_queue m_closed].
    rewrite <- app_assoc. reflexivity.
Qed.

(** Whatever the order of the calls, the frames handed out so far followed
    by the frames still pending are the frames that were pending at first
    followed by the frames pushed, in the order of the pushes. *)
Lemma run_ops_fifo ops : forall q,
  popped (fst (run_ops q ops)) ++ m_queue (snd (run_ops q ops))
  = m_queue q ++ pushed ops.
Proof.
  induction ops as [|o ops IH]; intros q.
  - cbn. rewrite app_nil_r. reflexivity.
  - destruct o as [f| |]; cbn [run_ops].
    + rewrite IH. unfold push, pushed; cbn [m_queue flat_map app].
      rewrite <- app_assoc. reflexivity.
    + rewrite IH. reflexivity.
    + pose proof (wait_pop_at_most_one q) as Hw.
      destruct (wait_pop q) as [r q1].
      specialize (IH q1). destruct (run_ops q1 ops) as [rs q2].
      cbn [fst snd] in *. unfold pushed in *; cbn [flat_map app].
      destruct r as [f|].
      * destruct Hw as [Hw _]. rewrite Hw. unfold popped in *; cbn [flat_map app].
        rewrite IH. reflexivity.
      * destruct Hw as [-> _]. unfold popped in *; cbn [flat_map app]. exact IH.
Qed.

(** As many calls of [wait_pop] as there are pending frames return the
    frames from the front on and leave the queue empty. *)
Lemma pop_n_drains l c :
  pop_n (List.length l) (mkQueue l c) = (map Some l, mkQueue [] c).
Proof.
  unfold pop_n. induction l as [|f l IH]; cbn [List.length repeat run_ops map].
  - reflexivity.
  - rewrite wait_pop_cons, IH. reflexivity.
Qed.

(** ** The claims on the queue *)

(** C5.  FIFO order: frames pushed in some order are returned by successive
    calls of [wait_pop] in that order, after the frames that were pending
    before them; this holds for every interleaving of pushes and pops; and
    a call of [wait_pop] removes and returns at most one frame. *)
Theorem queue_fifo_order :
  (forall fs, pop_n (List.length fs) (push_all new_queue fs) = (map Some fs, new_queue)) /\
  (forall q fs,
     pop_n (List.length (m_queue q ++ fs)) (push_all q fs)
     = (map Some (m_queue q ++ fs), mkQueue [] (m_closed q))) /\
  (forall q ops,
     popped (fst (run_ops q ops)) ++ m_queue (snd (run_ops q ops))
     = m_queue q ++ pushed ops) /\
  (forall q,
     match wait_pop q with
     | (Some f, q') => m_queue q = f :: m_queue q'
     | (None, q') => q' = q
     end).
Proof.
  split; [|split; [|split]].
  - intros fs. rewrite push_all_queue. apply pop_n_drains.
  - intros q fs. rewrite push_all_queue. apply pop_n_drains.
  - intros q ops. apply run_ops_fifo.
  - intros q. pose proof (wait_pop_at_most_one q) as H.
    destruct (wait_pop q) as [[f|] q']; tauto.
Qed.

(** C9.  Reset: the queue after [reset()] is the queue as created, with no
    pending frame and the closed flag cleared, whatever it held before; so
    every run of calls after the reset goes as on a new queue, and the
    frames it hands out are frames pushed after the reset; a second reset
    changes nothing. *)
Theorem reset_is_new_queue (q : FrameQueue) :
  reset q = new_queue /\
  m_queue (reset q) = [] /\ m_closed (reset q) = false /\
  reset (reset q) = reset q /\
  wait_pop (reset q) = (None, reset q) /\
  (forall ops, run_ops (reset q) ops = run_ops new_queue ops) /\
  (forall ops,
     popped (fst (run_ops (reset q) ops)) ++ m_queue (snd (run_ops (reset q) ops))
     = pushed ops).
Proof.
  repeat split. intros ops. rewrite run_ops_fifo. reflexivity.
Qed.

(** C10.  Close keeps the pending frames: after [close()] the calls of
    [wait_pop] still return every frame pushed before or after the close,
    one per call, in the order of the pushes, and a call returns nothing
    only when no frame is pending. *)
Theorem close_keeps_pending (q : FrameQueue) (fs : list WsFrame) :
  m_queue (close q) = m_queue q /\
  m_closed (push_all (close q) fs) = true /\
  pop_n (List.length (m_queue q ++ fs)) (push_all (close q) fs)
  = (map Some (m_queue q ++ fs), mkQueue [] true) /\
  (forall q0, fst (wait_pop q0) = None <-> m_queue q0 = []) /\
  (forall ops,
     popped (fst (run_ops (close q) ops)) ++ m_queue (snd (run_ops (close q) ops))
     = m_queue q ++ pushed ops).
Proof.
  split; [reflexivity|]. split; [rewrite push_all_queue; reflexivity|].
  split; [rewrite push_all_queue; apply pop_n_drains|]. split.
  - intros q0. pose proof (wait_pop_at_most_one q0) as H.
    destruct (wait_pop q0) as [[f|] q']; cbn [fst]; split; intros E.
    + discriminate E.
    + destruct H as [H _]. rewrite H in E. discriminate E.
    + apply H.
    + reflexivity.
  - intros ops. rewrite run_ops_fifo. reflexivity.
Qed.

(** * Properties of the binary-message handler *)

(** C3, as the code has it.  A delivery that starts with an encoded frame
    has that one frame pushed, whatever follows it in the buffer, a second
    encoded frame included; a delivery that is a strict prefix of an
    encoded frame leaves the queue as it was. *)
Theorem binary_message_pushes_first_frame (q : FrameQueue) (f : WsFrame)
    (rest : list byte) (k : nat) :
  byte.unsigned (opcode f) < 16 ->
  size (encode f) < 2 ^ 64 ->
  (k < List.length (encode f))%nat ->
  binary_message q (encode f ++ rest) = Some (push q f) /\
  m_queue (push q f) = m_queue q ++ [f] /\
  binary_message q (firstn k (encode f)) = Some q.
Proof.
  intros Hop Hsz Hk. unfold binary_message.
  rewrite (decode_app _ rest _ _ (decode_encode_ok f Hop Hsz)).
  split; [reflexivity|]. split; [reflexivity|].
  rewrite (decode_strict_prefix _ (skipn k (encode f)) f).
  - reflexivity.
  - rewrite firstn_skipn. apply decode_encode_ok; assumption.
  - intros E. apply (f_equal (@List.length byte)) in E.
    rewrite length_skipn in E. cbn [List.length] in E. lia.
Qed.

Lemma binary_message_pushes_first_frame_witness :
  let f := mkFrame true PONG (bytes_of [0x70; 0x69; 0x6E; 0x67; 0x2D; 0x30]) in
  let rest := encode (mkFrame true TEXT (bytes_of [0x68; 0x69])) in
  byte.unsigned (opcode f) < 16 /\ size (encode f) < 2 ^ 64 /\
  (3 < List.length (encode f))%nat /\
  binary_message new_queue (encode f ++ rest) = Some (push new_queue f) /\
  m_queue (push new_queue f) = m_queue new_queue ++ [f] /\
  binary_message new_queue (firstn 3 (encode f)) = Some new_queue.
Proof.
  intros f rest.
  assert (H1 : byte.unsigned (opcode f) < 16) by (vm_compute; reflexivity).
  assert (H2 : size (encode f) < 2 ^ 64) by (vm_compute; reflexivity).
  assert (H3 : (3 < List.length (encode f))%nat) by (vm_compute; lia).
  exact (conj H1 (conj H2 (conj H3
           (binary_message_pushes_first_frame new_queue f rest 3 H1 H2 H3)))).
Defined.

(** C3, as the specification words it, fails: on a delivery of two encoded
    frames the loop of the specification pushes both, the handler pushes
    the first only. *)
Lemma binary_message_drops_second_frame :
  let f1 := mkFrame true PONG (bytes_of [0x70; 0x69; 0x6E; 0x67; 0x2D; 0x30]) in
  let f2 := mkFrame true TEXT (bytes_of [0x68; 0x69]) in
  let data := encode f1 ++ encode f2 in
  on_inbound_spec (S (List.length data)) new_queue data
    = Some (mkQueue [f1; f2] false) /\
  binary_message new_queue data = Some (mkQueue [f1] false) /\
  binary_message new_queue data
    <> on_inbound_spec (S (List.length data)) new_queue data.
Proof.
  intros f1 f2 data.
  assert (Hs : on_inbound_spec (S (List.length data)) new_queue data
               = Some (mkQueue [f1; f2] false)) by (vm_compute; reflexivity).
  assert (Hb : binary_message new_queue data = Some (mkQueue [f1] false))
    by (vm_compute; reflexivity).
  split; [exact Hs|]. split; [exact Hb|].
  rewrite Hs, Hb. intros E. injection E as E. discriminate E.
Qed.

(** * Properties of the session thread *)

Lemma same_flags_refl s : same_flags s s.
Proof. repeat split. Qed.

Lemma good_pong_iff i f :
  good_pong i (Some f) <->
  Byte.eqb (opcode f) PONG = true /\
  String.eqb (string_of_list_byte (payload f)) (ping_data i) = true.
Proof.
  unfold good_pong. split.
  - intros (g & E & Ho & Hp). injection E as <-. split.
    + apply Byte.byte_dec_lb. exact Ho.
    + apply String.eqb_eq. rewrite Hp. apply string_of_list_byte_of_string.
  - intros [Ho Hp]. exists f. split; [reflexivity|]. split.
    + apply Byte.byte_dec_bl. exact Ho.
    + apply String.eqb_eq in Hp. rewrite <- Hp.
      symmetry. apply list_byte_of_string_of_list_byte.
Qed.

Lemma good_pong_None i : ~ good_pong i None.
Proof. intros (f & E & _). discriminate E. Qed.

Lemma good_pong_dec i r : good_pong i r \/ ~ good_pong i r.
Proof.
  destruct r as [f|]; [|right; apply good_pong_None].
  destruct (Byte.eqb (opcode f) PONG) eqn:Eo;
    [destruct (String.eqb (string_of_list_byte (payload f)) (ping_data i)) eqn:Ep|].
  - left. apply good_pong_iff. split; assumption.
  - right. intros H. apply good_pong_iff in H. destruct H as [_ H]. congruence.
  - right. intros H. apply good_pong_iff in H. destruct H as [H _]. congruence.
Qed.

(** One round of the test mode: the PING with the tag of the round is
    sent, one answer is awaited, and the round goes on exactly when the
    answer is the matching PONG; otherwise the result is set to 1. *)
Lemma test_round_spec i arrivals s :
  exists r,
    trace (fst (test_round i arrivals s))
      = trace s ++ [Sent (encode (ping_frame i)); Popped r] /\
    (snd (test_round i arrivals s) = true <-> good_pong i r) /\
    (snd (test_round i arrivals s) = false ->
       g_test_result (fst (test_round i arrivals s)) = 1) /\
    (snd (test_round i arrivals s) = true ->
       g_test_result (fst (test_round i arrivals s))
       = if i =? PING_COUNT - 1 then 0 else g_test_result s) /\
    same_flags s (fst (test_round i arrivals s)).
Proof.
  unfold test_round, session_wait_pop.
  cbn [emit set_pings_sent g_from_client trace g_pings_sent].
  destruct (wait_pop (push_all (g_from_client s) arrivals)) as [r q].
  exists r. destruct r as [f|].
  - destruct (Byte.eqb (opcode f) PONG) eqn:Eo;
      [destruct (String.eqb (string_of_list_byte (payload f)) (ping_data i)) eqn:Ep|];
      cbn [negb fst snd].
    + split; [|split; [|split; [|split]]].
      * destruct (i =? PING_COUNT - 1); cbn; rewrite <- app_assoc; reflexivity.
      * split; [intros _; apply good_pong_iff; split; assumption | reflexivity].
      * discriminate.
      * intros _. destruct (i =? PING_COUNT - 1); reflexivity.
      * destruct (i =? PING_COUNT - 1); repeat split.
    + split; [|split; [|split; [|split]]].
      * cbn; rewrite <- app_assoc; reflexivity.
      * split; [discriminate|]. intros H. apply good_pong_iff in H.
        destruct H as [_ H]. congruence.
      * reflexivity.
      * discriminate.
      * repeat split.
    + split; [|split; [|split; [|split]]].
      * cbn; rewrite <- app_assoc; reflexivity.
      * split; [discriminate|]. intros H. apply good_pong_iff in H.
        destruct H as [H _]. congruence.
      * reflexivity.
      * discriminate.
      * repeat split.
  - cbn [fst snd]. split; [|split; [|split; [|split]]].
    + cbn; rewrite <- app_assoc; reflexivity.
    + split; [discriminate|]. intros H. exfalso. exact (good_pong_None i H).
    + reflexivity.
    + discriminate.
    + repeat split.
Qed.

Lemma same_flags_trans s1 s2 s3 :
  same_flags s1 s2 -> same_flags s2 s3 -> same_flags s1 s3.
Proof.
  unfold same_flags. intros (A1 & A2 & A3 & A4) (B1 & B2 & B3 & B4).
  repeat split; congruence.
Qed.

(** Takes one round of [test_loop] apart with [test_round_spec]. *)
Ltac test_round_step i a s r s' c :=
  let Ht := fresh "Ht" in let Hg := fresh "Hg" in let Hf := fresh "Hf" in
  let Hs := fresh "Hs" in let Hk := fresh "Hk" in
  destruct (test_round_spec i a s) as (r & Ht & Hg & Hf & Hs & Hk);
  destruct (test_round i a s) as [s' c]; cbn [fst snd] in Ht, Hg, Hf, Hs, Hk;
  change (i =? PING_COUNT - 1) with (Z.eqb i 2) in Hs; cbn [Z.eqb Pos.eqb] in Hs;
  destruct c;
  [ pose proof (proj1 Hg eq_refl); pose proof (Hs eq_refl)
  | assert (~ good_pong i r) by (intros G; apply Hg in G; discriminate G);
    pose proof (Hf eq_refl) ];
  clear Hg Hf Hs.

(** Splits a hypothesis [nth_error l j = Some r] on a literal list [l]. *)
Ltac nth_cases H :=
  repeat match type of H with
  | nth_error (_ :: _) ?j = Some _ =>
      destruct j as [|j]; cbn [nth_error] in H; [injection H as <-|]
  | nth_error [] ?j = Some _ => destruct j; discriminate H
  end.

Ltac flags_chain :=
  repeat match goal with
  | H : same_flags ?a ?b, H' : same_flags ?b ?c |- _ =>
      pose proof (same_flags_trans _ _ _ H H'); clear H'
  end.

(** Closes the statement of [test_loop_spec] once the answers are a
    literal list and each round has been taken apart. *)
Ltac script_case :=
  repeat match goal with H : trace _ = _ |- _ => rewrite H; clear H end;
  split; [cbn [script_events app]; rewrite <- ?app_assoc; reflexivity|];
  split; [cbn [List.length]; lia|];
  split; [intros j r Hn Hl; cbn [List.length] in Hl; nth_cases Hn;
          cbn [Z.of_nat Pos.of_succ_nat Pos.succ]; first [assumption | lia]|];
  split; [intros j r Hn Hb; nth_cases Hn;
          cbn [Z.of_nat Pos.of_succ_nat Pos.succ] in Hb;
          first [contradiction | split; [reflexivity | congruence]]|];
  split; [intros Hz Hr;
          first [ eexists; split; [reflexivity | assumption] | exfalso; congruence ]|];
  split; [intros (r & Hn & Hb); cbn [nth_error] in Hn;
          first [discriminate Hn | injection Hn as <-; first [contradiction | congruence]]|];
  split; [intros Hall Hl3; cbn [List.length] in Hl3;
          first [ lia | congruence
                | exfalso;
                  match goal with
                  | Hb : ~ good_pong _ _ |- _ =>
                      apply Hb;
                      first [ exact (Hall 0%nat _ eq_refl)
                            | exact (Hall 1%nat _ eq_refl)
                            | exact (Hall 2%nat _ eq_refl) ]
                  end ]|];
  split; [intros Hr Hl3 Hle; cbn [List.length Nat.sub] in *;
          first [ discriminate Hr | lia
                | eexists; split; [reflexivity | assumption] ]|];
  first [apply same_flags_refl | flags_chain; assumption].

Lemma test_loop_spec env s :
  exists rs,
    trace (test_loop [0; 1; 2] env s) = trace s ++ script_events 0 rs /\
    (List.length rs <= 3)%nat /\
    (forall j r, nth_error rs j = Some r -> (S j < List.length rs)%nat ->
                 good_pong (Z.of_nat j) r) /\
    (forall j r, nth_error rs j = Some r -> ~ good_pong (Z.of_nat j) r ->
                 S j = List.length rs /\
                 g_test_result (test_loop [0; 1; 2] env s) = 1) /\
    (g_test_result s <> 0 -> g_test_result (test_loop [0; 1; 2] env s) = 0 ->
     exists r, nth_error rs 2 = Some r /\ good_pong 2 r) /\
    ((exists r, nth_error rs 2 = Some r /\ good_pong 2 r) ->
     g_test_result (test_loop [0; 1; 2] env s) = 0) /\
    ((forall j r, nth_error rs j = Some r -> good_pong (Z.of_nat j) r) ->
     (List.length rs < 3)%nat ->
     g_test_result (test_loop [0; 1; 2] env s) = g_test_result s) /\
    (g_running s = true -> (List.length rs < 3)%nat ->
     (List.length rs < List.length env)%nat ->
     exists r, nth_error rs (List.length rs - 1) = Some r /\
               ~ good_pong (Z.of_nat (List.length rs - 1)) r) /\
    same_flags s (test_loop [0; 1; 2] env s).
Proof.
  cbn [test_loop].
  destruct (g_running s) eqn:Hrun; cbn [negb].
  2:{ exists []. rewrite app_nil_r. script_case. }
  destruct env as [|a0 env].
  { exists []. rewrite app_nil_r. script_case. }
  test_round_step 0 a0 s r0 s1 c0.
  2:{ exists [r0]. script_case. }
  assert (Hrun1 : g_running s1 = true) by (destruct Hk as [-> _]; exact Hrun).
  rewrite Hrun1; cbn [negb].
  destruct env as [|a1 env].
  { exists [r0]. script_case. }
  test_round_step 1 a1 s1 r1 s2 c1.
  2:{ exists [r0; r1]. script_case. }
  assert (Hrun2 : g_running s2 = true) by (destruct Hk0 as [-> _]; exact Hrun1).
  rewrite Hrun2; cbn [negb].
  destruct env as [|a2 env].
  { exists [r0; r1]. script_case. }
  test_round_step 2 a2 s2 r2 s3 c2.
  - exists [r0; r1; r2]. script_case.
  - exists [r0; r1; r2]. script_case.
Qed.

(** ** CLOSE frames among the events *)

Lemma wire_opcode_encode f :
  byte.unsigned (opcode f) < 16 -> wire_opcode (encode f) = Some (opcode f).
Proof.
  intros H. unfold encode, wire_opcode. cbn [app].
  rewrite byte0_opcode by exact H. reflexivity.
Qed.

Lemma closes_sent_app a b : closes_sent (a ++ b) = (closes_sent a + closes_sent b)%nat.
Proof. unfold closes_sent. rewrite filter_app, length_app. reflexivity. Qed.

Lemma closes_sent_close_frame : closes_sent [Sent (encode close_frame)] = 1%nat.
Proof. vm_compute. reflexivity. Qed.

Lemma closes_sent_script i rs : closes_sent (script_events i rs) = 0%nat.
Proof.
  revert i. induction rs as [|r rs IH]; intros i; [reflexivity|].
  cbn [script_events]. unfold closes_sent in *. cbn [filter is_close_sent].
  rewrite wire_opcode_encode by (vm_compute; reflexivity).
  cbn [ping_frame opcode]. change (Byte.eqb PING CLOSE) with false.
  cbv iota. apply IH.
Qed.

(** ** The claims on the session thread *)

(** C6, as the code has it.  Scripted verification mode.  In test mode the
    thread starts the stream, runs rounds 0, 1, 2 in order, each sending
    the PING frame whose payload is the tag "ping-i" (on the wire
    [89 06 70 69 6E 67 2D 3i]) and awaiting one answer, then sends one
    CLOSE frame with the payload 0x03 0xE8 (on the wire [88 02 03 E8]),
    lowers [g_running] and finishes.  A round whose answer is missing, is
    not a PONG, or carries another payload is the last round and sets the
    result to 1; every round before the last was answered by the matching
    PONG; a matching PONG in round 2 sets the result to 0.  The result is
    not set when the session begins: it ends at 0 exactly when round 2 was
    answered by the matching PONG, or when it was 0 already and no round
    failed; [g_test_result] is 1 when the program starts, so the first
    session ends at 0 only by the matching PONG of round 2.  A run cut short with the writer still valid was cut by a
    failed round. *)
Theorem scripted_verification_mode (env : list (list WsFrame)) (s : session) :
  g_test_mode s = true ->
  exists rs,
    trace (websocket_server_thread env s)
      = trace s ++ [Started] ++ script_events 0 rs
        ++ [Sent (encode close_frame); Finished]
        ++ (if g_app s then [Quit] else []) /\
    map ping_data [0; 1; 2] = ["ping-0"; "ping-1"; "ping-2"]%string /\
    (forall i, fin (ping_frame i) = true /\ opcode (ping_frame i) = PING /\
               payload (ping_frame i) = list_byte_of_string (ping_data i)) /\
    map (fun i => encode (ping_frame i)) [0; 1; 2]
      = [bytes_of [0x89; 0x06; 0x70; 0x69; 0x6E; 0x67; 0x2D; 0x30];
         bytes_of [0x89; 0x06; 0x70; 0x69; 0x6E; 0x67; 0x2D; 0x31];
         bytes_of [0x89; 0x06; 0x70; 0x69; 0x6E; 0x67; 0x2D; 0x32]] /\
    payload close_frame = bytes_of [0x03; 0xE8] /\
    encode close_frame = bytes_of [0x88; 0x02; 0x03; 0xE8] /\
    closes_sent (script_events 0 rs ++ [Sent (encode close_frame)]) = 1%nat /\
    (List.length rs <= 3)%nat /\
    (forall j r, nth_error rs j = Some r -> (S j < List.length rs)%nat ->
                 good_pong (Z.of_nat j) r) /\
    (forall j r, nth_error rs j = Some r -> ~ good_pong (Z.of_nat j) r ->
                 S j = List.length rs /\
                 g_test_result (websocket_server_thread env s) = 1) /\
    ((exists r, nth_error rs 2 = Some r /\ good_pong 2 r) ->
     g_test_result (websocket_server_thread env s) = 0) /\
    (g_test_result (websocket_server_thread env s) = 0 <->
     (exists r, nth_error rs 2 = Some r /\ good_pong 2 r) \/
     (g_test_result s = 0 /\
      forall j r, nth_error rs j = Some r -> good_pong (Z.of_nat j) r)) /\
    (g_running s = true -> (List.length rs < 3)%nat ->
     (List.length rs < List.length env)%nat ->
     exists r, nth_error rs (List.length rs - 1) = Some r /\
               ~ good_pong (Z.of_nat (List.length rs - 1)) r) /\
    g_running (websocket_server_thread env s) = false.
Proof.
  intros Htest. unfold websocket_server_thread.
  set (s0 := set_connected true (emit Started s)).
  change (g_test_mode s0) with (g_test_mode s). rewrite Htest.
  destruct (test_loop_spec env s0)
    as (rs & Ht & Hlen & Hgood & Hbad & Honly & Hsucc & Hkeep & Hcut & Hflags).
  set (s1 := test_loop [0; 1; 2] env s0) in *.
  exists rs.
  assert (Happ : g_app s1 = g_app s) by (destruct Hflags as (_ & _ & _ & ->); reflexivity).
  set (s2 := emit Finished (set_running false (emit (Sent (encode close_frame)) s1))).
  change (g_app s2) with (g_app s1). rewrite Happ.
  assert (Hres : g_test_result (if g_app s then emit Quit s2 else s2) = g_test_result s1)
    by (destruct (g_app s); reflexivity).
  rewrite Hres.
  change (g_test_result s0) with (g_test_result s) in Honly, Hkeep.
  split.
  { destruct (g_app s); cbn [emit trace s2 set_running]; rewrite Ht;
      cbn [s0 emit set_connected trace]; rewrite <- ?app_assoc; reflexivity. }
  split; [vm_compute; reflexivity|].
  split; [intros i; repeat split|].
  split; [vm_compute; reflexivity|].
  split; [reflexivity|].
  split; [vm_compute; reflexivity|].
  split; [rewrite closes_sent_app, closes_sent_script, closes_sent_close_frame;
          reflexivity|].
  split; [exact Hlen|]. split; [exact Hgood|]. split; [exact Hbad|].
  split; [exact Hsucc|].
  split; [|split; [exact Hcut | destruct (g_app s); reflexivity]].
  split.
  - intros H0.
    assert (Hall : forall j r, nth_error rs j = Some r -> good_pong (Z.of_nat j) r).
    { intros j r Hn. destruct (good_pong_dec (Z.of_nat j) r) as [G|G]; [exact G|].
      destruct (Hbad j r Hn G) as [_ H1]. rewrite H1 in H0. discriminate H0. }
    destruct (nth_error rs 2) as [r|] eqn:E2.
    + left. exists r. split; [reflexivity|]. exact (Hall 2%nat r E2).
    + right. split; [|exact Hall].
      apply nth_error_None in E2. rewrite <- H0. symmetry.
      apply Hkeep; [exact Hall | lia].
  - intros [H2 | [H0 Hall]]; [exact (Hsucc H2)|].
    destruct (nth_error rs 2) as [r|] eqn:E2.
    + apply Hsucc. exists r. split; [reflexivity|]. exact (Hall 2%nat r E2).
    + apply nth_error_None in E2. rewrite <- H0. apply Hkeep; [exact Hall | lia].
Qed.

Lemma scripted_verification_mode_witness :
  let s := connect (initial_session true) in
  let env := [[mkFrame true PONG (list_byte_of_string "ping-0")];
              [mkFrame true PONG (list_byte_of_string "wrong-tag")]] in
  g_test_mode s = true /\
  trace (websocket_server_thread env s)
  = [Started;
     Sent (bytes_of [0x89; 0x06; 0x70; 0x69; 0x6E; 0x67; 0x2D; 0x30]);
     Popped (Some (mkFrame true PONG (list_byte_of_string "ping-0")));
     Sent (bytes_of [0x89; 0x06; 0x70; 0x69; 0x6E; 0x67; 0x2D; 0x31]);
     Popped (Some (mkFrame true PONG (list_byte_of_string "wrong-tag")));
     Sent (bytes_of [0x88; 0x02; 0x03; 0xE8]); Finished; Quit] /\
  g_test_result (websocket_server_thread env s) = 1 /\
  exists rs,
    trace (websocket_server_thread env s)
      = trace s ++ [Started] ++ script_events 0 rs
        ++ [Sent (encode close_frame); Finished]
        ++ (if g_app s then [Quit] else []) /\
    map ping_data [0; 1; 2] = ["ping-0"; "ping-1"; "ping-2"]%string /\
    (forall i, fin (ping_frame i) = true /\ opcode (ping_frame i) = PING /\
               payload (ping_frame i) = list_byte_of_string (ping_data i)) /\
    map (fun i => encode (ping_frame i)) [0; 1; 2]
      = [bytes_of [0x89; 0x06; 0x70; 0x69; 0x6E; 0x67; 0x2D; 0x30];
         bytes_of [0x89; 0x06; 0x70; 0x69; 0x6E; 0x67; 0x2D; 0x31];
         bytes_of [0x89; 0x06; 0x70; 0x69; 0x6E; 0x67; 0x2D; 0x32]] /\
    payload close_frame = bytes_of [0x03; 0xE8] /\
    encode close_frame = bytes_of [0x88; 0x02; 0x03; 0xE8] /\
    closes_sent (script_events 0 rs ++ [Sent (encode close_frame)]) = 1%nat /\
    (List.length rs <= 3)%nat /\
    (forall j r, nth_error rs j = Some r -> (S j < List.length rs)%nat ->
                 good_pong (Z.of_nat j) r) /\
    (forall j r, nth_error rs j = Some r -> ~ good_pong (Z.of_nat j) r ->
                 S j = List.length rs /\
                 g_test_result (websocket_server_thread env s) = 1) /\
    ((exists r, nth_error rs 2 = Some r /\ good_pong 2 r) ->
     g_test_result (websocket_server_thread env s) = 0) /\
    (g_test_result (websocket_server_thread env s) = 0 <->
     (exists r, nth_error rs 2 = Some r /\ good_pong 2 r) \/
     (g_test_result s = 0 /\
      forall j r, nth_error rs j = Some r -> good_pong (Z.of_nat j) r)) /\
    (g_running s = true -> (List.length rs < 3)%nat ->
     (List.length rs < List.length env)%nat ->
     exists r, nth_error rs (List.length rs - 1) = Some r /\
               ~ good_pong (Z.of_nat (List.length rs - 1)) r) /\
    g_running (websocket_server_thread env s) = false.
Proof.
  intros s env.
  assert (H1 : g_test_mode s = true) by reflexivity.
  split; [exact H1|].
  split; [vm_compute; reflexivity|].
  split; [vm_compute; reflexivity|].
  exact (scripted_verification_mode env s H1).
Defined.

(** C6, as the specification words it, fails: the handler of [/connect]
    resets the counters and the queue but not [g_test_result].  A session
    that follows a successful one and finds its writer no longer valid
    ends with the result 0, though none of its rounds ran and it took no
    answer at all. *)
Lemma scripted_stale_success :
  let pong := fun i => mkFrame true PONG (list_byte_of_string (ping_data i)) in
  let s1 := websocket_server_thread [[pong 0]; [pong 1]; [pong 2]]
              (connect (initial_session true)) in
  let s2 := websocket_server_thread [] (connect s1) in
  let answers := answers_of (skipn (List.length (trace s1)) (trace s2)) in
  g_test_result (initial_session true) = 1 /\
  g_test_result s1 = 0 /\
  g_test_mode (connect s1) = true /\
  g_test_result (connect s1) = 0 /\
  skipn (List.length (trace s1)) (trace s2)
    = [Started; Sent (encode close_frame); Finished; Quit] /\
  answers = [] /\
  g_pings_sent s2 = 0 /\ g_pongs_received s2 = 0 /\
  g_test_result s2 = 0 /\
  ~ (g_test_result s2 = 0 ->
     exists r, nth_error answers 2 = Some r /\ good_pong 2 r).
Proof.
  intros pong s1 s2 answers.
  assert (Ha : answers = []) by (vm_compute; reflexivity).
  assert (Hr : g_test_result s2 = 0) by (vm_compute; reflexivity).
  split; [reflexivity|]. split; [vm_compute; reflexivity|].
  split; [reflexivity|]. split; [vm_compute; reflexivity|].
  split; [vm_compute; reflexivity|]. split; [exact Ha|].
  split; [vm_compute; reflexivity|]. split; [vm_compute; reflexivity|].
  split; [exact Hr|].
  intros H. destruct (H Hr) as (r & Hn & _). rewrite Ha in Hn. discriminate Hn.
Qed.

(** One turn of the interactive loop: one answer of [wait_pop]; a TEXT or
    BINARY frame is sent back encoded, a PONG frame is counted, and the
    loop is left exactly on a CLOSE frame. *)
Lemma interactive_round_spec arrivals s :
  exists r,
    trace (fst (interactive_round arrivals s)) = trace s ++ echo_events [r] /\
    g_pongs_received (fst (interactive_round arrivals s))
      = Nat.iter (pongs [r]) incr_int (g_pongs_received s) /\
    (snd (interactive_round arrivals s) = false <->
     exists f, r = Some f /\ opcode f = CLOSE) /\
    same_flags s (fst (interactive_round arrivals s)).
Proof.
  unfold interactive_round, session_wait_pop.
  destruct (wait_pop (push_all (g_from_client s) arrivals)) as [r q].
  exists r. unfold echo_events, pongs, popped, is_data. cbn [flat_map app].
  destruct r as [f|]; cbn [filter flat_map app List.length].
  - destruct (Byte.eqb (opcode f) TEXT) eqn:Et;
      [|destruct (Byte.eqb (opcode f) BINARY) eqn:Eb;
        [|destruct (Byte.eqb (opcode f) PONG) eqn:Ep;
          [|destruct (Byte.eqb (opcode f) CLOSE) eqn:Ec]]];
      cbn [orb fst snd];
      repeat match goal with
      | E : Byte.eqb _ _ = true |- _ => apply Byte.byte_dec_bl in E
      end.
    + rewrite Et. change (Byte.eqb TEXT PONG) with false.
      cbn [filter List.length Nat.iter].
      split; [cbn; rewrite <- app_assoc; reflexivity|]. split; [reflexivity|].
      split; [|repeat split].
      split; [discriminate|]. intros (g & E & Hc). injection E as <-.
      rewrite Et in Hc. discriminate Hc.
    + rewrite Eb. change (Byte.eqb BINARY PONG) with false.
      cbn [filter List.length Nat.iter].
      split; [cbn; rewrite <- app_assoc; reflexivity|]. split; [reflexivity|].
      split; [|repeat split].
      split; [discriminate|]. intros (g & E & Hc). injection E as <-.
      rewrite Eb in Hc. discriminate Hc.
    + cbn [filter List.length Nat.iter].
      split; [reflexivity|]. split; [reflexivity|].
      split; [|repeat split].
      split; [discriminate|]. intros (g & E & Hc). injection E as <-.
      rewrite Ep in Hc. discriminate Hc.
    + cbn [filter List.length Nat.iter].
      split; [reflexivity|]. split; [reflexivity|].
      split; [|repeat split].
      split; [intros _; exists f; split; [reflexivity | exact Ec] | reflexivity].
    + cbn [filter List.length Nat.iter].
      split; [reflexivity|]. split; [reflexivity|].
      split; [|repeat split].
      split; [discriminate|]. intros (g & E & Hc). injection E as <-.
      rewrite Hc in Ec. discriminate Ec.
  - cbn [fst snd Nat.iter].
    split; [reflexivity|]. split; [reflexivity|].
    split; [|repeat split].
    split; [discriminate|]. intros (g & E & _). discriminate E.
Qed.

Lemma echo_events_cons r rs : echo_events (r :: rs) = echo_events [r] ++ echo_events rs.
Proof. unfold echo_events. cbn [flat_map]. rewrite app_nil_r. reflexivity. Qed.

Lemma pongs_cons r rs : pongs (r :: rs) = (pongs [r] + pongs rs)%nat.
Proof.
  unfold pongs, popped. cbn [flat_map]. rewrite app_nil_r.
  rewrite filter_app, length_app. reflexivity.
Qed.

Lemma iter_incr_add a b z :
  Nat.iter (a + b) incr_int z = Nat.iter b incr_int (Nat.iter a incr_int z).
Proof. rewrite Nat.add_comm. apply Nat.iter_add. Qed.

(** The interactive loop: its events are the echo events of the answers it
    got; it counts their PONG frames; a CLOSE frame is the last answer it
    takes; and it leaves before the end of [env] only by a CLOSE frame. *)
Lemma interactive_loop_spec env : forall s,
  exists rs,
    trace (interactive_loop env s) = trace s ++ echo_events rs /\
    g_pongs_received (interactive_loop env s)
      = Nat.iter (pongs rs) incr_int (g_pongs_received s) /\
    (forall j f, nth_error rs j = Some (Some f) -> opcode f = CLOSE ->
                 S j = List.length rs) /\
    (List.length rs <= List.length env)%nat /\
    (g_running s = true -> (List.length rs < List.length env)%nat ->
     exists f, nth_error rs (List.length rs - 1) = Some (Some f) /\
               opcode f = CLOSE) /\
    same_flags s (interactive_loop env s).
Proof.
  induction env as [|a env IH]; intros s.
  - exists []. cbn [interactive_loop]. destruct (g_running s); cbn [negb].
    all: rewrite app_nil_r; repeat split; try reflexivity;
      try (intros j f Hn; destruct j; discriminate Hn);
      try (cbn [List.length]; lia).
  - cbn [interactive_loop]. destruct (g_running s) eqn:Hrun; cbn [negb].
    2:{ exists []. rewrite app_nil_r. repeat split; try reflexivity;
          try (intros j f Hn; destruct j; discriminate Hn);
          try (cbn [List.length]; lia). }
    destruct (interactive_round_spec a s) as (r & Ht & Hp & Hc & Hk).
    destruct (interactive_round a s) as [s1 c]. cbn [fst snd] in *.
    destruct c.
    + destruct (IH s1) as (rs & Ht' & Hp' & Hlast & Hlen & Hcut & Hk').
      exists (r :: rs).
      assert (Hr : forall f, r = Some f -> opcode f <> CLOSE).
      { intros f -> Hcl. assert (true = false) as X; [|discriminate X].
        apply Hc. exists f. split; [reflexivity | exact Hcl]. }
      split; [rewrite Ht', Ht, (echo_events_cons r rs), app_assoc; reflexivity|].
      split; [rewrite Hp', Hp, (pongs_cons r rs), iter_incr_add; reflexivity|].
      split; [|split; [|split]].
      * intros j f Hn Hcl. destruct j as [|j]; cbn [nth_error] in Hn.
        -- injection Hn as ->. exfalso. exact (Hr f eq_refl Hcl).
        -- cbn [List.length]. f_equal. exact (Hlast j f Hn Hcl).
      * cbn [List.length]. lia.
      * intros _ Hl. cbn [List.length] in Hl.
        destruct Hk as (Hrun1 & _). rewrite Hrun in Hrun1.
        destruct (Hcut Hrun1 ltac:(lia)) as (f & Hn & Hcl).
        exists f. split; [|exact Hcl].
        destruct rs as [|r' rs]; [cbn in Hn; discriminate Hn|].
        cbn [List.length Nat.sub nth_error] in *. rewrite Nat.sub_0_r in *. exact Hn.
      * exact (same_flags_trans _ _ _ Hk Hk').
    + exists [r].
      destruct (proj1 Hc eq_refl) as (f & -> & Hcl).
      split; [exact Ht|]. split; [exact Hp|].
      split; [|split; [|split]].
      * intros j g Hn _. destruct j as [|j]; [reflexivity|].
        destruct j; discriminate Hn.
      * cbn [List.length]. lia.
      * intros _ _. exists f. split; [reflexivity | exact Hcl].
      * exact Hk.
Qed.

Lemma is_data_opcode f : is_data f = true -> opcode f = TEXT \/ opcode f = BINARY.
Proof.
  unfold is_data. intros H. apply orb_true_iff in H.
  destruct H as [H|H]; apply Byte.byte_dec_bl in H; [left | right]; exact H.
Qed.

Lemma is_data_4_bits f : is_data f = true -> byte.unsigned (opcode f) < 16.
Proof.
  intros H. destruct (is_data_opcode f H) as [-> | ->]; vm_compute; reflexivity.
Qed.

Lemma closes_sent_echo rs : closes_sent (echo_events rs) = 0%nat.
Proof.
  induction rs as [|r rs IH]; [reflexivity|].
  rewrite echo_events_cons, closes_sent_app, IH, Nat.add_0_r.
  unfold echo_events, closes_sent. cbn [flat_map app filter is_close_sent].
  destruct r as [f|]; [|reflexivity].
  destruct (is_data f) eqn:Hd; [|reflexivity].
  cbn [app filter is_close_sent].
  rewrite wire_opcode_encode by (apply is_data_4_bits; exact Hd).
  destruct (is_data_opcode f Hd) as [-> | ->]; reflexivity.
Qed.

(** [x++] adds one as long as the counter stays an [int]. *)
Lemma incr_int_in_range z : - 2 ^ 31 <= z < 2 ^ 31 - 1 -> incr_int z = z + 1.
Proof. intros H. unfold incr_int. rewrite Z.mod_small by lia. lia. Qed.

Lemma iter_incr_int n : forall z,
  - 2 ^ 31 <= z -> z + Z.of_nat n < 2 ^ 31 ->
  Nat.iter n incr_int z = z + Z.of_nat n.
Proof.
  induction n as [|n IH]; intros z Hlo Hhi.
  - unfold Nat.iter. cbn [nat_rect]. lia.
  - rewrite Nat.iter_succ, IH by lia. rewrite incr_int_in_range by lia. lia.
Qed.

Lemma pongs_filter rs :
  pongs rs
  = List.length (filter (fun r => match r with
                                  | Some f => Byte.eqb (opcode f) PONG
                                  | None => false
                                  end) rs).
Proof.
  induction rs as [|r rs IH]; [reflexivity|].
  rewrite pongs_cons, IH. unfold pongs, popped. cbn [flat_map app filter].
  destruct r as [f|]; cbn [app filter List.length]; [|reflexivity].
  destruct (Byte.eqb (opcode f) PONG); reflexivity.
Qed.

(** C7.  Interactive echo mode.  Outside the test mode the thread starts
    the stream and loops: each answer of [wait_pop] that is a TEXT or
    BINARY frame is sent back as [encode] of that same frame, which decodes
    to the frame itself; a PONG frame adds one to [g_pongs_received] and
    sends nothing, so that the counter ends at its value at the start plus
    the number of PONG frames among the answers (as long as that is an
    [int]); a CLOSE frame is the last answer taken; no other frame sends
    anything.  However the loop is left, one CLOSE frame is sent after it,
    the only one, the stream is finished and [g_connected] is lowered. *)
Theorem interactive_echo_mode (env : list (list WsFrame)) (s : session) :
  g_test_mode s = false ->
  exists rs,
    trace (websocket_server_thread env s)
      = trace s ++ [Started] ++ echo_events rs
        ++ [Sent (encode close_frame); Finished] /\
    closes_sent (echo_events rs ++ [Sent (encode close_frame)]) = 1%nat /\
    g_pongs_received (websocket_server_thread env s)
      = Nat.iter (pongs rs) incr_int (g_pongs_received s) /\
    pongs rs
      = List.length (filter (fun r => match r with
                                      | Some f => Byte.eqb (opcode f) PONG
                                      | None => false
                                      end) rs) /\
    (- 2 ^ 31 <= g_pongs_received s ->
     g_pongs_received s + Z.of_nat (pongs rs) < 2 ^ 31 ->
     g_pongs_received (websocket_server_thread env s)
       = g_pongs_received s + Z.of_nat (pongs rs)) /\
    (forall f, opcode f = PONG -> echo_events [Some f] = [Popped (Some f)]) /\
    (forall f, is_data f = true ->
               echo_events [Some f] = [Popped (Some f); Sent (encode f)]) /\
    (forall j f, nth_error rs j = Some (Some f) -> opcode f = CLOSE ->
                 S j = List.length rs) /\
    (g_running s = true -> (List.length rs < List.length env)%nat ->
     exists f, nth_error rs (List.length rs - 1) = Some (Some f) /\
               opcode f = CLOSE) /\
    (forall f, is_data f = true -> size (encode f) < 2 ^ 64 ->
               decode (encode f) = Ok (f, size (encode f))) /\
    g_connected (websocket_server_thread env s) = false.
Proof.
  intros Htest. unfold websocket_server_thread.
  set (s0 := set_connected true (emit Started s)).
  change (g_test_mode s0) with (g_test_mode s). rewrite Htest.
  destruct (interactive_loop_spec env s0)
    as (rs & Ht & Hp & Hlast & Hlen & Hcut & Hflags).
  exists rs.
  split.
  { cbn [set_connected emit trace]. rewrite Ht. cbn [s0 set_connected emit trace].
    rewrite <- !app_assoc. reflexivity. }
  split; [rewrite closes_sent_app, closes_sent_echo, closes_sent_close_frame;
          reflexivity|].
  split; [exact Hp|].
  split; [apply pongs_filter|].
  split.
  { intros Hlo Hhi.
    change (g_pongs_received (set_connected false
              (emit Finished (emit (Sent (encode close_frame))
                 (interactive_loop env s0)))))
      with (g_pongs_received (interactive_loop env s0)).
    rewrite Hp. change (g_pongs_received s0) with (g_pongs_received s).
    apply iter_incr_int; assumption. }
  split.
  { intros f Hf. unfold echo_events, is_data. cbn [flat_map app].
    rewrite Hf. reflexivity. }
  split.
  { intros f Hf. unfold echo_events. cbn [flat_map app]. rewrite Hf. reflexivity. }
  split; [exact Hlast|]. split; [exact Hcut|].
  split; [|reflexivity].
  intros f Hd Hsz. apply decode_encode_ok; [apply is_data_4_bits; exact Hd | exact Hsz].
Qed.

Lemma interactive_echo_mode_witness :
  let s := connect (initial_session false) in
  let hello := mkFrame true TEXT (list_byte_of_string "hello") in
  let pong := mkFrame true PONG (list_byte_of_string "ping-0") in
  let bye := mkFrame true CLOSE (bytes_of [0x03; 0xE8]) in
  let env := [[pong]; [hello]; []; [pong; bye]; []; [hello]] in
  g_test_mode s = false /\
  trace (websocket_server_thread env s)
  = [Started; Popped (Some pong); Popped (Some hello);
     Sent (bytes_of [0x81; 0x05; 0x68; 0x65; 0x6C; 0x6C; 0x6F]);
     Popped None; Popped (Some pong); Popped (Some bye);
     Sent (bytes_of [0x88; 0x02; 0x03; 0xE8]); Finished] /\
  g_pongs_received s = 0 /\
  g_pongs_received (websocket_server_thread env s) = 2 /\
  exists rs,
    trace (websocket_server_thread env s)
      = trace s ++ [Started] ++ echo_events rs
        ++ [Sent (encode close_frame); Finished] /\
    closes_sent (echo_events rs ++ [Sent (encode close_frame)]) = 1%nat /\
    g_pongs_received (websocket_server_thread env s)
      = Nat.iter (pongs rs) incr_int (g_pongs_received s) /\
    pongs rs
      = List.length (filter (fun r => match r with
                                      | Some f => Byte.eqb (opcode f) PONG
                                      | None => false
                                      end) rs) /\
    (- 2 ^ 31 <= g_pongs_received s ->
     g_pongs_received s + Z.of_nat (pongs rs) < 2 ^ 31 ->
     g_pongs_received (websocket_server_thread env s)
       = g_pongs_received s + Z.of_nat (pongs rs)) /\
    (forall f, opcode f = PONG -> echo_events [Some f] = [Popped (Some f)]) /\
    (forall f, is_data f = true ->
               echo_events [Some f] = [Popped (Some f); Sent (encode f)]) /\
    (forall j f, nth_error rs j = Some (Some f) -> opcode f = CLOSE ->
                 S j = List.length rs) /\
    (g_running s = true -> (List.length rs < List.length env)%nat ->
     exists f, nth_error rs (List.length rs - 1) = Some (Some f) /\
               opcode f = CLOSE) /\
    (forall f, is_data f = true -> size (encode f) < 2 ^ 64 ->
               decode (encode f) = Ok (f, size (encode f))) /\
    g_connected (websocket_server_thread env s) = false.
Proof.
  intros s hello pong bye env.
  assert (H1 : g_test_mode s = false) by reflexivity.
  split; [exact H1|].
  split; [vm_compute; reflexivity|].
  split; [reflexivity|].
  split; [vm_compute; reflexivity|].
  exact (interactive_echo_mode env s H1).
Defined.

(** * Further properties of the codec *)

Lemma lor_lt_pow2 a b n :
  0 <= n -> 0 <= a < 2 ^ n -> 0 <= b < 2 ^ n -> 0 <= Z.lor a b < 2 ^ n.
Proof.
  intros Hn Ha Hb. split; [apply Z.lor_nonneg; lia|].
  destruct (Z.eq_dec (Z.lor a b) 0) as [E|E]; [rewrite E; lia|].
  assert (0 < Z.lor a b) by (pose proof (proj2 (Z.lor_nonneg a b) (conj (proj1 Ha) (proj1 Hb))); lia).
  apply Z.log2_lt_pow2; [assumption|].
  rewrite Z.log2_lor by lia.
  apply Z.max_lub_lt.
  - destruct (Z.eq_dec a 0) as [->|]; [|apply Z.log2_lt_pow2; lia].
    destruct (Z.eq_dec n 0) as [->|]; [|cbn; lia].
    exfalso. assert (b = 0) as -> by (cbn in Hb; lia). apply E. reflexivity.
  - destruct (Z.eq_dec b 0) as [->|]; [|apply Z.log2_lt_pow2; lia].
    destruct (Z.eq_dec n 0) as [->|]; [|cbn; lia].
    exfalso. assert (a = 0) as -> by (cbn in Ha; lia). apply E. reflexivity.
Qed.

Lemma wrap64_range z : 0 <= wrap64 z < 2 ^ 64.
Proof. unfold wrap64. apply Z.mod_pos_bound. lia. Qed.

Lemma read_length64_range d off idx acc v :
  read_length64 d off idx acc = Ok v -> 0 <= acc < 2 ^ 64 -> 0 <= v < 2 ^ 64.
Proof.
  revert acc. induction idx as [|i idx IH]; intros acc H Hacc; cbn [read_length64] in H.
  - injection H as <-. exact Hacc.
  - destruct (read d (off + i)) as [b| | |] eqn:R; try discriminate H.
    cbn [bind] in H. apply (IH _ H).
    apply lor_lt_pow2; [lia | apply wrap64_range|].
    pose proof (read_range _ _ _ R). lia.
Qed.

Lemma land_nonneg_lt a m : 0 <= a -> 0 <= m -> 0 <= Z.land a m <= m.
Proof.
  intros Ha Hm. split; [apply Z.land_nonneg; lia|].
  destruct (Z.eq_dec (Z.land a m) 0) as [E|E]; [lia|].
  assert (Hsub : Z.lor (Z.land a m) m = m).
  { apply Z.bits_inj'. intros i Hi.
    rewrite Z.lor_spec, Z.land_spec.
    destruct (Z.testbit a i), (Z.testbit m i); reflexivity. }
  assert (Hdis : Z.land (Z.land a m) (Z.ldiff m (Z.land a m)) = 0).
  { apply Z.bits_inj'. intros i Hi.
    rewrite Z.land_spec, Z.ldiff_spec, Z.land_spec, Z.bits_0.
    destruct (Z.testbit a i), (Z.testbit m i); reflexivity. }
  assert (Hsum : Z.land a m + Z.ldiff m (Z.land a m) = m).
  { rewrite <- Z.or_to_plus by exact Hdis.
    apply Z.bits_inj'. intros i Hi.
    rewrite Z.lor_spec, Z.ldiff_spec, Z.land_spec.
    destruct (Z.testbit a i), (Z.testbit m i); reflexivity. }
  assert (0 <= Z.ldiff m (Z.land a m)) by (apply Z.ldiff_nonneg; lia).
  lia.
Qed.

(** What a parsed header can hold: an opcode of four bits, a length below
    [2 ^ 64], an offset of at most 14 bytes that lies in the buffer. *)
Lemma parse_header_range d h :
  parse_header d = Ok h ->
  2 <= h_offset h <= 14 /\ h_offset h <= size d /\
  0 <= h_length h < 2 ^ 64 /\ byte.unsigned (h_opcode h) < 16.
Proof.
  unfold parse_header. intros H.
  header_path H;
    match type of H with Ok ?x = Ok _ => assert (h = x) by congruence end;
    subst h; clear H; cbn [h_offset h_length h_opcode];
    repeat match goal with
    | R : read _ _ = Ok _ |- _ => apply read_range in R
    | R : read_length64 _ _ _ _ = Ok _ |- _ =>
        apply read_length64_range in R; [|lia]
    end;
    (split; [lia|]); (split; [lia|]); split.
  all: try (rewrite unsigned_of_Z_small;
            [ pose proof (land_nonneg_lt a 15); lia
            | pose proof (land_nonneg_lt a 15); lia ]).
  all: try (pose proof (land_nonneg_lt a0 127); lia).
  all: try (rewrite lor_shiftl_8 by lia; nia).
  all: lia.
Qed.

Lemma read_in_bounds d i : 0 <= i < size d -> exists v, read d i = Ok v.
Proof.
  unfold read, size. intros H.
  destruct (nth_error d (Z.to_nat i)) as [b|] eqn:E.
  - exists (byte.unsigned b). reflexivity.
  - apply nth_error_None in E. lia.
Qed.

Lemma read_length64_in_bounds d off idx acc :
  Forall (fun i => 0 <= off + i < size d) idx ->
  exists v, read_length64 d off idx acc = Ok v.
Proof.
  revert acc. induction idx as [|i idx IH]; intros acc H; cbn [read_length64].
  - exists acc. reflexivity.
  - inversion H as [|? ? H1 H2]; subst.
    destruct (read_in_bounds d (off + i) H1) as [v R]. rewrite R. cbn [bind].
    apply IH. exact H2.
Qed.

(** The header stage never reads out of bounds: each of its reads comes
    after the test on [size] that covers it. *)
Lemma parse_header_no_fault d : parse_header d <> Fault.
Proof.
  unfold parse_header.
  repeat first
    [ discriminate
    | progress cbn [bind negb]
    | match goal with
      | |- context [if ?a <? ?b then _ else _] =>
          let G := fresh "G" in
          destruct (a <? b) eqn:G; [ | apply Z.ltb_ge in G]
      end
    | match goal with
      | |- context [read d ?i] =>
          let v := fresh "v" in let R := fresh "R" in
          destruct (read_in_bounds d i ltac:(lia)) as [v R]; rewrite R
      end
    | match goal with
      | |- context [read_length64 d ?o ?l ?a] =>
          let v := fresh "v" in let R := fresh "R" in
          destruct (read_length64_in_bounds d o l a
                      ltac:(repeat constructor; lia)) as [v R];
          rewrite R
      end
    | match goal with
      | |- context [if ?c then _ else _] => destruct c
      end ].
Qed.

(** Nor does it throw: it allocates nothing. *)
Lemma parse_header_no_throw d : parse_header d <> Throw.
Proof.
  unfold parse_header.
  repeat first
    [ discriminate
    | progress cbn [bind negb]
    | match goal with
      | |- context [if ?a <? ?b then _ else _] =>
          let G := fresh "G" in
          destruct (a <? b) eqn:G; [ | apply Z.ltb_ge in G]
      end
    | match goal with
      | |- context [read d ?i] =>
          let v := fresh "v" in let R := fresh "R" in
          destruct (read_in_bounds d i ltac:(lia)) as [v R]; rewrite R
      end
    | match goal with
      | |- context [read_length64 d ?o ?l ?a] =>
          let v := fresh "v" in let R := fresh "R" in
          destruct (read_length64_in_bounds d o l a
                      ltac:(repeat constructor; lia)) as [v R];
          rewrite R
      end
    | match goal with
      | |- context [if ?c then _ else _] => destruct c
      end ].
Qed.

(** The payload loop either finds [length - i] bytes and returns that many,
    or runs out of buffer; it never returns [std::nullopt]. *)
Lemma copy_payload_outcome m rest : forall i n,
  (n - i <= size rest -> exists p, copy_payload m rest i n = Ok p) /\
  (size rest < n - i -> copy_payload m rest i n = Fault).
Proof.
  induction rest as [|b rest IH]; intros i n; cbn [copy_payload].
  - destruct (n <=? i) eqn:E.
    + apply Z.leb_le in E. split; [eexists; reflexivity|].
      unfold size; cbn [List.length]. lia.
    + apply Z.leb_gt in E. split; [|reflexivity].
      unfold size; cbn [List.length]. lia.
  - rewrite size_cons. pose proof (size_nonneg rest) as Hr.
    destruct (n <=? i) eqn:E.
    + apply Z.leb_le in E. split; [eexists; reflexivity | lia].
    + apply Z.leb_gt in E. destruct (IH (i + 1) n) as [IH1 IH2]. split; intros H.
      * destruct IH1 as [p Hp]; [lia|]. rewrite Hp. cbn [bind]. eexists; reflexivity.
      * rewrite IH2 by lia. reflexivity.
Qed.

Lemma size_skipn n d : (n <= List.length d)%nat ->
  size (skipn n d) = size d - Z.of_nat n.
Proof. intros H. unfold size. rewrite length_skipn. lia. Qed.

(** [decode] in terms of its header: the outcomes and when each is
    reached. *)
Lemma decode_cases d h :
  parse_header d = Ok h ->
  (size d < wrap64 (h_offset h + h_length h) -> decode d = Nullopt) /\
  (wrap64 (h_offset h + h_length h) <= size d ->
   size d - h_offset h < h_length h ->
   decode d = if max_size (size d) <? h_length h then Throw else Fault) /\
  (wrap64 (h_offset h + h_length h) <= size d ->
   h_length h <= size d - h_offset h ->
   exists p, decode d = Ok (mkFrame (h_fin h) (h_opcode h) p,
                            wrap64 (h_offset h + h_length h)) /\
             size p = h_length h).
Proof.
  intros Hh. unfold decode. rewrite Hh. cbn [bind].
  destruct (parse_header_range _ _ Hh) as (Ho & Hod & Hl & _).
  assert (Hsk : size (skipn (Z.to_nat (h_offset h)) d) = size d - h_offset h).
  { rewrite size_skipn by (unfold size in Hod; lia). lia. }
  destruct (copy_payload_outcome (h_mask h) (skipn (Z.to_nat (h_offset h)) d)
              0 (h_length h)) as [Hok Hbad].
  split; [|split].
  - intros H. apply Z.ltb_lt in H. rewrite H. reflexivity.
  - intros H1 H2. apply Z.ltb_ge in H1. rewrite H1.
    rewrite Hbad by lia. unfold resize.
    destruct (max_size (size d) <? h_length h); reflexivity.
  - intros H1 H2. apply Z.ltb_ge in H1. rewrite H1.
    rewrite resize_Ok by lia. cbn [bind].
    destruct Hok as [p Hp]; [lia|]. rewrite Hp. cbn [bind].
    exists p. split; [reflexivity|].
    destruct (copy_payload_Ok_size _ _ _ _ _ Hp) as [Hs _]; lia.
Qed.

Lemma decode_Ok_inv d f n :
  decode d = Ok (f, n) ->
  exists h,
    parse_header d = Ok h /\
    wrap64 (h_offset h + h_length h) <= size d /\
    h_length h <= size d - h_offset h /\
    n = wrap64 (h_offset h + h_length h) /\
    size (payload f) = h_length h /\
    opcode f = h_opcode h /\ fin f = h_fin h.
Proof.
  intros H. destruct (parse_header d) as [h| | |] eqn:Hh.
  - exists h. split; [reflexivity|].
    destruct (decode_cases d h Hh) as (Hn & Hf & Hk).
    destruct (Z_lt_le_dec (size d) (wrap64 (h_offset h + h_length h))) as [L|L].
    { rewrite (Hn L) in H. discriminate H. }
    destruct (Z_lt_le_dec (size d - h_offset h) (h_length h)) as [L'|L'].
    { rewrite (Hf L L') in H.
      destruct (max_size (size d) <? h_length h); discriminate H. }
    destruct (Hk L L') as (p & Hp & Hs). rewrite Hp in H.
    injection H as <- <-. cbn [payload opcode fin]. repeat split; assumption.
  - unfold decode in H. rewrite Hh in H. discriminate H.
  - unfold decode in H. rewrite Hh in H. discriminate H.
  - unfold decode in H. rewrite Hh in H. discriminate H.
Qed.

(** X1.  A frame that [decode] returns lies in the buffer: the consumed
    count is at least 2 and at most the size of the buffer, it is the
    payload length plus a header of 2 to 14 bytes, and the opcode has four
    bits.  A caller that advances by the consumed count makes progress and
    stays inside the buffer. *)
Theorem decode_frame_within_buffer (d : list byte) (f : WsFrame) (n : Z) :
  size d < 2 ^ 64 ->
  decode d = Ok (f, n) ->
  2 <= n <= size d /\
  2 <= n - size (payload f) <= 14 /\
  byte.unsigned (opcode f) < 16.
Proof.
  intros Hsz H.
  destruct (decode_Ok_inv d f n H) as (h & Hh & Hw & Hl & Hn & Hp & Ho & _).
  destruct (parse_header_range d h Hh) as (Hoff & Hod & Hlen & Hop).
  rewrite wrap64_small in Hn by lia. rewrite Ho, Hp. lia.
Qed.

Lemma decode_frame_within_buffer_witness :
  let d := bytes_of [0x81; 0x85; 0x37; 0xFA; 0x21; 0x3D;
                     0x7F; 0x9F; 0x4D; 0x51; 0x58; 0x88; 0x00] in
  let f := mkFrame true TEXT (list_byte_of_string "Hello") in
  size d < 2 ^ 64 /\ decode d = Ok (f, 11) /\
  2 <= 11 <= size d /\ 2 <= 11 - size (payload f) <= 14 /\
  byte.unsigned (opcode f) < 16.
Proof.
  intros d f.
  assert (H1 : size d < 2 ^ 64) by (vm_compute; reflexivity).
  assert (H2 : decode d = Ok (f, 11)) by (vm_compute; reflexivity).
  exact (conj H1 (conj H2 (decode_frame_within_buffer d f 11 H1 H2))).
Defined.

(** X2.  Insufficient data stays insufficient: when [decode] answers
    [std::nullopt] on a buffer it answers [std::nullopt] on every prefix of
    it, and never reads out of bounds there. *)
Theorem decode_nullopt_prefix (p s : list byte) :
  decode (p ++ s) = Nullopt -> decode p = Nullopt.
Proof.
  intros H. pose proof (size_nonneg s) as Hs.
  destruct (parse_header (p ++ s)) as [h| | |] eqn:Hh.
  - destruct (decode_cases _ h Hh) as (Hn & Hf & Hk).
    assert (L : size (p ++ s) < wrap64 (h_offset h + h_length h)).
    { destruct (Z_lt_le_dec (size (p ++ s)) (wrap64 (h_offset h + h_length h)))
        as [L|L]; [exact L|].
      destruct (Z_lt_le_dec (size (p ++ s) - h_offset h) (h_length h)) as [L'|L'].
      - rewrite (Hf L L') in H.
        destruct (max_size (size (p ++ s)) <? h_length h); discriminate H.
      - destruct (Hk L L') as (q & Hq & _). rewrite Hq in H. discriminate H. }
    destruct (Z_lt_le_dec (size p) (h_offset h)) as [Ho|Ho].
    + unfold decode. rewrite (parse_header_prefix_lt _ _ _ Hh Ho). reflexivity.
    + pose proof (parse_header_prefix_ge _ _ _ Hh Ho) as Hp.
      apply (proj1 (decode_cases p h Hp)). rewrite size_app in L. lia.
  - destruct (parse_header p) as [h| | |] eqn:Hp.
    + rewrite (parse_header_app _ s _ Hp) in Hh. discriminate Hh.
    + unfold decode. rewrite Hp. reflexivity.
    + exfalso. exact (parse_header_no_throw p Hp).
    + exfalso. exact (parse_header_no_fault p Hp).
  - exfalso. exact (parse_header_no_throw _ Hh).
  - exfalso. exact (parse_header_no_fault _ Hh).
Qed.

Lemma decode_nullopt_prefix_witness :
  let p := bytes_of [0x81; 0x7E; 0x01] in
  let s := bytes_of [0x00; 0x41; 0x42] in
  decode (p ++ s) = Nullopt /\ decode p = Nullopt.
Proof.
  intros p s.
  assert (H : decode (p ++ s) = Nullopt) by (vm_compute; reflexivity).
  exact (conj H (decode_nullopt_prefix p s H)).
Defined.

(** X3.  [decode] stays inside the buffer, and throws exactly at the wrap.
    On a buffer of at most [2 ^ 63 - 1] bytes, where [max_size] is
    [2 ^ 63 - 1], no read of [decode] is out of bounds; the call ends in the [std::length_error] of [resize] exactly
    when [offset + length] leaves 64 bits and its wrapped value is at most
    the size of the buffer; so a header whose declared length is below
    [2 ^ 64 - 14] is always answered by a frame or by [std::nullopt]. *)
Theorem decode_throws_iff_wrap (d : list byte) :
  size d <= 2 ^ 63 - 1 ->
  max_size (size d) = 2 ^ 63 - 1 /\
  decode d <> Fault /\
  (decode d = Throw <->
   exists h, parse_header d = Ok h /\
             2 ^ 64 <= h_offset h + h_length h /\
             h_offset h + h_length h - 2 ^ 64 <= size d) /\
  (forall h, parse_header d = Ok h -> h_length h < 2 ^ 64 - 14 ->
             decode d = Nullopt \/ exists r, decode d = Ok r).
Proof.
  intros Hsz.
  assert (W : forall h, parse_header d = Ok h ->
              2 ^ 64 <= h_offset h + h_length h ->
              wrap64 (h_offset h + h_length h) = h_offset h + h_length h - 2 ^ 64).
  { intros h Hh Hw. destruct (parse_header_range d h Hh) as (Ho & _ & Hl & _).
    unfold wrap64.
    replace (h_offset h + h_length h)
      with ((h_offset h + h_length h - 2 ^ 64) + 1 * 2 ^ 64) at 1 by lia.
    rewrite Z.mod_add by lia. apply Z.mod_small. lia. }
  (* past the test with too few bytes left: the sum has wrapped, and the
     declared length is beyond [max_size] *)
  assert (K : forall h, parse_header d = Ok h ->
              wrap64 (h_offset h + h_length h) <= size d ->
              size d - h_offset h < h_length h ->
              2 ^ 64 <= h_offset h + h_length h /\
              (max_size (size d) <? h_length h) = true).
  { intros h Hh L L'. destruct (parse_header_range d h Hh) as (Ho & Hod & Hl & _).
    assert (S : 2 ^ 64 <= h_offset h + h_length h).
    { destruct (Z_lt_le_dec (h_offset h + h_length h) (2 ^ 64)) as [S|S]; [|exact S].
      rewrite wrap64_small in L by lia. lia. }
    split; [exact S|]. apply Z.ltb_lt. unfold max_size. lia. }
  assert (C : forall h, parse_header d = Ok h ->
              decode d = Nullopt \/
              (decode d = Throw /\ 2 ^ 64 <= h_offset h + h_length h /\
               h_offset h + h_length h - 2 ^ 64 <= size d) \/
              (exists r, decode d = Ok r /\ h_offset h + h_length h < 2 ^ 64)).
  { intros h Hh. destruct (parse_header_range d h Hh) as (Ho & Hod & Hl & _).
    destruct (decode_cases d h Hh) as (Hn & Hf & Hk).
    destruct (Z_lt_le_dec (size d) (wrap64 (h_offset h + h_length h))) as [L|L].
    { left. exact (Hn L). }
    destruct (Z_lt_le_dec (size d - h_offset h) (h_length h)) as [L'|L'].
    - right. left. destruct (K h Hh L L') as [S T].
      rewrite (Hf L L'), T. split; [reflexivity|]. split; [exact S|].
      rewrite (W h Hh S) in L. exact L.
    - right. right. destruct (Hk L L') as (q & Hq & _).
      eexists. split; [exact Hq | lia]. }
  split; [unfold max_size; lia|].
  split; [|split].
  - intros H. destruct (parse_header d) as [h| | |] eqn:Hh.
    + destruct (C h eq_refl) as [E | [(E & _) | (r & E & _)]];
        rewrite E in H; discriminate H.
    + unfold decode in H. rewrite Hh in H. discriminate H.
    + exact (parse_header_no_throw d Hh).
    + exact (parse_header_no_fault d Hh).
  - split.
    + intros H. destruct (parse_header d) as [h| | |] eqn:Hh.
      * exists h. split; [reflexivity|].
        destruct (C h eq_refl) as [E | [(_ & S & L) | (r & E & _)]];
          [rewrite E in H; discriminate H | split; assumption
          | rewrite E in H; discriminate H].
      * unfold decode in H. rewrite Hh in H. discriminate H.
      * exfalso. exact (parse_header_no_throw d Hh).
      * exfalso. exact (parse_header_no_fault d Hh).
    + intros (h & Hh & Hw & Hle).
      destruct (C h Hh) as [E | [(E & _) | (r & _ & S)]]; [|exact E|lia].
      exfalso. destruct (parse_header_range d h Hh) as (Ho & Hod & Hl & _).
      destruct (decode_cases d h Hh) as (_ & Hf & _).
      rewrite Hf in E.
      * destruct (max_size (size d) <? h_length h); discriminate E.
      * rewrite (W h Hh Hw). exact Hle.
      * lia.
  - intros h Hh Hlt. destruct (parse_header_range d h Hh) as (Ho & _).
    destruct (C h Hh) as [E | [(_ & S & _) | (r & E & _)]].
    + left. exact E.
    + lia.
    + right. exists r. exact E.
Qed.

Lemma decode_throws_iff_wrap_witness :
  size hostile_length <= 2 ^ 63 - 1 /\
  max_size (size hostile_length) = 2 ^ 63 - 1 /\
  decode hostile_length <> Fault /\
  (decode hostile_length = Throw <->
   exists h, parse_header hostile_length = Ok h /\
             2 ^ 64 <= h_offset h + h_length h /\
             h_offset h + h_length h - 2 ^ 64 <= size hostile_length) /\
  (forall h, parse_header hostile_length = Ok h -> h_length h < 2 ^ 64 - 14 ->
             decode hostile_length = Nullopt \/ exists r, decode hostile_length = Ok r).
Proof.
  assert (H : size hostile_length <= 2 ^ 63 - 1) by (vm_compute; discriminate).
  exact (conj H (decode_throws_iff_wrap hostile_length H)).
Defined.

(** X4.  What [decode] returns depends on the consumed bytes only: the
    first [n] bytes alone decode to the same frame, and so do they with any
    bytes put after them. *)
Theorem decode_depends_on_consumed (d r : list byte) (f : WsFrame) (n : Z) :
  size d < 2 ^ 64 ->
  decode d = Ok (f, n) ->
  decode (firstn (Z.to_nat n) d) = Ok (f, n) /\
  decode (firstn (Z.to_nat n) d ++ r) = Ok (f, n).
Proof.
  intros Hsz H.
  assert (E : decode (firstn (Z.to_nat n) d) = Ok (f, n)).
  { destruct (decode_Ok_inv d f n H) as (h & Hh & Hw & Hl & Hn & Hp & Ho & Hf).
    destruct (parse_header_range d h Hh) as (Hoff & Hod & Hlen & _).
    rewrite wrap64_small in Hn, Hw by lia.
    set (p := firstn (Z.to_nat n) d). set (s := skipn (Z.to_nat n) d).
    assert (Hd : d = p ++ s) by (symmetry; apply firstn_skipn).
    assert (Hps : size p = n).
    { unfold p, size. rewrite length_firstn. unfold size in Hw. lia. }
    rewrite Hd in Hh.
    assert (Hhp : parse_header p = Ok h)
      by (apply (parse_header_prefix_ge p s h Hh); lia).
    destruct (proj2 (proj2 (decode_cases p h Hhp))) as (q & Hq & _).
    - rewrite wrap64_small by lia. lia.
    - lia.
    - pose proof (decode_app p s _ _ Hq) as Hq'.
      rewrite <- Hd, H in Hq'. rewrite Hq. symmetry. exact Hq'. }
  split; [exact E | apply decode_app; exact E].
Qed.

Lemma decode_depends_on_consumed_witness :
  let d := bytes_of [0x8A; 0x02; 0x68; 0x69; 0x81; 0x7F] in
  let r := bytes_of [0xFF; 0xFF] in
  let f := mkFrame true PONG (bytes_of [0x68; 0x69]) in
  size d < 2 ^ 64 /\ decode d = Ok (f, 4) /\
  decode (firstn (Z.to_nat 4) d) = Ok (f, 4) /\
  decode (firstn (Z.to_nat 4) d ++ r) = Ok (f, 4).
Proof.
  intros d r f.
  assert (H1 : size d < 2 ^ 64) by (vm_compute; reflexivity).
  assert (H2 : decode d = Ok (f, 4)) by (vm_compute; reflexivity).
  exact (conj H1 (conj H2 (decode_depends_on_consumed d r f 4 H1 H2))).
Defined.

(** X5.  [encode] is injective on frames with an opcode of four bits: two
    such frames with the same encoding are the same frame. *)
Theorem encode_injective (f1 f2 : WsFrame) :
  byte.unsigned (opcode f1) < 16 ->
  byte.unsigned (opcode f2) < 16 ->
  size (encode f1) < 2 ^ 64 ->
  encode f1 = encode f2 ->
  f1 = f2.
Proof.
  intros H1 H2 Hsz E.
  pose proof (decode_encode_ok f1 H1 Hsz) as D1.
  assert (Hsz2 : size (encode f2) < 2 ^ 64) by (rewrite <- E; exact Hsz).
  pose proof (decode_encode_ok f2 H2 Hsz2) as D2.
  rewrite E, D2 in D1. injection D1 as D1. symmetry. exact D1.
Qed.

Lemma encode_injective_witness :
  let f := mkFrame false BINARY (bytes_of [0x00; 0xFF]) in
  byte.unsigned (opcode f) < 16 /\ size (encode f) < 2 ^ 64 /\
  encode f = encode f /\ f = f.
Proof.
  intros f.
  assert (H1 : byte.unsigned (opcode f) < 16) by (vm_compute; reflexivity).
  assert (H2 : size (encode f) < 2 ^ 64) by (vm_compute; reflexivity).
  exact (conj H1 (conj H2 (conj eq_refl (encode_injective f f H1 H1 H2 eq_refl)))).
Defined.

(** X6.  The layout of an encoded frame: a header of 2, 4 or 10 bytes by
    the payload length (up to 125, up to 65535, above), the MASK bit of
    byte 1 never set, and the payload bytes as they are behind the
    header. *)
Theorem encode_layout (f : WsFrame) :
  let hdr := if size (payload f) <=? 125 then 2
             else if size (payload f) <=? 65535 then 4 else 10 in
  size (encode f) = hdr + size (payload f) /\
  skipn (Z.to_nat hdr) (encode f) = payload f /\
  exists b0 b1 tl,
    encode f = b0 :: b1 :: tl /\
    Z.land (byte.unsigned b1) 0x80 = 0 /\
    Z.land (byte.unsigned b1) 0x7F
      = (if size (payload f) <=? 125 then size (payload f)
         else if size (payload f) <=? 65535 then 126 else 127).
Proof.
  pose proof (size_nonneg (payload f)) as Hp.
  cbv zeta. unfold encode.
  destruct (size (payload f) <=? 125) eqn:E1;
    [|destruct (size (payload f) <=? 65535) eqn:E2]; cbn [app map].
  - apply Z.leb_le in E1. rewrite !size_cons.
    split; [lia|]. split; [reflexivity|].
    eexists _, _, _. split; [reflexivity|].
    rewrite unsigned_of_Z_small by lia.
    split; [apply land_0x80 | apply land_0x7F]; lia.
  - rewrite !size_cons. split; [lia|]. split; [reflexivity|].
    eexists _, _, _. split; [reflexivity|]. split; reflexivity.
  - rewrite !size_cons. split; [lia|]. split; [reflexivity|].
    eexists _, _, _. split; [reflexivity|]. split; reflexivity.
Qed.

(** * Properties of the codec of the page *)

Lemma to_int32_small z : - 2 ^ 31 <= z < 2 ^ 31 -> to_int32 z = z.
Proof. intros H. unfold to_int32. rewrite Z.mod_small; lia. Qed.

Lemma shiftr_range n k : 0 <= n -> 0 <= k -> 0 <= Z.shiftr n k <= n.
Proof.
  intros Hn Hk. rewrite Z.shiftr_div_pow2 by lia. split.
  - apply Z.div_pos; lia.
  - apply Z.div_le_upper_bound; nia.
Qed.

Lemma js_and_shr_0xFF n k :
  0 <= n < 2 ^ 31 -> 0 <= k < 32 ->
  js_and (js_shr n k) 0xFF = Z.land (Z.shiftr n k) 0xFF.
Proof.
  intros Hn Hk. unfold js_and, js_shr.
  assert (Hk' : Z.land k 31 = k).
  { change 31 with (Z.ones 5). rewrite Z.land_ones by lia. apply Z.mod_small. lia. }
  rewrite Hk', (to_int32_small n) by lia.
  pose proof (shiftr_range n k ltac:(lia) ltac:(lia)).
  rewrite !to_int32_small by lia. reflexivity.
Qed.

Lemma js_and_0xFF n : 0 <= n < 2 ^ 31 -> js_and n 0xFF = Z.land n 0xFF.
Proof. intros Hn. unfold js_and. rewrite !to_int32_small by lia. reflexivity. Qed.

Lemma js_or_0x80 n : 0 <= n < 2 ^ 31 -> js_or 0x80 n = Z.lor 0x80 n.
Proof. intros Hn. unfold js_or. rewrite !to_int32_small by lia. reflexivity. Qed.

(** A byte with the top bit set by [0x80 | n]. *)
Lemma lor_0x80_parts n :
  0 <= n < 128 ->
  0 <= Z.lor 0x80 n < 256 /\
  Z.land (Z.lor 0x80 n) 0x80 = 0x80 /\
  Z.land (Z.lor 0x80 n) 0x7F = n.
Proof.
  intros H. split; [|split].
  - change 256 with (2 ^ 8). apply lor_lt_pow2; lia.
  - rewrite Z.land_lor_distr_l, (land_0x80 n) by lia. reflexivity.
  - rewrite Z.land_lor_distr_l, (land_0x7F n) by lia. reflexivity.
Qed.

Lemma land_0x0F n : 0 <= n < 16 -> Z.land n 0x0F = n.
Proof.
  intros H. change 0x0F with (Z.ones 4).
  rewrite Z.land_ones by lia. apply Z.mod_small; lia.
Qed.

Lemma lxor_lt_256 a b : 0 <= a < 256 -> 0 <= b < 256 -> 0 <= Z.lxor a b < 256.
Proof.
  intros Ha Hb. split; [apply Z.lxor_nonneg; lia|].
  destruct (Z.eq_dec (Z.lxor a b) 0) as [E|E]; [rewrite E; lia|].
  assert (0 <= Z.lxor a b) by (apply Z.lxor_nonneg; lia).
  change 256 with (2 ^ 8). apply Z.log2_lt_pow2; [lia|].
  eapply Z.le_lt_trans; [apply Z.log2_lxor; lia|].
  apply Z.max_lub_lt.
  - destruct (Z.eq_dec a 0) as [->|]; [cbn; lia|]. apply Z.log2_lt_pow2; lia.
  - destruct (Z.eq_dec b 0) as [->|]; [cbn; lia|]. apply Z.log2_lt_pow2; lia.
Qed.

Lemma mask_key_range m i :
  0 <= nth (Z.to_nat (i mod 4)) (map byte.unsigned (mask_bytes m)) 0 < 256.
Proof.
  generalize (Z.to_nat (i mod 4)). intros n. unfold mask_bytes. cbn [map].
  do 4 (destruct n as [|n]; [cbn [nth]; pose proof (byte.unsigned_range (k0 m));
        pose proof (byte.unsigned_range (k1 m));
        pose proof (byte.unsigned_range (k2 m));
        pose proof (byte.unsigned_range (k3 m)); lia|]).
  destruct n; cbn [nth]; lia.
Qed.

(** Masking with a key and unmasking with the same key gives the byte
    back. *)
Lemma unmask_mask (b : byte) (k : Z) :
  0 <= k < 256 ->
  byte.of_Z (Z.lxor (byte.unsigned (byte.of_Z (js_xor (byte.unsigned b) k))) k) = b.
Proof.
  intros Hk. pose proof (byte.unsigned_range b) as Hb. cbn in Hb.
  unfold js_xor. rewrite !to_int32_small by lia.
  rewrite unsigned_of_Z_small by (apply lxor_lt_256; lia).
  rewrite Z.lxor_assoc, Z.lxor_nilpotent, Z.lxor_0_r.
  apply byte.of_Z_unsigned.
Qed.

Lemma copy_payload_mask_payload m p r i :
  copy_payload (map byte.unsigned (mask_bytes m)) (mask_payload m i p ++ r)
    i (i + size p) = Ok p.
Proof.
  revert i. induction p as [|b p IH]; intros i.
  - replace (i + size []) with i by (unfold size; simpl; lia).
    cbn [mask_payload app]. destruct r; cbn [copy_payload];
      rewrite Z.leb_refl; reflexivity.
  - cbn [mask_payload app copy_payload].
    pose proof (size_nonneg p) as Hp. rewrite size_cons.
    destruct (i + (1 + size p) <=? i) eqn:E; [apply Z.leb_le in E; lia|].
    replace (i + (1 + size p)) with ((i + 1) + size p) by lia.
    rewrite IH. cbn [bind].
    rewrite unmask_mask by apply mask_key_range. reflexivity.
Qed.

Lemma size_mask_payload m i p : size (mask_payload m i p) = size p.
Proof.
  revert i. induction p as [|b p IH]; intros i; [reflexivity|].
  cbn [mask_payload]. rewrite !size_cons, IH. reflexivity.
Qed.

(** Byte 0 of a frame of the page: FIN set, and the opcode. *)
Lemma page_byte0 op :
  0 <= op < 16 ->
  negb (Z.land (byte.unsigned (byte.of_Z (js_or 0x80 op))) 0x80 =? 0) = true /\
  byte.of_Z (Z.land (byte.unsigned (byte.of_Z (js_or 0x80 op))) 0x0F) = byte.of_Z op.
Proof.
  intros H. rewrite js_or_0x80 by lia.
  destruct (lor_0x80_parts op ltac:(lia)) as (Hr & H80 & _).
  rewrite unsigned_of_Z_small by lia. rewrite H80. split; [reflexivity|].
  rewrite Z.land_lor_distr_l, (land_0x0F op) by lia. reflexivity.
Qed.

(** The frames of up to 65535 payload bytes that the page encodes are
    decoded by [decode] to the payload, unmasked. *)
Lemma decode_encodeFrame_ok op p m :
  0 <= op < 16 ->
  size p <= 65535 ->
  decode (encodeFrame op p m)
  = Ok (mkFrame true (byte.of_Z op) p, size (encodeFrame op p m)).
Proof.
  intros Hop Hlen. pose proof (size_nonneg p) as Hp.
  destruct (page_byte0 op Hop) as [Hfin Hopc].
  unfold encodeFrame.
  set (byte0 := byte.of_Z (js_or 0x80 op)) in *.
  destruct (size p <=? 125) eqn:E1; [|destruct (size p <=? 65535) eqn:E2].
  - apply Z.leb_le in E1. unfold mask_bytes. cbn [app].
    unfold decode, parse_header. rewrite !size_cons, size_mask_payload.
    guard_false. read_cons. cbn [bind].
    rewrite js_or_0x80 by lia.
    destruct (lor_0x80_parts (size p) ltac:(lia)) as (Hr & H80 & H7F).
    rewrite unsigned_of_Z_small by lia. rewrite H80, H7F.
    destruct (size p =? 126) eqn:G1; [apply Z.eqb_eq in G1; lia|].
    destruct (size p =? 127) eqn:G2; [apply Z.eqb_eq in G2; lia|].
    cbn [bind negb Z.eqb]. guard_false. read_cons. cbn [bind].
    cbn [h_offset h_length h_mask h_fin h_opcode].
    rewrite wrap64_small by lia. guard_false.
    rewrite resize_Ok by lia. cbn [bind].
    change (Z.to_nat (2 + 4)) with 6%nat. cbn [skipn].
    pose proof (copy_payload_mask_payload m p [] 0) as Hc.
    rewrite app_nil_r in Hc. unfold mask_bytes in Hc. cbn [map] in Hc.
    cbn [Z.add] in Hc. rewrite Hc. cbn [bind].
    rewrite Hfin, Hopc. do 2 f_equal. lia.
  - apply Z.leb_gt in E1. apply Z.leb_le in E2. unfold mask_bytes. cbn [app].
    unfold decode, parse_header. rewrite !size_cons, size_mask_payload.
    guard_false. read_cons. cbn [bind].
    change (byte.unsigned (byte.of_Z (js_or 0x80 126))) with 254.
    change (Z.land 254 0x7F =? 126) with true.
    change (Z.land 254 0x80 =? 0) with false.
    cbv iota. guard_false. read_cons. cbn [bind negb].
    rewrite (js_and_shr_0xFF (size p) 8), (js_and_0xFF (size p)) by lia.
    rewrite !unsigned_of_Z_land, be16 by lia.
    guard_false. read_cons. cbn [bind].
    cbn [h_offset h_length h_mask h_fin h_opcode].
    rewrite wrap64_small by lia. guard_false.
    rewrite resize_Ok by lia. cbn [bind].
    change (Z.to_nat (2 + 2 + 4)) with 8%nat. cbn [skipn].
    pose proof (copy_payload_mask_payload m p [] 0) as Hc.
    rewrite app_nil_r in Hc. unfold mask_bytes in Hc. cbn [map] in Hc.
    cbn [Z.add] in Hc. rewrite Hc. cbn [bind].
    rewrite Hfin, Hopc. do 2 f_equal. lia.
  - apply Z.leb_gt in E2. lia.
Qed.

Lemma js_and_shr_any n k :
  0 <= n < 2 ^ 31 -> 0 <= k ->
  js_and (js_shr n k) 0xFF = Z.land (Z.shiftr n (Z.land k 31)) 0xFF.
Proof.
  intros Hn Hk. unfold js_and, js_shr.
  assert (Hk' : 0 <= Z.land k 31 <= 31) by (apply land_nonneg_lt; lia).
  rewrite (to_int32_small n) by lia.
  pose proof (shiftr_range n (Z.land k 31) ltac:(lia) ltac:(lia)).
  rewrite !to_int32_small by lia. reflexivity.
Qed.

(** The low byte of [n * 2 ^ 32 + n] shifted by [k] or by [k + 32] is the
    low byte of [n] shifted by [k], for [k] = 0, 8, 16, 24. *)
Lemma doubled_length_byte n j :
  0 <= n < 2 ^ 32 -> 0 <= j <= 3 ->
  Z.land (Z.shiftr (n * 2 ^ 32 + n) (j * 8 + 32)) 0xFF
    = Z.land (Z.shiftr n (j * 8)) 0xFF /\
  Z.land (Z.shiftr (n * 2 ^ 32 + n) (j * 8)) 0xFF
    = Z.land (Z.shiftr n (j * 8)) 0xFF.
Proof.
  intros Hn Hj. split.
  - replace (j * 8 + 32) with (32 + j * 8) by lia.
    rewrite <- Z.shiftr_shiftr by lia.
    replace (Z.shiftr (n * 2 ^ 32 + n) 32) with n; [reflexivity|].
    rewrite Z.shiftr_div_pow2 by lia.
    rewrite Z.div_add_l by lia. rewrite Z.div_small by lia. lia.
  - rewrite !land_0xFF, !Z.shiftr_div_pow2 by lia.
    replace (n * 2 ^ 32 + n)
      with ((n * 2 ^ (24 - j * 8) * 256) * 2 ^ (j * 8) + n).
    2:{ f_equal. rewrite <- !Z.mul_assoc. f_equal.
        change 256 with (2 ^ 8). rewrite <- !Z.pow_add_r by lia. f_equal. lia. }
    rewrite Z.div_add_l by (apply Z.pow_nonzero; lia).
    rewrite Z.add_comm, Z.mod_add by lia. reflexivity.
Qed.

(** The eight length bytes the page writes for a payload of [n] bytes are
    the big-endian bytes of [n * 2 ^ 32 + n]: the shift counts 56, 48, 40
    and 32 are taken modulo 32. *)
Lemma page_length_bytes n :
  0 <= n < 2 ^ 31 ->
  map (fun i => byte.of_Z (js_and (js_shr n (i * 8)) 0xFF)) [7; 6; 5; 4; 3; 2; 1; 0]
  = map (fun i => byte.of_Z (Z.land (Z.shiftr (n * 2 ^ 32 + n) (i * 8)) 0xFF))
        [7; 6; 5; 4; 3; 2; 1; 0].
Proof.
  intros Hn. cbn [map]. rewrite !js_and_shr_any by lia.
  change (Z.land (7 * 8) 31) with (3 * 8). change (Z.land (6 * 8) 31) with (2 * 8).
  change (Z.land (5 * 8) 31) with (1 * 8). change (Z.land (4 * 8) 31) with (0 * 8).
  change (Z.land (3 * 8) 31) with (3 * 8). change (Z.land (2 * 8) 31) with (2 * 8).
  change (Z.land (1 * 8) 31) with (1 * 8). change (Z.land (0 * 8) 31) with (0 * 8).
  assert (Hn' : 0 <= n < 2 ^ 32) by lia.
  destruct (doubled_length_byte n 3 Hn' ltac:(lia)) as [A3 B3].
  destruct (doubled_length_byte n 2 Hn' ltac:(lia)) as [A2 B2].
  destruct (doubled_length_byte n 1 Hn' ltac:(lia)) as [A1 B1].
  destruct (doubled_length_byte n 0 Hn' ltac:(lia)) as [A0 B0].
  change (3 * 8 + 32) with (7 * 8) in A3. change (2 * 8 + 32) with (6 * 8) in A2.
  change (1 * 8 + 32) with (5 * 8) in A1. change (0 * 8 + 32) with (4 * 8) in A0.
  rewrite A3, A2, A1, A0, B3, B2, B1, B0. reflexivity.
Qed.

(** A frame of the page with more than 65535 payload bytes declares the
    length [n * 2 ^ 32 + n], and [decode] waits for that many bytes. *)
Lemma decode_encodeFrame_long op p m :
  65535 < size p < 2 ^ 31 ->
  parse_header (encodeFrame op p m)
  = Ok (mkHeader (negb (Z.land (byte.unsigned (byte.of_Z (js_or 0x80 op))) 0x80 =? 0))
          (byte.of_Z (Z.land (byte.unsigned (byte.of_Z (js_or 0x80 op))) 0x0F))
          (map byte.unsigned (mask_bytes m))
          (size p * 2 ^ 32 + size p) 14) /\
  decode (encodeFrame op p m) = Nullopt.
Proof.
  intros Hlen.
  assert (Hh : parse_header (encodeFrame op p m)
    = Ok (mkHeader (negb (Z.land (byte.unsigned (byte.of_Z (js_or 0x80 op))) 0x80 =? 0))
          (byte.of_Z (Z.land (byte.unsigned (byte.of_Z (js_or 0x80 op))) 0x0F))
          (map byte.unsigned (mask_bytes m))
          (size p * 2 ^ 32 + size p) 14)).
  { unfold encodeFrame.
    set (byte0 := byte.of_Z (js_or 0x80 op)) in *.
    destruct (size p <=? 125) eqn:E1; [apply Z.leb_le in E1; lia|].
    destruct (size p <=? 65535) eqn:E2; [apply Z.leb_le in E2; lia|].
    rewrite page_length_bytes by lia.
    assert (HV : 0 <= size p * 2 ^ 32 + size p < 2 ^ 64) by lia.
    pose proof (read_length64_encode _ byte0 (byte.of_Z (js_or 0x80 127))
                  (mask_bytes m ++ mask_payload m 0 p) HV) as HL.
    unfold parse_header. cbn [app] in *.
    set (lenbytes := map (fun i => byte.of_Z
           (Z.land (Z.shiftr (size p * 2 ^ 32 + size p) (i * 8)) 0xFF))
           [7; 6; 5; 4; 3; 2; 1; 0]) in *.
    assert (Hlb : size lenbytes = 8) by reflexivity.
    rewrite !size_cons, !size_app, Hlb, size_mask_payload.
    change (size (mask_bytes m)) with 4.
    guard_false. read_cons. cbn [bind].
    change (byte.unsigned (byte.of_Z (js_or 0x80 127))) with 255.
    change (Z.land 255 0x7F =? 126) with false.
    change (Z.land 255 0x7F =? 127) with true.
    change (Z.land 255 0x80 =? 0) with false.
    cbv iota. guard_false. rewrite HL. cbn [bind negb]. guard_false.
    subst lenbytes. cbn [map app mask_bytes]. read_cons. cbn [bind].
    reflexivity. }
  split; [exact Hh|].
  apply (proj1 (decode_cases _ _ Hh)). cbn [h_offset h_length].
  rewrite wrap64_small by lia.
  unfold encodeFrame.
  destruct (size p <=? 125) eqn:E1; [apply Z.leb_le in E1; lia|].
  destruct (size p <=? 65535) eqn:E2; [apply Z.leb_le in E2; lia|].
  cbn [app map mask_bytes]. rewrite !size_cons, size_mask_payload. lia.
Qed.

(** [data[i]] at a literal index of an array whose first cells are known. *)
Ltac js_get_cons :=
  repeat match goal with
  | |- context [js_get ?d ?i] =>
      let n := eval vm_compute in (Z.to_nat i) in
      let e := eval cbn [nth] in (nth n d Byte.x00) in
      change (js_get d i) with (byte.unsigned e)
  end.

Lemma js_and_byte (b : byte) (k : Z) :
  0 <= k < 256 -> js_and (byte.unsigned b) k = Z.land (byte.unsigned b) k.
Proof.
  intros Hk. pose proof (byte.unsigned_range b) as Hb. cbn in Hb.
  unfold js_and. rewrite !to_int32_small by lia. reflexivity.
Qed.

Lemma shiftl_shiftr_le n j :
  0 <= n -> 0 <= j -> 0 <= Z.shiftl (Z.shiftr n (j + 8)) 8 <= n.
Proof.
  intros Hn Hj. rewrite <- Z.shiftr_shiftr by lia.
  pose proof (shiftr_range n j Hn Hj) as H1.
  rewrite (Z.shiftr_div_pow2 _ 8), Z.shiftl_mul_pow2 by lia.
  change (2 ^ 8) with 256.
  pose proof (Z_div_mod_eq_full (Z.shiftr n j) 256).
  pose proof (Z.mod_pos_bound (Z.shiftr n j) 256 eq_refl). lia.
Qed.

(** One turn of [len = (len << 8) | data[2 + i]] on the bytes of a length
    below [2 ^ 31]. *)
Lemma js_be_step n j :
  0 <= n < 2 ^ 31 -> 0 <= j ->
  js_or (js_shl (Z.shiftr n (j + 8)) 8)
        (byte.unsigned (byte.of_Z (Z.land (Z.shiftr n j) 0xFF)))
  = Z.shiftr n j.
Proof.
  intros Hn Hj. rewrite unsigned_of_Z_land.
  pose proof (shiftl_shiftr_le n j ltac:(lia) Hj) as Hs.
  pose proof (shiftr_range n (j + 8) ltac:(lia) ltac:(lia)) as Hr.
  assert (Hb : 0 <= Z.land (Z.shiftr n j) 0xFF < 256)
    by (rewrite land_0xFF; apply Z.mod_pos_bound; lia).
  unfold js_or, js_shl. change (Z.land 8 31) with 8.
  rewrite (to_int32_small (Z.shiftr n (j + 8))) by lia.
  rewrite !(to_int32_small (Z.shiftl (Z.shiftr n (j + 8)) 8)) by lia.
  rewrite (to_int32_small (Z.land (Z.shiftr n j) 0xFF)) by lia.
  rewrite <- (be64_step n j) at 2 by lia.
  rewrite wrap64_small by lia. reflexivity.
Qed.

Lemma js_length64_encode n b0 b1 rest :
  0 <= n < 2 ^ 31 ->
  js_length64
    (b0 :: b1 :: map (fun i => byte.of_Z (Z.land (Z.shiftr n (i * 8)) 0xFF))
                     [7; 6; 5; 4; 3; 2; 1; 0] ++ rest)
    [0; 1; 2; 3; 4; 5; 6; 7] 0 = n.
Proof.
  intros Hn. cbn [map app js_length64]. js_get_cons.
  assert (H64 : Z.shiftr n (56 + 8) = 0).
  { apply Z.shiftr_eq_0; [lia|].
    destruct (Z.eq_dec n 0) as [->|]; [reflexivity|].
    apply Z.log2_lt_pow2; lia. }
  rewrite <- H64 at 1.
  change (7 * 8) with 56. rewrite js_be_step by lia.
  change 56 with (48 + 8) at 1. change (6 * 8) with 48. rewrite js_be_step by lia.
  change 48 with (40 + 8) at 1. change (5 * 8) with 40. rewrite js_be_step by lia.
  change 40 with (32 + 8) at 1. change (4 * 8) with 32. rewrite js_be_step by lia.
  change 32 with (24 + 8) at 1. change (3 * 8) with 24. rewrite js_be_step by lia.
  change 24 with (16 + 8) at 1. change (2 * 8) with 16. rewrite js_be_step by lia.
  change 16 with (8 + 8) at 1. change (1 * 8) with 8. rewrite js_be_step by lia.
  change 8 with (0 + 8) at 1. change (0 * 8) with 0. rewrite js_be_step by lia.
  apply Z.shiftr_0_r.
Qed.

(** The payload of a frame, cut out of the buffer behind a header. *)
Lemma js_slice_payload hdr p rest :
  js_slice (hdr ++ p ++ rest) (size hdr) (size hdr + size p) = p.
Proof.
  unfold js_slice. pose proof (size_nonneg hdr). pose proof (size_nonneg p).
  pose proof (size_nonneg rest). rewrite !size_app.
  destruct (size hdr <? 0) eqn:E1; [apply Z.ltb_lt in E1; lia|].
  destruct (size hdr + size p <? 0) eqn:E2; [apply Z.ltb_lt in E2; lia|].
  rewrite !Z.min_l by lia.
  replace (Z.max (size hdr + size p - size hdr) 0) with (size p) by lia.
  unfold size. rewrite !Nat2Z.id.
  rewrite skipn_app, skipn_all, Nat.sub_diag. cbn [skipn app].
  rewrite firstn_app, firstn_all, Nat.sub_diag. cbn [firstn]. apply app_nil_r.
Qed.

(** The frames that [encode] writes are read back by [decodeFrame], up to
    a payload of [2 ^ 31] bytes. *)
Lemma decodeFrame_encode_app (f : WsFrame) (rest : list byte) :
  byte.unsigned (opcode f) < 16 ->
  size (payload f) < 2 ^ 31 ->
  decodeFrame (encode f ++ rest)
  = Some (mkJsFrame (fin f) (byte.unsigned (opcode f)) (payload f) (size (encode f))).
Proof.
  intros Hop Hlen. destruct f as [b op p]. cbn [fin opcode payload] in *.
  pose proof (size_nonneg p) as Hp. pose proof (size_nonneg rest) as Hr.
  assert (Hopc : Z.land (byte.unsigned (byte.of_Z
                   (Z.lor (if b then 0x80 else 0x00) (byte.unsigned op)))) 0x0F
                 = byte.unsigned op).
  { pose proof (byte0_opcode b op Hop) as H.
    apply (f_equal byte.unsigned) in H.
    rewrite unsigned_of_Z_small in H; [exact H|].
    pose proof (land_nonneg_lt (byte.unsigned (byte.of_Z
      (Z.lor (if b then 0x80 else 0x00) (byte.unsigned op)))) 15
      ltac:(apply byte.unsigned_range) ltac:(lia)). lia. }
  unfold encode. cbn [fin opcode payload].
  set (byte0 := byte.of_Z (Z.lor (if b then 0x80 else 0x00) (byte.unsigned op))) in *.
  destruct (size p <=? 125) eqn:E1; [|destruct (size p <=? 65535) eqn:E2].
  - apply Z.leb_le in E1. cbn [app].
    unfold decodeFrame. rewrite !size_cons, size_app.
    destruct (1 + (1 + (size p + size rest)) <? 2) eqn:G; [apply Z.ltb_lt in G; lia|].
    js_get_cons. rewrite !js_and_byte by lia.
    rewrite unsigned_of_Z_small by lia.
    rewrite land_0x80, land_0x7F by lia.
    destruct (size p =? 126) eqn:G1; [apply Z.eqb_eq in G1; lia|].
    destruct (size p =? 127) eqn:G2; [apply Z.eqb_eq in G2; lia|].
    cbn [negb Z.eqb].
    destruct (1 + (1 + (size p + size rest)) <? 2 + size p) eqn:G3;
      [apply Z.ltb_lt in G3; lia|].
    subst byte0. rewrite byte0_fin, Hopc by assumption.
    pose proof (js_slice_payload
      [byte.of_Z (Z.lor (if b then 0x80 else 0x00) (byte.unsigned op));
       byte.of_Z (size p)] p rest) as Hs.
    cbn [app] in Hs. change (size [_; _]) with 2 in Hs. rewrite Hs.
    do 2 f_equal. lia.
  - apply Z.leb_gt in E1. apply Z.leb_le in E2. cbn [app].
    unfold decodeFrame. rewrite !size_cons, size_app.
    destruct (1 + (1 + (1 + (1 + (size p + size rest)))) <? 2) eqn:G;
      [apply Z.ltb_lt in G; lia|].
    js_get_cons. rewrite !js_and_byte by lia.
    rewrite (unsigned_of_Z_small 126) by lia.
    change (Z.land 126 0x7F =? 126) with true.
    change (Z.land 126 0x80 =? 0) with true. cbv iota.
    destruct (1 + (1 + (1 + (1 + (size p + size rest)))) <? 4) eqn:G';
      [apply Z.ltb_lt in G'; lia|].
    cbn [negb].
    assert (Hlen16 : js_or (js_shl (byte.unsigned (byte.of_Z
                       (Z.land (Z.shiftr (size p) 8) 0xFF))) 8)
                       (byte.unsigned (byte.of_Z (Z.land (size p) 0xFF)))
                     = size p).
    { rewrite !unsigned_of_Z_land.
      assert (Hb1 : 0 <= Z.land (Z.shiftr (size p) 8) 0xFF < 256)
        by (rewrite land_0xFF; apply Z.mod_pos_bound; lia).
      assert (Hb0 : 0 <= Z.land (size p) 0xFF < 256)
        by (rewrite land_0xFF; apply Z.mod_pos_bound; lia).
      unfold js_or, js_shl. change (Z.land 8 31) with 8.
      rewrite (to_int32_small (Z.land (Z.shiftr (size p) 8) 0xFF)) by lia.
      assert (Hsh : 0 <= Z.shiftl (Z.land (Z.shiftr (size p) 8) 0xFF) 8 < 65536)
        by (rewrite Z.shiftl_mul_pow2 by lia; lia).
      rewrite !(to_int32_small (Z.shiftl (Z.land (Z.shiftr (size p) 8) 0xFF) 8)) by lia.
      rewrite (to_int32_small (Z.land (size p) 0xFF)) by lia.
      apply be16. lia. }
    rewrite Hlen16.
    destruct (1 + (1 + (1 + (1 + (size p + size rest)))) <? 4 + size p) eqn:G3;
      [apply Z.ltb_lt in G3; lia|].
    subst byte0. rewrite byte0_fin, Hopc by assumption.
    pose proof (js_slice_payload
      [byte.of_Z (Z.lor (if b then 0x80 else 0x00) (byte.unsigned op));
       byte.of_Z 126; byte.of_Z (Z.land (Z.shiftr (size p) 8) 0xFF);
       byte.of_Z (Z.land (size p) 0xFF)] p rest) as Hs.
    cbn [app] in Hs. change (size [_; _; _; _]) with 4 in Hs. rewrite Hs.
    do 2 f_equal. lia.
  - apply Z.leb_gt in E1. apply Z.leb_gt in E2.
    assert (Hn : 0 <= size p < 2 ^ 31) by lia.
    pose proof (js_length64_encode (size p) byte0 (byte.of_Z 127) (p ++ rest) Hn) as HL.
    pose proof (js_slice_payload
      (byte0 :: byte.of_Z 127 ::
       map (fun i => byte.of_Z (Z.land (Z.shiftr (size p) (i * 8)) 0xFF))
           [7; 6; 5; 4; 3; 2; 1; 0]) p rest) as Hs.
    change (size (byte0 :: byte.of_Z 127 :: map _ _)) with 10 in Hs.
    cbn [app map] in *.
    unfold decodeFrame. rewrite !size_cons, size_app.
    match goal with |- context [if ?c <? 2 then _ else _] =>
      destruct (c <? 2) eqn:G; [apply Z.ltb_lt in G; lia|] end.
    rewrite HL. js_get_cons. rewrite !js_and_byte by lia.
    rewrite (unsigned_of_Z_small 127) by lia.
    change (Z.land 127 0x7F =? 126) with false.
    change (Z.land 127 0x7F =? 127) with true.
    change (Z.land 127 0x80 =? 0) with true. cbv iota.
    match goal with |- context [if ?c <? 10 then _ else _] =>
      destruct (c <? 10) eqn:G'; [apply Z.ltb_lt in G'; lia|] end.
    cbn [negb].
    match goal with |- context [if ?c <? 10 + size p then _ else _] =>
      destruct (c <? 10 + size p) eqn:G3; [apply Z.ltb_lt in G3; lia|] end.
    subst byte0. rewrite byte0_fin, Hopc by assumption.
    rewrite Hs. do 2 f_equal. lia.
Qed.

(** * Properties of the frame loop of the page *)

Lemma size_firstn k l : (k <= List.length l)%nat -> size (firstn k l) = Z.of_nat k.
Proof. intros H. unfold size. rewrite length_firstn. lia. Qed.

(** A strict prefix of an encoded frame is not a frame for [decodeFrame]. *)
Lemma decodeFrame_encode_prefix (f : WsFrame) (k : nat) :
  size (payload f) < 2 ^ 31 ->
  (k < List.length (encode f))%nat ->
  decodeFrame (firstn k (encode f)) = None.
Proof.
  intros Hlen. destruct f as [b op p]. cbn [fin opcode payload] in *.
  pose proof (size_nonneg p) as Hp.
  unfold encode. cbn [fin opcode payload].
  set (byte0 := byte.of_Z (Z.lor (if b then 0x80 else 0x00) (byte.unsigned op))).
  destruct (size p <=? 125) eqn:E1; [|destruct (size p <=? 65535) eqn:E2].
  - apply Z.leb_le in E1. cbn [app List.length]. intros Hk.
    destruct k as [|[|k]]; [reflexivity | reflexivity |].
    cbn [firstn]. unfold decodeFrame.
    rewrite !size_cons, size_firstn by lia.
    destruct (1 + (1 + Z.of_nat k) <? 2) eqn:G; [reflexivity|].
    js_get_cons. rewrite !js_and_byte by lia.
    rewrite unsigned_of_Z_small by lia.
    rewrite land_0x80, land_0x7F by lia.
    destruct (size p =? 126) eqn:G1; [apply Z.eqb_eq in G1; lia|].
    destruct (size p =? 127) eqn:G2; [apply Z.eqb_eq in G2; lia|].
    cbn [negb Z.eqb].
    destruct (1 + (1 + Z.of_nat k) <? 2 + size p) eqn:G3; [reflexivity|].
    apply Z.ltb_ge in G3. unfold size in G3. lia.
  - apply Z.leb_gt in E1. apply Z.leb_le in E2. cbn [app List.length]. intros Hk.
    do 4 (destruct k as [|k]; [reflexivity|]).
    cbn [firstn]. unfold decodeFrame.
    rewrite !size_cons, size_firstn by lia.
    destruct (1 + (1 + (1 + (1 + Z.of_nat k))) <? 2) eqn:G; [reflexivity|].
    js_get_cons. rewrite !js_and_byte by lia.
    rewrite (unsigned_of_Z_small 126) by lia.
    change (Z.land 126 0x7F =? 126) with true.
    change (Z.land 126 0x80 =? 0) with true. cbv iota.
    destruct (1 + (1 + (1 + (1 + Z.of_nat k))) <? 4) eqn:G'; [reflexivity|].
    cbn [negb].
    match goal with |- context [js_or ?a ?c] =>
      replace (js_or a c) with (size p) end.
    2:{ rewrite !unsigned_of_Z_land.
        assert (Hb1 : 0 <= Z.land (Z.shiftr (size p) 8) 0xFF < 256)
          by (rewrite land_0xFF; apply Z.mod_pos_bound; lia).
        assert (Hb0 : 0 <= Z.land (size p) 0xFF < 256)
          by (rewrite land_0xFF; apply Z.mod_pos_bound; lia).
        unfold js_or, js_shl. change (Z.land 8 31) with 8.
        rewrite (to_int32_small (Z.land (Z.shiftr (size p) 8) 0xFF)) by lia.
        assert (Hsh : 0 <= Z.shiftl (Z.land (Z.shiftr (size p) 8) 0xFF) 8 < 65536)
          by (rewrite Z.shiftl_mul_pow2 by lia; lia).
        rewrite !(to_int32_small (Z.shiftl (Z.land (Z.shiftr (size p) 8) 0xFF) 8)) by lia.
        rewrite (to_int32_small (Z.land (size p) 0xFF)) by lia.
        symmetry. apply be16. lia. }
    destruct (1 + (1 + (1 + (1 + Z.of_nat k))) <? 4 + size p) eqn:G3; [reflexivity|].
    apply Z.ltb_ge in G3. unfold size in G3. lia.
  - apply Z.leb_gt in E1. apply Z.leb_gt in E2. cbn [app map List.length]. intros Hk.
    do 10 (destruct k as [|k]; [reflexivity|]).
    cbn [firstn].
    assert (Hn : 0 <= size p < 2 ^ 31) by lia.
    pose proof (js_length64_encode (size p) byte0 (byte.of_Z 127) (firstn k p) Hn) as HL.
    cbn [app map] in HL.
    unfold decodeFrame. rewrite !size_cons, size_firstn by lia.
    match goal with |- context [if ?c <? 2 then _ else _] =>
      destruct (c <? 2) eqn:G; [reflexivity|] end.
    rewrite HL. js_get_cons. rewrite !js_and_byte by lia.
    rewrite (unsigned_of_Z_small 127) by lia.
    change (Z.land 127 0x7F =? 126) with false.
    change (Z.land 127 0x7F =? 127) with true.
    change (Z.land 127 0x80 =? 0) with true. cbv iota.
    match goal with |- context [if ?c <? 10 then _ else _] =>
      destruct (c <? 10) eqn:G'; [reflexivity|] end.
    cbn [negb].
    match goal with |- context [if ?c <? 10 + size p then _ else _] =>
      destruct (c <? 10 + size p) eqn:G3; [reflexivity|] end.
    apply Z.ltb_ge in G3. unfold size in G3. lia.
Qed.

Lemma set_buffer_same pg : set_buffer (buffer pg) pg = pg.
Proof. destruct pg; reflexivity. Qed.

Lemma handleFrame_set_buffer keys fr b pg :
  handleFrame keys fr (set_buffer b pg)
  = let '(pg', out, r) := handleFrame keys fr pg in (set_buffer b pg', out, r).
Proof.
  unfold handleFrame, sendFrame, set_buffer. cbn.
  destruct ((js_opcode fr =? OPCODE_TEXT) || (js_opcode fr =? OPCODE_BINARY));
    [reflexivity|].
  destruct (js_opcode fr =? OPCODE_PING); [reflexivity|].
  destruct (js_opcode fr =? OPCODE_PONG); [reflexivity|].
  destruct (js_opcode fr =? OPCODE_CLOSE); reflexivity.
Qed.

Lemma handleFrame_buffer keys fr pg :
  buffer (fst (fst (handleFrame keys fr pg))) = buffer pg.
Proof.
  unfold handleFrame, sendFrame. cbn.
  destruct ((js_opcode fr =? OPCODE_TEXT) || (js_opcode fr =? OPCODE_BINARY));
    [reflexivity|].
  destruct (js_opcode fr =? OPCODE_PING); [reflexivity|].
  destruct (js_opcode fr =? OPCODE_PONG); [reflexivity|].
  destruct (js_opcode fr =? OPCODE_CLOSE); reflexivity.
Qed.

(** Only a CLOSE frame makes [handleFrame] throw or lowers [connected]. *)
Lemma handleFrame_returns keys fr pg :
  js_opcode fr <> OPCODE_CLOSE ->
  snd (handleFrame keys fr pg) = true /\
  connected (fst (fst (handleFrame keys fr pg))) = connected pg.
Proof.
  intros H. unfold handleFrame, sendFrame. cbn.
  destruct ((js_opcode fr =? OPCODE_TEXT) || (js_opcode fr =? OPCODE_BINARY));
    [split; reflexivity|].
  destruct (js_opcode fr =? OPCODE_PING); [split; reflexivity|].
  destruct (js_opcode fr =? OPCODE_PONG); [split; reflexivity|].
  destruct (js_opcode fr =? OPCODE_CLOSE) eqn:E; [|split; reflexivity].
  apply Z.eqb_eq in E. contradiction.
Qed.

Lemma stream_frame_not_close f :
  stream_frame f -> js_opcode (js_frame_of f) <> OPCODE_CLOSE.
Proof.
  intros (_ & _ & Hc) E. apply Hc. apply byte.unsigned_inj. exact E.
Qed.

Lemma page_handles_set_buffer keys fs : forall b pg,
  page_handles keys fs (set_buffer b pg)
  = (set_buffer b (fst (page_handles keys fs pg)), snd (page_handles keys fs pg)).
Proof.
  induction fs as [|f fs IH]; intros b pg; cbn [page_handles].
  - reflexivity.
  - rewrite handleFrame_set_buffer.
    destruct (handleFrame keys (js_frame_of f) pg) as [[pg1 out1] r].
    rewrite IH. destruct (page_handles keys fs pg1) as [pg2 out2]. reflexivity.
Qed.

Lemma page_handles_connected keys fs : forall pg,
  Forall stream_frame fs ->
  connected (fst (page_handles keys fs pg)) = connected pg.
Proof.
  induction fs as [|f fs IH]; intros pg H; cbn [page_handles]; [reflexivity|].
  inversion H as [|? ? Hf Hfs]; subst.
  destruct (handleFrame_returns keys (js_frame_of f) pg
              (stream_frame_not_close f Hf)) as [_ Hc].
  destruct (handleFrame keys (js_frame_of f) pg) as [[pg1 out1] r].
  cbn [fst] in Hc. specialize (IH pg1 Hfs).
  destruct (page_handles keys fs pg1) as [pg2 out2]. cbn [fst] in *. congruence.
Qed.

Lemma page_handles_app keys fs1 fs2 pg :
  page_handles keys (fs1 ++ fs2) pg
  = (fst (page_handles keys fs2 (fst (page_handles keys fs1 pg))),
     snd (page_handles keys fs1 pg)
     ++ snd (page_handles keys fs2 (fst (page_handles keys fs1 pg)))).
Proof.
  revert pg. induction fs1 as [|f fs1 IH]; intros pg; cbn [page_handles app].
  - cbn [fst snd app]. destruct (page_handles keys fs2 pg); reflexivity.
  - destruct (handleFrame keys (js_frame_of f) pg) as [[pg1 out1] r].
    rewrite IH. destruct (page_handles keys fs1 pg1) as [pg2 out2]. cbn [fst snd].
    rewrite app_assoc. reflexivity.
Qed.

(** [buffer.slice(n)] past the first [n] bytes. *)
Lemma js_slice_from a b : js_slice (a ++ b) (size a) (size (a ++ b)) = b.
Proof.
  unfold js_slice. pose proof (size_nonneg a). pose proof (size_nonneg b).
  rewrite !size_app.
  destruct (size a <? 0) eqn:E1; [apply Z.ltb_lt in E1; lia|].
  destruct (size a + size b <? 0) eqn:E2; [apply Z.ltb_lt in E2; lia|].
  rewrite !Z.min_l by lia.
  replace (Z.max (size a + size b - size a) 0) with (size b) by lia.
  unfold size. rewrite !Nat2Z.id.
  rewrite skipn_app, skipn_all, Nat.sub_diag. cbn [skipn app]. apply firstn_all.
Qed.

(** The loop on a buffer that holds encoded frames followed by bytes that
    are not yet a frame: every frame is handled, in order, and those bytes
    are left in [buffer]. *)
Lemma process_frames_stream keys fs : forall fuel pg tail,
  Forall stream_frame fs ->
  decodeFrame tail = None ->
  buffer pg = List.concat (map encode fs) ++ tail ->
  (List.length fs < fuel)%nat ->
  process_frames fuel keys pg
  = Some (set_buffer tail (fst (page_handles keys fs pg)),
          snd (page_handles keys fs pg), true).
Proof.
  induction fs as [|f fs IH]; intros fuel pg tail Hfs Htail Hbuf Hfuel.
  - destruct fuel as [|fuel]; [cbn in Hfuel; lia|].
    cbn [map List.concat app] in Hbuf. cbn [process_frames page_handles fst snd].
    rewrite Hbuf, Htail, <- Hbuf, set_buffer_same. reflexivity.
  - destruct fuel as [|fuel]; [cbn in Hfuel; lia|].
    inversion Hfs as [|? ? Hf Hfs']; subst.
    cbn [map List.concat] in Hbuf. rewrite <- app_assoc in Hbuf.
    cbn [process_frames page_handles]. rewrite Hbuf.
    destruct Hf as (Hop & Hlen & Hc).
    rewrite (decodeFrame_encode_app f _ Hop Hlen). fold (js_frame_of f).
    destruct (handleFrame_returns keys (js_frame_of f) pg
                (stream_frame_not_close f (conj Hop (conj Hlen Hc)))) as [Hr _].
    pose proof (handleFrame_buffer keys (js_frame_of f) pg) as Hb.
    destruct (handleFrame keys (js_frame_of f) pg) as [[pg1 out1] r].
    cbn [fst snd] in Hr, Hb. subst r.
    rewrite Hb, Hbuf. cbn [js_frame_of totalLength].
    rewrite js_slice_from.
    rewrite (IH fuel (set_buffer (List.concat (map encode fs) ++ tail) pg1) tail
               Hfs' Htail eq_refl ltac:(cbn in Hfuel; lia)).
    rewrite page_handles_set_buffer. cbn [fst snd].
    destruct (page_handles keys fs pg1) as [pg2 out2]. cbn [fst snd].
    destruct pg2; reflexivity.
Qed.

Lemma encode_length_pos f : (2 <= List.length (encode f))%nat.
Proof.
  pose proof (encode_size f) as H. pose proof (size_nonneg (payload f)).
  unfold size in *.
  destruct (Z.of_nat (List.length (payload f)) <=? 125);
    [|destruct (Z.of_nat (List.length (payload f)) <=? 65535)]; lia.
Qed.

Lemma stream_length fs :
  (List.length fs <= List.length (List.concat (map encode fs)))%nat.
Proof.
  induction fs as [|f fs IH]; cbn [map List.concat List.length]; [lia|].
  rewrite length_app. pose proof (encode_length_pos f). lia.
Qed.

(** A prefix of a stream of encoded frames is some whole frames followed
    by a strict prefix of the next one. *)
Lemma stream_split fs : forall x y,
  x ++ y = List.concat (map encode fs) ->
  exists fs1 fs2 tail,
    fs = fs1 ++ fs2 /\
    x = List.concat (map encode fs1) ++ tail /\
    tail ++ y = List.concat (map encode fs2) /\
    match fs2 with
    | [] => tail = []
    | f :: _ => (List.length tail < List.length (encode f))%nat
    end.
Proof.
  induction fs as [|f fs IH]; intros x y H; cbn [map List.concat] in H.
  - apply app_eq_nil in H. destruct H as [-> ->].
    exists [], [], []. repeat split.
  - destruct (Nat.lt_ge_cases (List.length x) (List.length (encode f))) as [L|L].
    + exists [], (f :: fs), x. cbn [app map List.concat]. repeat split; assumption.
    + apply app_eq_app in H. destruct H as [l [[Hx Hy] | [He Hy]]].
      * destruct (IH l y (eq_sym Hy)) as (fs1 & fs2 & tail & E1 & E2 & E3 & E4).
        exists (f :: fs1), fs2, tail. cbn [app map List.concat].
        rewrite <- app_assoc, <- E2, E1. repeat split; assumption.
      * assert (l = []) as ->.
        { apply (f_equal (@List.length byte)) in He. rewrite length_app in He.
          destruct l; [reflexivity|]. cbn [List.length] in He. lia. }
        rewrite app_nil_r in He. cbn [app] in Hy. subst x.
        destruct (IH [] y Hy) as (fs1 & fs2 & tail & E1 & E2 & E3 & E4).
        exists (f :: fs1), fs2, tail. cbn [app map List.concat].
        rewrite <- app_assoc, <- E2, app_nil_r, E1. repeat split; assumption.
Qed.

Lemma decodeFrame_stream_tail fs2 tail y :
  Forall stream_frame fs2 ->
  tail ++ y = List.concat (map encode fs2) ->
  match fs2 with
  | [] => tail = []
  | f :: _ => (List.length tail < List.length (encode f))%nat
  end ->
  decodeFrame tail = None.
Proof.
  intros Hfs E Hm. destruct fs2 as [|f fs2].
  - subst tail. reflexivity.
  - inversion Hfs as [|? ? (Hop & Hlen & _) _]; subst.
    cbn [map List.concat] in E.
    assert (Et : tail = firstn (List.length tail) (encode f)).
    { assert (A : firstn (List.length tail) (tail ++ y) = tail).
      { rewrite firstn_app, firstn_all, Nat.sub_diag. cbn [firstn].
        apply app_nil_r. }
      rewrite <- A at 1. rewrite E, firstn_app.
      replace (List.length tail - List.length (encode f))%nat with 0%nat by lia.
      cbn [firstn]. apply app_nil_r. }
    rewrite Et. apply decodeFrame_encode_prefix; assumption.
Qed.

Lemma set_buffer_set_buffer a b pg : set_buffer a (set_buffer b pg) = set_buffer a pg.
Proof. reflexivity. Qed.

Lemma page_handles_buffer keys fs : forall pg,
  buffer (fst (page_handles keys fs pg)) = buffer pg.
Proof.
  induction fs as [|f fs IH]; intros pg; cbn [page_handles]; [reflexivity|].
  pose proof (handleFrame_buffer keys (js_frame_of f) pg) as Hb.
  destruct (handleFrame keys (js_frame_of f) pg) as [[pg1 out1] r].
  cbn [fst] in Hb. specialize (IH pg1).
  destruct (page_handles keys fs pg1) as [pg2 out2]. cbn [fst] in *. congruence.
Qed.

(** The chunks of a stream of encoded frames, however the stream is cut:
    every frame is handled, in order, and [buffer] is empty at the end. *)
Lemma on_chunks_stream keys : forall chunks fs pg,
  Forall stream_frame fs ->
  connected pg = true ->
  buffer pg ++ List.concat chunks = List.concat (map encode fs) ->
  match fs with
  | [] => True
  | f :: _ => (List.length (buffer pg) < List.length (encode f))%nat
  end ->
  on_chunks keys chunks pg
  = Some (set_buffer [] (fst (page_handles keys fs pg)),
          snd (page_handles keys fs pg)).
Proof.
  induction chunks as [|c chunks IH]; intros fs pg Hfs Hcon Hbuf Hm.
  - cbn [List.concat] in Hbuf. rewrite app_nil_r in Hbuf.
    destruct fs as [|f fs].
    + cbn [map List.concat] in Hbuf. cbn [on_chunks page_handles fst snd].
      rewrite <- Hbuf, set_buffer_same. reflexivity.
    + exfalso. cbn [map List.concat] in Hbuf.
      apply (f_equal (@List.length byte)) in Hbuf. rewrite length_app in Hbuf. lia.
  - cbn [on_chunks]. rewrite Hcon. cbn [negb].
    cbn [List.concat] in Hbuf. rewrite app_assoc in Hbuf.
    destruct (stream_split fs _ _ Hbuf) as (fs1 & fs2 & tail & E1 & E2 & E3 & E4).
    subst fs. apply Forall_app in Hfs. destruct Hfs as [Hfs1 Hfs2].
    pose proof (decodeFrame_stream_tail fs2 tail _ Hfs2 E3 E4) as Htail.
    unfold on_chunk.
    rewrite (process_frames_stream keys fs1 _ (set_buffer (buffer pg ++ c) pg)
               tail Hfs1 Htail E2).
    2:{ cbn [set_buffer buffer]. rewrite E2, length_app.
        pose proof (stream_length fs1). lia. }
    rewrite page_handles_set_buffer. cbn [fst snd]. rewrite set_buffer_set_buffer.
    set (pg1 := fst (page_handles keys fs1 pg)).
    rewrite (IH fs2 (set_buffer tail pg1) Hfs2).
    + rewrite page_handles_set_buffer. cbn [fst snd]. rewrite set_buffer_set_buffer.
      rewrite page_handles_app. reflexivity.
    + unfold pg1. cbn [set_buffer connected].
      rewrite page_handles_connected by assumption. exact Hcon.
    + exact E3.
    + destruct fs2; [exact I | exact E4].
Qed.

(** ** The page and the server together *)

(** X7.  The client-to-server direction: a frame that the page encodes
    with an opcode of four bits, a payload of up to 65535 bytes and any
    masking key is decoded by [decode] to that opcode and payload with FIN
    set, consuming the whole message; the handler pushes that frame. *)
Theorem page_frame_reaches_queue (op : Z) (p : list byte) (m : Mask)
    (q : FrameQueue) :
  0 <= op < 16 ->
  size p <= 65535 ->
  decode (encodeFrame op p m)
    = Ok (mkFrame true (byte.of_Z op) p, size (encodeFrame op p m)) /\
  binary_message q (encodeFrame op p m)
    = Some (push q (mkFrame true (byte.of_Z op) p)).
Proof.
  intros Hop Hlen. pose proof (decode_encodeFrame_ok op p m Hop Hlen) as H.
  split; [exact H|]. unfold binary_message. rewrite H. reflexivity.
Qed.

Lemma page_frame_reaches_queue_witness :
  let p := list_byte_of_string "ping-0" in
  let m := mkMask Byte.x37 Byte.xfa Byte.x21 Byte.x3d in
  0 <= OPCODE_PONG < 16 /\ size p <= 65535 /\
  decode (encodeFrame OPCODE_PONG p m)
    = Ok (mkFrame true (byte.of_Z OPCODE_PONG) p, size (encodeFrame OPCODE_PONG p m)) /\
  binary_message new_queue (encodeFrame OPCODE_PONG p m)
    = Some (push new_queue (mkFrame true (byte.of_Z OPCODE_PONG) p)).
Proof.
  intros p m.
  assert (H1 : 0 <= OPCODE_PONG < 16) by (unfold OPCODE_PONG; lia).
  assert (H2 : size p <= 65535) by (vm_compute; discriminate).
  exact (conj H1 (conj H2 (page_frame_reaches_queue OPCODE_PONG p m new_queue H1 H2))).
Defined.

(** X8.  A frame that the page encodes with more than 65535 payload bytes
    never reaches the queue: [len >> 56], [len >> 48], [len >> 40] and
    [len >> 32] shift by 24, 16, 8 and 0, the length field reads
    [len * 2 ^ 32 + len], and [decode] answers [std::nullopt], so the
    handler pushes nothing. *)
Theorem page_long_frame_is_dropped (op : Z) (p : list byte) (m : Mask)
    (q : FrameQueue) :
  65535 < size p < 2 ^ 31 ->
  (exists h, parse_header (encodeFrame op p m) = Ok h /\
             h_length h = size p * 2 ^ 32 + size p) /\
  decode (encodeFrame op p m) = Nullopt /\
  binary_message q (encodeFrame op p m) = Some q.
Proof.
  intros Hlen. destruct (decode_encodeFrame_long op p m Hlen) as [Hh Hd].
  split; [eexists; split; [exact Hh | reflexivity]|].
  split; [exact Hd|]. unfold binary_message. rewrite Hd. reflexivity.
Qed.

Lemma page_long_frame_is_dropped_witness :
  let p := repeat Byte.x41 (Z.to_nat 65536) in
  let m := mkMask Byte.x37 Byte.xfa Byte.x21 Byte.x3d in
  65535 < size p < 2 ^ 31 /\
  (exists h, parse_header (encodeFrame OPCODE_BINARY p m) = Ok h /\
             h_length h = size p * 2 ^ 32 + size p) /\
  decode (encodeFrame OPCODE_BINARY p m) = Nullopt /\
  binary_message new_queue (encodeFrame OPCODE_BINARY p m) = Some new_queue.
Proof.
  intros p m.
  assert (H1 : 65535 < size p < 2 ^ 31) by (vm_compute; split; reflexivity).
  exact (conj H1 (page_long_frame_is_dropped OPCODE_BINARY p m new_queue H1)).
Defined.

(** X9.  The server-to-client direction: [decodeFrame] reads a frame that
    [encode] wrote, with whatever follows it in the buffer, as that frame
    with the length of its encoding as [totalLength]; and it returns
    [null] on every strict prefix of the encoding. *)
Theorem decodeFrame_reads_encode (f : WsFrame) (rest : list byte) (k : nat) :
  byte.unsigned (opcode f) < 16 ->
  size (payload f) < 2 ^ 31 ->
  (k < List.length (encode f))%nat ->
  decodeFrame (encode f ++ rest) = Some (js_frame_of f) /\
  decodeFrame (firstn k (encode f)) = None.
Proof.
  intros Hop Hlen Hk. split.
  - apply decodeFrame_encode_app; assumption.
  - apply decodeFrame_encode_prefix; assumption.
Qed.

Lemma decodeFrame_reads_encode_witness :
  let f := ping_frame 2 in
  let rest := encode close_frame in
  byte.unsigned (opcode f) < 16 /\ size (payload f) < 2 ^ 31 /\
  (5 < List.length (encode f))%nat /\
  decodeFrame (encode f ++ rest) = Some (js_frame_of f) /\
  decodeFrame (firstn 5 (encode f)) = None.
Proof.
  intros f rest.
  assert (H1 : byte.unsigned (opcode f) < 16) by (vm_compute; reflexivity).
  assert (H2 : size (payload f) < 2 ^ 31) by (vm_compute; reflexivity).
  assert (H3 : (5 < List.length (encode f))%nat) by (vm_compute; lia).
  exact (conj H1 (conj H2 (conj H3 (decodeFrame_reads_encode f rest 5 H1 H2 H3)))).
Defined.

(** X10.  The page reassembles the stream: however a stream of encoded
    frames is cut into chunks, the loop of [connect] handles every frame
    once, in order, and ends with an empty [buffer]; the page and the
    messages it sent are those of [handleFrame] called on each frame. *)
Theorem page_handles_any_chunking (keys : nat -> Mask) (fs : list WsFrame)
    (chunks : list (list byte)) :
  Forall stream_frame fs ->
  List.concat chunks = List.concat (map encode fs) ->
  on_chunks keys chunks page_connected = Some (page_handles keys fs page_connected).
Proof.
  intros Hfs Hc.
  rewrite (on_chunks_stream keys chunks fs page_connected Hfs eq_refl Hc).
  - pose proof (page_handles_buffer keys fs page_connected) as Hb.
    destruct (page_handles keys fs page_connected) as [pg out].
    cbn [fst snd] in *. rewrite <- Hb at 1. rewrite set_buffer_same. reflexivity.
  - destruct fs as [|f fs]; [exact I|].
    pose proof (encode_length_pos f). cbn [page_connected buffer List.length]. lia.
Qed.

Lemma page_handles_any_chunking_witness :
  let keys := fun _ : nat => mkMask Byte.x37 Byte.xfa Byte.x21 Byte.x3d in
  let fs := [ping_frame 0; mkFrame true TEXT (list_byte_of_string "hello")] in
  let chunks := [firstn 3 (encode (ping_frame 0));
                 skipn 3 (encode (ping_frame 0)) ++ bytes_of [0x81; 0x05; 0x68];
                 []; bytes_of [0x65; 0x6C; 0x6C; 0x6F]] in
  Forall stream_frame fs /\
  List.concat chunks = List.concat (map encode fs) /\
  on_chunks keys chunks page_connected = Some (page_handles keys fs page_connected).
Proof.
  intros keys fs chunks.
  assert (H1 : Forall stream_frame fs).
  { repeat constructor; try (vm_compute; reflexivity); vm_compute; discriminate. }
  assert (H2 : List.concat chunks = List.concat (map encode fs))
    by (vm_compute; reflexivity).
  exact (conj H1 (conj H2 (page_handles_any_chunking keys fs chunks H1 H2))).
Defined.

Lemma arrivals_of_app a b : arrivals_of (a ++ b) = arrivals_of a ++ arrivals_of b.
Proof. unfold arrivals_of. apply flat_map_app. Qed.

Lemma opcode_eqb_unsigned (op : WsOpcode) (c : WsOpcode) :
  (byte.unsigned op =? byte.unsigned c) = Byte.eqb op c.
Proof.
  destruct (Byte.eqb op c) eqn:E.
  - apply Byte.byte_dec_bl in E. subst. apply Z.eqb_refl.
  - apply Z.eqb_neq. intros H. apply byte.unsigned_inj in H. subst.
    rewrite (Byte.byte_dec_lb (eq_refl c)) in E. discriminate E.
Qed.

(** What reaches the queue from [handleFrame] on one frame of the stream:
    for a PING, the PONG with the same payload; nothing otherwise. *)
Lemma handleFrame_arrivals keys f pg :
  stream_frame f -> size (payload f) <= 65535 ->
  arrivals_of (snd (fst (handleFrame keys (js_frame_of f) pg)))
  = if Byte.eqb (opcode f) PING then [mkFrame true PONG (payload f)] else [].
Proof.
  intros (Hop & _ & Hc) Hlen.
  unfold handleFrame, sendFrame. cbn [js_frame_of js_opcode js_payload].
  change OPCODE_TEXT with (byte.unsigned TEXT).
  change OPCODE_BINARY with (byte.unsigned BINARY).
  change OPCODE_PING with (byte.unsigned PING).
  change OPCODE_CLOSE with (byte.unsigned CLOSE).
  change (byte.unsigned (opcode f) =? OPCODE_PONG)
    with (byte.unsigned (opcode f) =? byte.unsigned PONG).
  rewrite !opcode_eqb_unsigned.
  destruct (Byte.eqb (opcode f) TEXT) eqn:Et.
  { apply Byte.byte_dec_bl in Et. rewrite Et. reflexivity. }
  destruct (Byte.eqb (opcode f) BINARY) eqn:Eb.
  { apply Byte.byte_dec_bl in Eb. rewrite Eb. reflexivity. }
  cbn [orb].
  destruct (Byte.eqb (opcode f) PING) eqn:Ep.
  { cbn [fst snd arrivals_of flat_map].
    rewrite (decode_encodeFrame_ok OPCODE_PONG (payload f) _
               ltac:(unfold OPCODE_PONG; lia) Hlen).
    reflexivity. }
  destruct (Byte.eqb (opcode f) PONG); [reflexivity|].
  destruct (Byte.eqb (opcode f) CLOSE) eqn:Ec; [|reflexivity].
  apply Byte.byte_dec_bl in Ec. contradiction.
Qed.

Lemma page_handles_arrivals keys fs : forall pg,
  Forall stream_frame fs ->
  Forall (fun f => size (payload f) <= 65535) fs ->
  arrivals_of (snd (page_handles keys fs pg))
  = map (fun f => mkFrame true PONG (payload f))
        (filter (fun f => Byte.eqb (opcode f) PING) fs).
Proof.
  induction fs as [|f fs IH]; intros pg Hfs Hlen; [reflexivity|].
  inversion Hfs as [|? ? Hf Hfs']; subst.
  inversion Hlen as [|? ? Hl Hlen']; subst.
  cbn [page_handles filter].
  pose proof (handleFrame_arrivals keys f pg Hf Hl) as Ha.
  destruct (handleFrame keys (js_frame_of f) pg) as [[pg1 out1] r].
  cbn [fst snd] in Ha. specialize (IH pg1 Hfs' Hlen').
  destruct (page_handles keys fs pg1) as [pg2 out2]. cbn [snd] in *.
  rewrite arrivals_of_app, Ha, IH.
  destruct (Byte.eqb (opcode f) PING); reflexivity.
Qed.

(** X11.  The page answers every PING of the stream, and only the PINGs:
    whatever the masking keys, the frames that its messages put on the
    queue are the PONGs with the payloads of the PINGs, in order. *)
Theorem page_answers_pings (keys : nat -> Mask) (fs : list WsFrame) (pg : page) :
  Forall stream_frame fs ->
  Forall (fun f => size (payload f) <= 65535) fs ->
  arrivals_of (snd (page_handles keys fs pg))
  = map (fun f => mkFrame true PONG (payload f))
        (filter (fun f => Byte.eqb (opcode f) PING) fs).
Proof. intros Hfs Hlen. apply page_handles_arrivals; assumption. Qed.

Lemma page_answers_pings_witness :
  let keys := fun n : nat => mkMask Byte.x37 Byte.xfa (byte.of_Z (Z.of_nat n)) Byte.x3d in
  let fs := [ping_frame 0; mkFrame true TEXT (list_byte_of_string "hello");
             ping_frame 1] in
  Forall stream_frame fs /\
  Forall (fun f => size (payload f) <= 65535) fs /\
  arrivals_of (snd (page_handles keys fs page_connected))
  = map (fun f => mkFrame true PONG (payload f))
        (filter (fun f => Byte.eqb (opcode f) PING) fs).
Proof.
  intros keys fs.
  assert (H1 : Forall stream_frame fs).
  { repeat constructor; try (vm_compute; reflexivity); vm_compute; discriminate. }
  assert (H2 : Forall (fun f => size (payload f) <= 65535) fs).
  { repeat constructor; vm_compute; discriminate. }
  exact (conj H1 (conj H2 (page_answers_pings keys fs page_connected H1 H2))).
Defined.

(** A whole frame read as one chunk into an empty [buffer]. *)
Lemma on_chunk_whole_frame keys f pg :
  stream_frame f -> buffer pg = [] ->
  on_chunk keys (encode f) pg
  = Some (fst (page_handles keys [f] pg), snd (page_handles keys [f] pg)).
Proof.
  intros Hf Hb. unfold on_chunk.
  rewrite (process_frames_stream keys [f] _ (set_buffer (buffer pg ++ encode f) pg) []).
  - rewrite page_handles_set_buffer. cbn [fst snd]. rewrite set_buffer_set_buffer.
    pose proof (page_handles_buffer keys [f] pg) as Hb'. rewrite Hb in Hb'.
    rewrite <- Hb' at 1. rewrite set_buffer_same. reflexivity.
  - constructor; [exact Hf | constructor].
  - reflexivity.
  - cbn [set_buffer buffer map List.concat]. rewrite Hb, !app_nil_r. reflexivity.
  - cbn [set_buffer buffer List.length]. rewrite length_app.
    pose proof (encode_length_pos f). lia.
Qed.

Lemma page_replies_frames keys fs : forall pg,
  Forall stream_frame fs ->
  Forall (fun f => size (payload f) <= 65535) fs ->
  buffer pg = [] ->
  page_replies keys (map encode fs) pg
  = map (fun f => if Byte.eqb (opcode f) PING
                  then [mkFrame true PONG (payload f)] else []) fs.
Proof.
  induction fs as [|f fs IH]; intros pg Hfs Hlen Hb; [reflexivity|].
  inversion Hfs as [|? ? Hf Hfs']; subst.
  inversion Hlen as [|? ? Hl Hlen']; subst.
  cbn [map page_replies]. rewrite (on_chunk_whole_frame keys f pg Hf Hb).
  rewrite (page_handles_arrivals keys [f] pg)
    by (constructor; [assumption | constructor]).
  rewrite IH; [| assumption | assumption |
                 rewrite page_handles_buffer; exact Hb].
  cbn [filter map]. destruct (Byte.eqb (opcode f) PING); reflexivity.
Qed.

(** A round of the test mode whose answer is the matching PONG, on an
    empty queue. *)
Lemma test_round_matching i c run con tm res ps pr ga tr :
  test_round i [mkFrame true PONG (list_byte_of_string (ping_data i))]
    (mkSession (mkQueue [] c) run con tm res ps pr ga tr)
  = (mkSession (mkQueue [] c) run con tm
       (if i =? PING_COUNT - 1 then 0 else res) (incr_int ps) (incr_int pr) ga
       ((tr ++ [Sent (encode (ping_frame i))])
        ++ [Popped (Some (mkFrame true PONG (list_byte_of_string (ping_data i))))]),
     true).
Proof.
  unfold test_round, session_wait_pop.
  cbn [emit set_pings_sent set_from_client g_from_client trace g_pings_sent
       g_running g_connected g_test_mode g_test_result g_pongs_received g_app].
  rewrite push_all_queue. cbn [m_queue m_closed app]. rewrite wait_pop_cons.
  cbn [opcode payload]. change (Byte.eqb PONG PONG) with true. cbn [negb].
  rewrite string_of_list_byte_of_string, String.eqb_refl. cbn [negb].
  cbn [emit set_pongs_received set_from_client set_test_result g_from_client trace
       g_pings_sent g_running g_connected g_test_mode g_test_result
       g_pongs_received g_app].
  destruct (i =? PING_COUNT - 1); reflexivity.
Qed.

(** X12.  The test mode against the page.  When each PING of the thread is
    read by the page as one chunk and the answer of the page reaches the
    binary-message handler before the wait of the round ends, the three
    rounds are answered by the matching PONGs whatever the masking keys:
    the result is 0, three PINGs were sent and three PONGs counted, and
    the thread wrote the three PINGs and one CLOSE. *)
Theorem test_mode_succeeds_with_page (keys : nat -> Mask) (s : session) :
  g_test_mode s = true ->
  let pong := fun i => mkFrame true PONG (list_byte_of_string (ping_data i)) in
  let env := page_replies keys (map encode [ping_frame 0; ping_frame 1; ping_frame 2])
               page_connected in
  env = [[pong 0]; [pong 1]; [pong 2]] /\
  g_test_result (websocket_server_thread env (connect s)) = 0 /\
  g_pings_sent (websocket_server_thread env (connect s)) = 3 /\
  g_pongs_received (websocket_server_thread env (connect s)) = 3 /\
  trace (websocket_server_thread env (connect s))
  = trace s ++ [Started;
                Sent (encode (ping_frame 0)); Popped (Some (pong 0));
                Sent (encode (ping_frame 1)); Popped (Some (pong 1));
                Sent (encode (ping_frame 2)); Popped (Some (pong 2));
                Sent (encode close_frame); Finished]
             ++ (if g_app s then [Quit] else []).
Proof.
  intros Htest pong env.
  assert (Henv : env = [[pong 0]; [pong 1]; [pong 2]]).
  { unfold env. rewrite page_replies_frames.
    - vm_compute. reflexivity.
    - repeat constructor; try (vm_compute; reflexivity); vm_compute; discriminate.
    - repeat constructor; vm_compute; discriminate.
    - reflexivity. }
  split; [exact Henv|]. rewrite Henv. clear Henv env.
  destruct s as [q run con tm res ps pr ga tr]. cbn [g_test_mode] in Htest. subst tm.
  unfold pong.
  cbv [websocket_server_thread connect reset set_connected set_running
       set_from_client set_pings_sent set_pongs_received emit g_from_client
       g_running g_connected g_test_mode g_test_result g_pings_sent
       g_pongs_received g_app trace test_loop negb].
  rewrite (test_round_matching 0).
  cbv [g_running negb]. rewrite (test_round_matching 1).
  cbv [g_running negb]. rewrite (test_round_matching 2).
  change (0 =? PING_COUNT - 1) with false. change (1 =? PING_COUNT - 1) with false.
  change (2 =? PING_COUNT - 1) with true.
  change (incr_int (incr_int (incr_int 0))) with 3.
  destruct ga;
    cbv [g_from_client g_running g_connected g_test_mode g_test_result
         g_pings_sent g_pongs_received g_app trace];
    (split; [reflexivity|]); (split; [reflexivity|]); (split; [reflexivity|]);
    rewrite <- ?app_assoc; reflexivity.
Qed.

Lemma test_mode_succeeds_with_page_witness :
  let keys := fun n : nat => mkMask Byte.x37 Byte.xfa (byte.of_Z (Z.of_nat n)) Byte.x3d in
  let s := initial_session true in
  g_test_mode s = true /\
  g_test_result
    (websocket_server_thread
       (page_replies keys (map encode [ping_frame 0; ping_frame 1; ping_frame 2])
          page_connected)
       (connect s)) = 0.
Proof.
  intros keys s.
  assert (H1 : g_test_mode s = true) by reflexivity.
  exact (conj H1 (proj1 (proj2 (test_mode_succeeds_with_page keys s H1)))).
Defined.

(** * The queue under the session thread *)

Lemma consumed_emit e s :
  consumed (emit e s)
  = consumed s ++ match e with Popped (Some f) => [f] | _ => [] end.
Proof.
  unfold consumed, answers_of, popped. cbn [emit trace].
  rewrite !flat_map_app. cbn [flat_map].
  destruct e as [| | [f|] | |]; cbn [flat_map app]; reflexivity.
Qed.

Lemma seen_session_wait_pop arrivals s :
  seen (snd (session_wait_pop arrivals s)) = seen s ++ arrivals.
Proof.
  unfold session_wait_pop, seen.
  pose proof (wait_pop_at_most_one (push_all (g_from_client s) arrivals)) as H.
  destruct (wait_pop (push_all (g_from_client s) arrivals)) as [r q].
  cbn [snd]. rewrite consumed_emit.
  change (consumed (set_from_client q s)) with (consumed s).
  cbn [emit set_from_client g_from_client].
  rewrite push_all_queue in H. cbn [m_queue] in H.
  destruct r as [f|].
  - destruct H as [H _]. rewrite <- !app_assoc. cbn [app]. rewrite <- H.
    reflexivity.
  - destruct H as [-> _]. cbn [m_queue]. rewrite app_nil_r, app_assoc. reflexivity.
Qed.

Lemma seen_test_round i arrivals s :
  seen (fst (test_round i arrivals s)) = seen s ++ arrivals.
Proof.
  unfold test_round.
  set (s1 := set_pings_sent _ (emit _ s)).
  assert (H1 : seen s1 = seen s).
  { unfold seen, s1. change (consumed (set_pings_sent ?z ?x)) with (consumed x).
    rewrite consumed_emit, app_nil_r. reflexivity. }
  pose proof (seen_session_wait_pop arrivals s1) as H.
  destruct (session_wait_pop arrivals s1) as [r s2]. cbn [snd] in H.
  rewrite H1 in H. rewrite <- H.
  destruct r as [f|]; [|reflexivity].
  destruct (negb (Byte.eqb (opcode f) PONG)); [reflexivity|].
  destruct (negb (String.eqb (string_of_list_byte (payload f)) (ping_data i)));
    [reflexivity|].
  destruct (i =? PING_COUNT - 1); reflexivity.
Qed.

Lemma seen_interactive_round arrivals s :
  seen (fst (interactive_round arrivals s)) = seen s ++ arrivals.
Proof.
  unfold interactive_round.
  pose proof (seen_session_wait_pop arrivals s) as H.
  destruct (session_wait_pop arrivals s) as [r s2]. cbn [snd] in H.
  rewrite <- H.
  destruct r as [f|]; [|reflexivity].
  destruct (Byte.eqb (opcode f) TEXT || Byte.eqb (opcode f) BINARY).
  { cbn [fst]. unfold seen. rewrite consumed_emit, app_nil_r. reflexivity. }
  destruct (Byte.eqb (opcode f) PONG); [reflexivity|].
  destruct (Byte.eqb (opcode f) CLOSE); reflexivity.
Qed.

Lemma concat_firstn_S {A} (l : list A) (ls : list (list A)) k :
  List.concat (firstn (S k) (l :: ls)) = l ++ List.concat (firstn k ls).
Proof. reflexivity. Qed.

Lemma seen_test_loop indices : forall env s,
  exists k, (k <= List.length env)%nat /\
    seen (test_loop indices env s) = seen s ++ List.concat (firstn k env).
Proof.
  induction indices as [|i indices IH]; intros env s; cbn [test_loop].
  - exists 0%nat. split; [lia|]. cbn. rewrite app_nil_r. reflexivity.
  - destruct (negb (g_running s)).
    { exists 0%nat. split; [lia|]. cbn. rewrite app_nil_r. reflexivity. }
    destruct env as [|a env].
    { exists 0%nat. split; [cbn; lia|]. cbn. rewrite app_nil_r. reflexivity. }
    pose proof (seen_test_round i a s) as H.
    destruct (test_round i a s) as [s1 c]. cbn [fst] in H.
    destruct c.
    + destruct (IH env s1) as (k & Hk & E). exists (S k).
      split; [cbn [List.length]; lia|].
      rewrite E, H, concat_firstn_S, app_assoc. reflexivity.
    + exists 1%nat. split; [cbn [List.length]; lia|].
      rewrite H. cbn [firstn List.concat]. rewrite app_nil_r. reflexivity.
Qed.

Lemma seen_interactive_loop env : forall s,
  exists k, (k <= List.length env)%nat /\
    seen (interactive_loop env s) = seen s ++ List.concat (firstn k env).
Proof.
  induction env as [|a env IH]; intros s; cbn [interactive_loop].
  - exists 0%nat. split; [lia|]. destruct (negb (g_running s)); cbn;
      rewrite app_nil_r; reflexivity.
  - destruct (negb (g_running s)).
    { exists 0%nat. split; [lia|]. cbn. rewrite app_nil_r. reflexivity. }
    pose proof (seen_interactive_round a s) as H.
    destruct (interactive_round a s) as [s1 c]. cbn [fst] in H.
    destruct c.
    + destruct (IH s1) as (k & Hk & E). exists (S k).
      split; [cbn [List.length]; lia|].
      rewrite E, H, concat_firstn_S, app_assoc. reflexivity.
    + exists 1%nat. split; [cbn [List.length]; lia|].
      rewrite H. cbn [firstn List.concat]. rewrite app_nil_r. reflexivity.
Qed.

Lemma seen_outside_events e s :
  match e with Popped _ => False | _ => True end ->
  seen (emit e s) = seen s.
Proof.
  intros H. unfold seen. rewrite consumed_emit. cbn [emit g_from_client].
  destruct e; try contradiction; rewrite app_nil_r; reflexivity.
Qed.

Lemma seen_websocket_server_thread env s :
  exists k, (k <= List.length env)%nat /\
    seen (websocket_server_thread env s) = seen s ++ List.concat (firstn k env).
Proof.
  unfold websocket_server_thread.
  set (s0 := set_connected true (emit Started s)).
  assert (H0 : seen s0 = seen s) by (apply (seen_outside_events Started s); exact I).
  change (g_test_mode s0) with (g_test_mode s).
  destruct (g_test_mode s).
  - destruct (seen_test_loop [0; 1; 2] env s0) as (k & Hk & E).
    exists k. split; [exact Hk|]. rewrite <- H0, <- E.
    set (s1 := test_loop [0; 1; 2] env s0).
    set (s2 := emit Finished (set_running false (emit (Sent (encode close_frame)) s1))).
    assert (H2 : seen s2 = seen s1).
    { unfold s2. rewrite seen_outside_events by exact I.
      change (seen (set_running false ?x)) with (seen x).
      apply seen_outside_events. exact I. }
    change (g_app s2) with (g_app s1).
    destruct (g_app s1); [rewrite seen_outside_events by exact I|]; exact H2.
  - destruct (seen_interactive_loop env s0) as (k & Hk & E).
    exists k. split; [exact Hk|]. rewrite <- H0, <- E.
    change (seen (set_connected false ?x)) with (seen x).
    rewrite seen_outside_events by exact I.
    apply seen_outside_events. exact I.
Qed.

(** X13.  A session takes only frames of its own: after [connect], in
    either mode, the frames the thread has taken from the queue followed by
    the frames still pending are the frames that arrived in the first
    rounds of this session, in arrival order; no frame that was pending
    before [connect] is ever returned to it. *)
Theorem session_takes_only_new_frames (env : list (list WsFrame)) (s : session) :
  exists k, (k <= List.length env)%nat /\
    consumed (websocket_server_thread env (connect s))
    ++ m_queue (g_from_client (websocket_server_thread env (connect s)))
    = consumed s ++ List.concat (firstn k env).
Proof.
  destruct (seen_websocket_server_thread env (connect s)) as (k & Hk & E).
  exists k. split; [exact Hk|]. unfold seen in E. rewrite E.
  cbn [connect set_pongs_received set_pings_sent set_from_client set_running
       g_from_client reset m_queue].
  rewrite app_nil_r. reflexivity.
Qed.

(** * The counters of the test mode *)

Lemma incr_int_small z : 0 <= z < 2 ^ 31 - 1 -> incr_int z = z + 1.
Proof. intros H. unfold incr_int. rewrite Z.mod_small by lia. lia. Qed.

Lemma answers_of_emit e s :
  List.length (answers_of (trace (emit e s)))
  = (List.length (answers_of (trace s))
     + match e with Popped _ => 1 | _ => 0 end)%nat.
Proof.
  unfold answers_of. cbn [emit trace]. rewrite flat_map_app, length_app.
  destruct e; reflexivity.
Qed.

Lemma test_round_counters i arrivals s :
  g_running (fst (test_round i arrivals s)) = g_running s /\
  List.length (answers_of (trace (fst (test_round i arrivals s))))
    = S (List.length (answers_of (trace s))) /\
  g_pings_sent (fst (test_round i arrivals s)) = incr_int (g_pings_sent s) /\
  (snd (test_round i arrivals s) = true ->
     g_pongs_received (fst (test_round i arrivals s))
       = incr_int (g_pongs_received s) /\
     (i = 2 -> g_test_result (fst (test_round i arrivals s)) = 0) /\
     (i <> 2 -> g_test_result (fst (test_round i arrivals s)) = g_test_result s)) /\
  (snd (test_round i arrivals s) = false ->
     g_pongs_received (fst (test_round i arrivals s)) = g_pongs_received s /\
     g_test_result (fst (test_round i arrivals s)) = 1).
Proof.
  unfold test_round, session_wait_pop.
  cbn [emit set_pings_sent g_from_client trace g_pings_sent].
  destruct (wait_pop (push_all (g_from_client s) arrivals)) as [r q].
  assert (A : List.length (answers_of ((trace s ++ [Sent (encode (ping_frame i))])
                                        ++ [Popped r]))
              = S (List.length (answers_of (trace s)))).
  { unfold answers_of. rewrite !flat_map_app, !length_app. cbn. lia. }
  destruct r as [f|]; cbn [fst snd].
  2:{ cbn. repeat split; try discriminate; exact A. }
  destruct (negb (Byte.eqb (opcode f) PONG)).
  { cbn. repeat split; try discriminate; exact A. }
  destruct (negb (String.eqb (string_of_list_byte (payload f)) (ping_data i))).
  { cbn. repeat split; try discriminate; exact A. }
  unfold PING_COUNT. destruct (Z.eqb_spec i (3 - 1)) as [E|E];
    cbn; repeat split; try discriminate; try exact A; intros; lia.
Qed.

Ltac count_round i a s Hr s1 Hr1 R :=
  pose proof (test_round_counters i a s) as R;
  destruct (test_round i a s) as [s1 [|]]; cbn [fst snd] in R;
  destruct R as (Hr1 & R); rewrite Hr in Hr1.

Ltac count_leaf :=
  repeat match goal with
  | H : _ /\ _ |- _ => destruct H
  | H : true = true -> _ |- _ => specialize (H eq_refl)
  | H : false = false -> _ |- _ => specialize (H eq_refl)
  | H : true = false -> _ |- _ => clear H
  | H : false = true -> _ |- _ => clear H
  end;
  repeat match goal with
  | H : ?x = _, H' : context [incr_int ?x] |- _ => rewrite H in H'
  end;
  repeat match goal with
  | H : context [incr_int ?z] |- _ =>
      let v := eval vm_compute in (incr_int z) in
      change (incr_int z) with v in H
  end;
  lia.

Lemma test_loop_counters env s :
  g_running s = true -> g_pings_sent s = 0 -> g_pongs_received s = 0 ->
  let s' := test_loop [0; 1; 2] env s in
  0 <= g_pongs_received s' /\
  List.length (answers_of (trace s'))
    = (List.length (answers_of (trace s)) + Z.to_nat (g_pings_sent s'))%nat /\
  ((g_pongs_received s' = 3 /\ g_pings_sent s' = 3 /\ g_test_result s' = 0) \/
   (g_pings_sent s' = g_pongs_received s' + 1 /\ g_pings_sent s' <= 3 /\
    g_test_result s' = 1) \/
   (g_pings_sent s' = g_pongs_received s' /\ g_pongs_received s' < 3 /\
    g_test_result s' = g_test_result s)).
Proof.
  intros Hr Hp Hq. cbn zeta. cbn [test_loop]. rewrite Hr. cbn [negb].
  destruct env as [|a0 env]; [count_leaf|].
  count_round 0 a0 s Hr s1 Hr1 R1; [|count_leaf].
  rewrite Hr1. cbn [negb].
  destruct env as [|a1 env]; [count_leaf|].
  count_round 1 a1 s1 Hr1 s2 Hr2 R2; [|count_leaf].
  rewrite Hr2. cbn [negb].
  destruct env as [|a2 env]; [count_leaf|].
  count_round 2 a2 s2 Hr2 s3 Hr3 R3; count_leaf.
Qed.

(** X14.  The counters reported at the end of a test run.  After [connect]
    in test mode, [g_pings_sent] is the number of waits on the queue, and
    the counters and the result stand in one of three relations: three
    PINGs, three PONGs and result 0; or one PING more than PONGs (the last
    round failed) and result 1; or as many PINGs as PONGs, fewer than
    three (the writer went away between rounds), and the result as it was
    before. *)
Theorem test_mode_counters (env : list (list WsFrame)) (s : session) :
  g_test_mode s = true ->
  let s' := websocket_server_thread env (connect s) in
  0 <= g_pongs_received s' /\
  List.length (answers_of (trace s'))
    = (List.length (answers_of (trace s)) + Z.to_nat (g_pings_sent s'))%nat /\
  ((g_pongs_received s' = 3 /\ g_pings_sent s' = 3 /\ g_test_result s' = 0) \/
   (g_pings_sent s' = g_pongs_received s' + 1 /\ g_pings_sent s' <= 3 /\
    g_test_result s' = 1) \/
   (g_pings_sent s' = g_pongs_received s' /\ g_pongs_received s' < 3 /\
    g_test_result s' = g_test_result s)).
Proof.
  intros Htest. cbn zeta. unfold websocket_server_thread.
  set (s0 := set_connected true (emit Started (connect s))).
  change (g_test_mode s0) with (g_test_mode s). rewrite Htest.
  pose proof (test_loop_counters env s0 eq_refl eq_refl eq_refl) as H.
  cbn zeta in H.
  assert (A0 : List.length (answers_of (trace s0))
               = List.length (answers_of (trace s))).
  { unfold s0. change (trace (set_connected true ?x)) with (trace x).
    rewrite answers_of_emit. change (trace (connect s)) with (trace s). lia. }
  rewrite A0 in H. change (g_test_result s0) with (g_test_result s) in H.
  clearbody s0.
  destruct (test_loop [0; 1; 2] env s0) as [q run con tm res ps pr ga tr].
  cbn [g_pongs_received g_pings_sent g_test_result trace] in H.
  assert (A : forall l, List.length (answers_of ((tr ++ [Sent (encode close_frame)])
                                                  ++ [Finished] ++ l))
                        = (List.length (answers_of tr) + List.length (answers_of l))%nat).
  { intros l. unfold answers_of. rewrite !flat_map_app, !length_app. cbn. lia. }
  destruct ga; cbn [emit set_running g_app g_pongs_received g_pings_sent
                    g_test_result trace].
  - rewrite <- app_assoc. rewrite (A [Quit]). cbn [answers_of flat_map List.length].
    rewrite Nat.add_0_r. exact H.
  - pose proof (A []) as A'. rewrite app_nil_r in A'. rewrite A'.
    cbn [answers_of flat_map List.length]. rewrite Nat.add_0_r. exact H.
Qed.

Lemma test_mode_counters_witness :
  g_test_mode (initial_session true) = true /\
  let s' := websocket_server_thread
              [[mkFrame true PONG (list_byte_of_string (ping_data 0))]; []]
              (connect (initial_session true)) in
  0 <= g_pongs_received s' /\
  List.length (answers_of (trace s'))
    = (List.length (answers_of (trace (initial_session true)))
       + Z.to_nat (g_pings_sent s'))%nat /\
  ((g_pongs_received s' = 3 /\ g_pings_sent s' = 3 /\ g_test_result s' = 0) \/
   (g_pings_sent s' = g_pongs_received s' + 1 /\ g_pings_sent s' <= 3 /\
    g_test_result s' = 1) \/
   (g_pings_sent s' = g_pongs_received s' /\ g_pongs_received s' < 3 /\
    g_test_result s' = g_test_result (initial_session true))).
Proof.
  split; [reflexivity|].
  apply (test_mode_counters
           [[mkFrame true PONG (list_byte_of_string (ping_data 0))]; []]
           (initial_session true)).
  reflexivity.
Defined.

(** * The page at the CLOSE of the server *)

(** X15.  The page stops at a CLOSE frame.  When a chunk starts with an
    encoded CLOSE frame, whatever its payload and whatever follows it in
    that chunk or in later chunks, a connected page with an empty [buffer]
    lowers [connected] and sends one message, a CLOSE frame that the
    binary-message handler decodes to the payload 0x03 0xE8; the frame
    stays in [buffer], nothing after it is handled and no later chunk is
    read. *)
Theorem page_close_ends_reading (keys : nat -> Mask) (f : WsFrame)
    (rest : list byte) (later : list (list byte)) (pg : page) :
  opcode f = CLOSE -> size (payload f) < 2 ^ 31 ->
  buffer pg = [] -> connected pg = true ->
  let reply := encodeFrame OPCODE_CLOSE (bytes_of [0x03; 0xE8])
                 (keys (keys_drawn pg)) in
  on_chunks keys ((encode f ++ rest) :: later) pg
    = Some (mkPage (encode f ++ rest) false (stats_received pg) (stats_pings pg)
              (stats_pongs pg) (S (keys_drawn pg)), [reply]) /\
  arrivals_of [reply] = [close_frame].
Proof.
  intros Hop Hlen Hb Hc reply. split.
  - assert (H1 : on_chunk keys (encode f ++ rest) pg
                 = Some (mkPage (encode f ++ rest) false (stats_received pg)
                           (stats_pings pg) (stats_pongs pg) (S (keys_drawn pg)),
                         [reply])).
    { unfold on_chunk. cbn [set_buffer buffer]. rewrite Hb. cbn [app].
      cbn [process_frames].
      change (buffer (set_buffer ?b ?x)) with b.
      rewrite decodeFrame_encode_app
        by (try rewrite Hop; try exact Hlen; vm_compute; reflexivity).
      unfold handleFrame, sendFrame. cbn [js_frame_of js_opcode].
      rewrite Hop. change (byte.unsigned CLOSE) with 8.
      cbn [Z.eqb Pos.eqb OPCODE_TEXT OPCODE_BINARY OPCODE_PING OPCODE_PONG
           OPCODE_CLOSE orb].
      cbn [set_buffer buffer connected stats_received stats_pings stats_pongs
           keys_drawn].
      reflexivity. }
    cbn [on_chunks]. rewrite Hc. cbn [negb]. rewrite H1.
    destruct later as [|c later]; cbn [on_chunks connected negb app]; reflexivity.
  - unfold reply. cbn [arrivals_of flat_map].
    rewrite (decode_encodeFrame_ok OPCODE_CLOSE (bytes_of [0x03; 0xE8]) _
               ltac:(unfold OPCODE_CLOSE; lia) ltac:(vm_compute; discriminate)).
    reflexivity.
Qed.

Lemma page_close_ends_reading_witness :
  let keys := fun _ : nat => mkMask Byte.x5a Byte.x00 Byte.xff Byte.x10 in
  let reply := encodeFrame OPCODE_CLOSE (bytes_of [0x03; 0xE8]) (keys 0%nat) in
  opcode close_frame = CLOSE /\ size (payload close_frame) < 2 ^ 31 /\
  buffer page_connected = [] /\ connected page_connected = true /\
  on_chunks keys ((encode close_frame ++ encode (ping_frame 0))
                  :: [encode (ping_frame 1)]) page_connected
    = Some (mkPage (encode close_frame ++ encode (ping_frame 0)) false 0 0 0 1,
            [reply]) /\
  arrivals_of [reply] = [close_frame].
Proof.
  intros keys reply.
  assert (H2 : size (payload close_frame) < 2 ^ 31) by (vm_compute; reflexivity).
  exact (conj eq_refl (conj H2 (conj eq_refl (conj eq_refl
           (page_close_ends_reading keys close_frame (encode (ping_frame 0))
              [encode (ping_frame 1)] page_connected eq_refl H2 eq_refl eq_refl))))).
Defined.

(** * A message of the page through the interactive mode *)

(** X16.  The echo, end to end.  A TEXT or BINARY frame of up to 65535
    bytes that the page sends with [sendFrame] is pushed by the
    binary-message handler as that frame; a round of the interactive loop
    that starts with an empty queue takes it, writes its encoding to the
    stream and goes on; and the page, reading that chunk with an empty
    [buffer], counts one received message, sends nothing and leaves its
    [buffer] empty. *)
Theorem page_message_is_echoed (keys : nat -> Mask) (op : Z) (p : list byte)
    (pg : page) (s : session) :
  op = OPCODE_TEXT \/ op = OPCODE_BINARY ->
  size p <= 65535 ->
  buffer pg = [] ->
  m_queue (g_from_client s) = [] ->
  let f := mkFrame true (byte.of_Z op) p in
  let msg := snd (sendFrame keys op p pg) in
  let pg1 := fst (sendFrame keys op p pg) in
  let round := interactive_round (arrivals_of [msg]) s in
  binary_message (g_from_client s) msg = Some (push (g_from_client s) f) /\
  trace (fst round) = trace s ++ [Popped (Some f); Sent (encode f)] /\
  snd round = true /\
  m_queue (g_from_client (fst round)) = [] /\
  on_chunk keys (encode f) pg1
    = Some (mkPage [] (connected pg) (stats_received pg + 1) (stats_pings pg)
              (stats_pongs pg) (S (keys_drawn pg)), []).
Proof.
  intros Hop Hlen Hb Hq f msg pg1 round.
  assert (Hop' : 0 <= op < 16)
    by (destruct Hop; subst op; unfold OPCODE_TEXT, OPCODE_BINARY; lia).
  assert (Hd : decode msg = Ok (f, size msg))
    by (apply decode_encodeFrame_ok; assumption).
  assert (Hdata : Byte.eqb (opcode f) TEXT || Byte.eqb (opcode f) BINARY = true)
    by (destruct Hop; subst op; reflexivity).
  split; [unfold binary_message; rewrite Hd; reflexivity|].
  assert (Hr : round = (emit (Sent (encode f))
                          (emit (Popped (Some f))
                             (set_from_client
                                (mkQueue [] (m_closed (g_from_client s))) s)),
                        true)).
  { unfold round, interactive_round, session_wait_pop.
    cbn [arrivals_of flat_map]. rewrite Hd. cbn [app].
    rewrite push_all_queue, Hq. cbn [app]. rewrite wait_pop_cons.
    rewrite Hdata. reflexivity. }
  rewrite Hr. cbn [fst snd emit set_from_client trace g_from_client m_queue].
  split; [rewrite <- app_assoc; reflexivity|].
  split; [reflexivity|]. split; [reflexivity|].
  assert (Hs : stream_frame f).
  { unfold stream_frame, f. cbn [opcode payload].
    destruct Hop; subst op; (split; [vm_compute; reflexivity|]);
      (split; [lia|]); intros E; apply (f_equal byte.unsigned) in E;
      vm_compute in E; discriminate E. }
  rewrite (on_chunk_whole_frame keys f pg1 Hs Hb).
  unfold pg1, sendFrame. cbn [fst snd page_handles].
  unfold handleFrame. cbn [js_frame_of js_opcode opcode].
  destruct Hop; subst op; cbn; rewrite Hb; reflexivity.
Qed.

Lemma page_message_is_echoed_witness :
  let keys := fun _ : nat => mkMask Byte.x5a Byte.x00 Byte.xff Byte.x10 in
  let p := list_byte_of_string "hello" in
  let s := connect (initial_session false) in
  let f := mkFrame true TEXT p in
  let msg := snd (sendFrame keys OPCODE_TEXT p page_connected) in
  let round := interactive_round (arrivals_of [msg]) s in
  (OPCODE_TEXT = OPCODE_TEXT \/ OPCODE_TEXT = OPCODE_BINARY) /\
  size p <= 65535 /\ buffer page_connected = [] /\
  m_queue (g_from_client s) = [] /\
  binary_message (g_from_client s) msg = Some (push (g_from_client s) f) /\
  trace (fst round) = trace s ++ [Popped (Some f); Sent (encode f)] /\
  snd round = true /\
  m_queue (g_from_client (fst round)) = [] /\
  on_chunk keys (encode f) (fst (sendFrame keys OPCODE_TEXT p page_connected))
    = Some (mkPage [] true 1 0 0 1, []).
Proof.
  intros keys p s f msg round.
  assert (H1 : OPCODE_TEXT = OPCODE_TEXT \/ OPCODE_TEXT = OPCODE_BINARY)
    by (left; reflexivity).
  assert (H2 : size p <= 65535) by (vm_compute; discriminate).
  exact (conj H1 (conj H2 (conj eq_refl (conj eq_refl
           (page_message_is_echoed keys OPCODE_TEXT p page_connected s
              H1 H2 eq_refl eq_refl))))).
Defined.
